(** * EllipMap: report parser and spatial interpolator

    A shallow embedding of [EllipMap.__init__] and [EllipMap.interp_grid]
    (module pdfellip, file extract_pdfdata-checkpoint.py), and of the
    patterns of the script extract_pdfdata.py.

    - [Regex]   : the fragment of Python's backtracking [re] engine that the
                  five patterns of [__init__] use; [re.search], [re.findall].
    - [PyFloat] : Python's [float(str)] into IEEE-754 binary64, carried by
                  [spec_float] with [prec = 53] and [emax = 1024].
    - [Numpy]   : the numpy calls of [__init__]: unicode arrays, [astype],
                  [isnan], [flatnonzero], [interp], boolean-mask assignment,
                  [radians].
    - [Parser]  : [EllipMap.__init__] from the extracted page texts on.
    - [Script]  : the patterns of the script.
    - [Interp]  : [EllipMap.interp_grid], binary64 read as real numbers with
                  the sign of their zeros.
    - [Spec], [InterpSpec], [Layout] : the vocabulary of the statements.
    - [...Facts] : lemmas; [ParserClaims], [InterpClaims] : the statements on
                  the parser and on the interpolator; [ParserProperties],
                  [InterpProperties] : further properties of the two. *)

From Stdlib Require Import String Ascii List Bool Arith ZArith Lia Sorted.
From Stdlib Require Import DecimalString.
From Stdlib Require Import Floats.SpecFloat.
From Stdlib Require Import Reals Lra.
Import ListNotations.

Set Implicit Arguments.

(** ** Python exceptions and the error monad *)

(** The statement of [__init__] / [interp_grid] whose evaluation raised. *)
Inductive site :=
| At_stddev      (* self.stddev = float(re.search(patt_stddev, ...).group(1)) *)
| At_mean        (* self.mean = float(re.search(patt_mean, ...).group(1)) *)
| At_rad         (* np.array(matches_rad).astype(float) *)
| At_theta       (* np.array(matches_theta).astype(float) *)
| At_thick       (* np.array(matches_thick).astype(float, casting='unsafe') *)
| At_interp      (* np.interp(...) and the masked assignment *)
| At_cartesian   (* self.rad_arr * np.cos(self.theta_arr), ... np.sin ... *)
| At_rbf         (* scipy.interpolate.RBFInterpolator(...) *)
| At_bounds      (* min(x), max(x), min(y), max(y) *)
| At_linspace.   (* np.linspace(..., ptnum) *)

(** The exception classes that the modelled calls raise. *)
Inductive pyexc :=
| AttributeError             (* 'NoneType' object has no attribute 'group' *)
| TypeError                  (* float() argument must be a string or a number *)
| ValueError (msg : string)  (* float(): the text that is not a number;
                                np.linspace: its message; else a short form *)
| IndexError                 (* boolean index did not match the indexed array *)
| LinAlgError.               (* scipy: singular interpolation matrix *)

(** A call either returns or raises; [E] is what the caller learns of the
    failure: the exception ([pyexc]) for a library call, the exception and
    the raising statement ([site * pyexc]) for a method of [EllipMap]. *)
Inductive result (E A : Type) :=
| Ok (a : A)
| Raise (e : E).
Arguments Ok {E A} a.
Arguments Raise {E A} e.

Definition bind {E A B} (r : result E A) (k : A -> result E B) : result E B :=
  match r with
  | Ok a => k a
  | Raise e => Raise e
  end.

Declare Scope py_scope.
Delimit Scope py_scope with py.
Notation "x <- c ;; k" := (bind c (fun x => k))
  (at level 61, c at next level, right associativity) : py_scope.
Open Scope py_scope.

Definition is_ok {E A} (r : result E A) : bool :=
  match r with Ok _ => true | Raise _ => false end.

(** The traceback entry: the exception is tagged with the statement that
    was being evaluated. *)
Definition at_site {A} (l : site) (r : result pyexc A) : result (site * pyexc) A :=
  match r with
  | Ok a => Ok a
  | Raise e => Raise (l, e)
  end.

Fixpoint mapM {E A B} (f : A -> result E B) (l : list A) : result E (list B) :=
  match l with
  | [] => Ok []
  | a :: l' => b <- f a ;; bs <- mapM f l' ;; Ok (b :: bs)
  end.

(** ** The regular-expression engine *)

(** A text is a [string]: a sequence of code points below 256. *)
Module Regex.

Local Open Scope string_scope.

(** Character classes of the patterns: [\s] and [.]. *)
Inductive cclass := Space | Dot.

(** [\s] on a [str] pattern: the code points for which [str.isspace()]
    holds; below 256 these are 9-13, 28-32, 133 and 160. *)
Definition is_space (a : ascii) : bool :=
  let n := nat_of_ascii a in
  (((9 <=? n) && (n <=? 13)) || ((28 <=? n) && (n <=? 32))
   || (n =? 133) || (n =? 160))%nat.

(** [.] without DOTALL: anything but a line feed. *)
Definition is_dot (a : ascii) : bool := negb (nat_of_ascii a =? 10)%nat.

Definition class_matches (c : cclass) : ascii -> bool :=
  match c with Space => is_space | Dot => is_dot end.

Inductive regex :=
| Lit (s : string)        (* literal text *)
| One (c : cclass)        (* one character of the class *)
| Star (c : cclass)       (* c*  : greedy *)
| StarLazy (c : cclass)   (* c*? : non-greedy *)
| Group (r : regex)       (* ( r ) : capturing group 1 *)
| Seq (r1 r2 : regex)
| Alt (r1 r2 : regex).    (* r1|r2 : r1 is tried first *)

Declare Scope regex_scope.
Delimit Scope regex_scope with re.
Infix "++" := Seq (right associativity, at level 60) : regex_scope.
Infix "||" := Alt : regex_scope.

(** [strip_prefix p s]: the rest of [s] after the literal [p]. *)
Fixpoint strip_prefix (p s : string) : option string :=
  match p with
  | EmptyString => Some s
  | String a p' =>
      match s with
      | EmptyString => None
      | String b s' => if Ascii.eqb a b then strip_prefix p' s' else None
      end
  end.

(** The text consumed between input [s] and its suffix [rest]. *)
Definition consumed (s rest : string) : string :=
  substring 0 (String.length s - String.length rest) s.

Section Match.
Variable A : Type.

(** Backtracking matcher in continuation-passing style: [k] is given the
    rest of the input and the text captured by group 1, if the group took
    part; [None] makes the matcher try its next alternative. *)
Fixpoint rmatch (r : regex) (s : string) (g : option string)
         (k : string -> option string -> option A) {struct r} : option A :=
  match r with
  | Lit p =>
      match strip_prefix p s with
      | Some rest => k rest g
      | None => None
      end
  | One c =>
      match s with
      | String a s' => if class_matches c a then k s' g else None
      | EmptyString => None
      end
  | Star c =>
      (fix greedy (s : string) : option A :=
         match s with
         | String a s' =>
             if class_matches c a
             then match greedy s' with
                  | Some res => Some res
                  | None => k s g
                  end
             else k s g
         | EmptyString => k s g
         end) s
  | StarLazy c =>
      (fix lazy (s : string) : option A :=
         match k s g with
         | Some res => Some res
         | None =>
             match s with
             | String a s' => if class_matches c a then lazy s' else None
             | EmptyString => None
             end
         end) s
  | Group r1 => rmatch r1 s g (fun rest _ => k rest (Some (consumed s rest)))
  | Seq r1 r2 => rmatch r1 s g (fun rest g' => rmatch r2 rest g' k)
  | Alt r1 r2 =>
      match rmatch r1 s g k with
      | Some res => Some res
      | None => rmatch r2 s g k
      end
  end.
End Match.

(** A match anchored at the start of [s]: the rest of the input and
    group 1. *)
Definition match_here (r : regex) (s : string) : option (string * option string) :=
  rmatch r s None (fun rest g => Some (rest, g)).

(** [re.search(r, s)]: the leftmost match; [None] when there is none. *)
Fixpoint search (r : regex) (s : string) : option (string * option string) :=
  match match_here r s with
  | Some m => Some m
  | None =>
      match s with
      | String _ s' => search r s'
      | EmptyString => None
      end
  end.

(** What [re.findall] lists for a one-group pattern: group 1, and the empty
    string when the group took no part in the match. *)
Definition group_text (g : option string) : string :=
  match g with Some t => t | None => "" end.

(** [re.findall(r, s)] for a one-group pattern: the non-overlapping matches
    from left to right.  [skip] counts the characters of the last match
    still to be stepped over. *)
Fixpoint findall_from (r : regex) (s : string) (skip : nat) : list string :=
  match skip with
  | S n =>
      match s with
      | String _ s' => findall_from r s' n
      | EmptyString => []
      end
  | O =>
      match match_here r s with
      | Some (rest, g) =>
          group_text g ::
            match s with
            | String _ s' => findall_from r s' (String.length s - String.length rest - 1)
            | EmptyString => []
            end
      | None =>
          match s with
          | String _ s' => findall_from r s' 0
          | EmptyString => []
          end
      end
  end.

Definition findall (r : regex) (s : string) : list string := findall_from r s 0.

End Regex.

(** ** Python's [float(str)] into binary64 *)

Module PyFloat.

Import Regex.

(** IEEE-754 binary64. *)
Definition float := spec_float.
Definition prec : Z := 53.
Definition emax : Z := 1024.

Definition fadd : float -> float -> float := SFadd prec emax.
Definition fsub : float -> float -> float := SFsub prec emax.
Definition fmul : float -> float -> float := SFmul prec emax.
Definition fdiv : float -> float -> float := SFdiv prec emax.
Definition feqb : float -> float -> bool := SFeqb.

Definition nan : float := S754_nan.

Definition isnan (x : float) : bool :=
  match x with S754_nan => true | _ => false end.

Definition is_finite (x : float) : bool :=
  match x with S754_zero _ | S754_finite _ _ _ => true | _ => false end.

(** An [int] converted to [double]: round to nearest, ties to even. *)
Definition of_Z (n : Z) : float := binary_normalize prec emax n 0 false.

(** The white space that [float()] strips from both ends: the code points
    9-13 and 32, and beyond ASCII those of [str.isspace()], 133 and 160
    below 256.  (The separators 28-31 are white space for [\s] but not
    here.) *)
Definition is_float_space (a : ascii) : bool :=
  let n := nat_of_ascii a in
  (((9 <=? n) && (n <=? 13)) || (n =? 32) || (n =? 133) || (n =? 160))%nat.

Fixpoint lstrip (s : list ascii) : list ascii :=
  match s with
  | a :: s' => if is_float_space a then lstrip s' else s
  | [] => []
  end.

Definition strip (s : list ascii) : list ascii :=
  rev (lstrip (rev (lstrip s))).

Definition is_digit (a : ascii) : bool :=
  let n := nat_of_ascii a in ((48 <=? n) && (n <=? 57))%nat.

Definition lower (a : ascii) : ascii :=
  let n := nat_of_ascii a in
  if ((65 <=? n) && (n <=? 90))%nat then ascii_of_nat (n + 32) else a.

(** digitpart ::= digit (["_"] digit)*  -- the part after the first digit *)
Fixpoint digits_tail (s : list ascii) : list ascii * list ascii :=
  match s with
  | a :: s' =>
      if is_digit a then
        let (ds, r) := digits_tail s' in (a :: ds, r)
      else if Ascii.eqb a "_" then
        match s' with
        | b :: s'' =>
            if is_digit b then
              let (ds, r) := digits_tail s'' in (b :: ds, r)
            else ([], s)
        | [] => ([], s)
        end
      else ([], s)
  | [] => ([], s)
  end.

Definition digitpart (s : list ascii) : option (list ascii * list ascii) :=
  match s with
  | a :: s' =>
      if is_digit a then
        let (ds, r) := digits_tail s' in Some (a :: ds, r)
      else None
  | [] => None
  end.

(** sign ::= "+" | "-" ; [true] is the minus sign. *)
Definition sign (s : list ascii) : bool * list ascii :=
  match s with
  | a :: s' =>
      if Ascii.eqb a "-" then (true, s')
      else if Ascii.eqb a "+" then (false, s')
      else (false, s)
  | [] => (false, s)
  end.

(** number ::= [digitpart] "." digitpart | digitpart ["."]
    Gives the integer digits, the fraction digits and the rest. *)
Definition number (s : list ascii)
  : option (list ascii * list ascii * list ascii) :=
  match digitpart s with
  | Some (ip, r) =>
      match r with
      | a :: r' =>
          if Ascii.eqb a "." then
            match digitpart r' with
            | Some (fp, r'') => Some (ip, fp, r'')
            | None => Some (ip, [], r')
            end
          else Some (ip, [], r)
      | [] => Some (ip, [], r)
      end
  | None =>
      match s with
      | a :: r' =>
          if Ascii.eqb a "." then
            match digitpart r' with
            | Some (fp, r'') => Some ([], fp, r'')
            | None => None
            end
          else None
      | [] => None
      end
  end.

(** exponent ::= ("e" | "E") [sign] digitpart ; absent means 0. *)
Definition decimal_value (ds : list ascii) : Z :=
  fold_left (fun acc a => (10 * acc + Z.of_nat (nat_of_ascii a - 48))%Z) ds 0%Z.

Definition exponent (s : list ascii) : option (Z * list ascii) :=
  match s with
  | a :: s' =>
      if Ascii.eqb (lower a) "e" then
        let (neg, r) := sign s' in
        match digitpart r with
        | Some (ds, r') =>
            Some (if neg then (- decimal_value ds)%Z else decimal_value ds, r')
        | None => None
        end
      else Some (0%Z, s)
  | [] => Some (0%Z, s)
  end.

(** The binary64 nearest to [(-1)^neg * d * 10^e10]: an integer is rounded
    once by [binary_round], a proper fraction once by the division of its
    exact numerator and denominator. *)
Definition of_decimal (neg : bool) (d : Z) (e10 : Z) : float :=
  match d with
  | Zpos m =>
      match e10 with
      | Z0 => binary_round prec emax neg m 0
      | Zpos p => binary_round prec emax neg (Pos.mul m (Pos.pow 10 p)) 0
      | Zneg p => fdiv (S754_finite neg m 0) (S754_finite false (Pos.pow 10 p) 0)
      end
  | _ => S754_zero neg
  end.

(** floatvalue ::= [sign] (floatnumber | "inf" | "infinity" | "nan"),
    letters in either case, surrounded by optional whitespace. *)
Definition parse_float (s : string) : option float :=
  let (neg, body) := sign (strip (list_ascii_of_string s)) in
  let low := string_of_list_ascii (map lower body) in
  if String.eqb low "inf" || String.eqb low "infinity"
  then Some (S754_infinity neg)
  else if String.eqb low "nan" then Some nan
  else
    match number body with
    | Some (ip, fp, r) =>
        match exponent r with
        | Some (x, []) =>
            Some (of_decimal neg (decimal_value (ip ++ fp))
                             (x - Z.of_nat (List.length fp)))
        | _ => None
        end
    | None => None
    end.

(** [float(s)]: ValueError "could not convert string to float: s". *)
Definition py_float (s : string) : result pyexc float :=
  match parse_float s with
  | Some x => Ok x
  | None => Raise (ValueError s)
  end.

End PyFloat.

(** ** The numpy calls of [__init__] *)

Module Numpy.

Import PyFloat.
Local Open Scope string_scope.

(** A one-dimensional array of dtype [<U width]. *)
Record str_array := { width : nat; items : list string }.

(** Trailing NUL characters are padding in a unicode array and are not
    read back. *)
Fixpoint drop_nul (s : list ascii) : list ascii :=
  match s with
  | a :: s' => if Ascii.eqb a zero then drop_nul s' else s
  | [] => []
  end.

Definition rstrip_nul (s : string) : string :=
  string_of_list_ascii (rev (drop_nul (rev (list_ascii_of_string s)))).

(** [np.array(l)] for a list of [str]: the item size is the longest length,
    and at least one. *)
Definition array (l : list string) : str_array :=
  {| width := Nat.max 1 (fold_right (fun t n => Nat.max (String.length t) n) 0 l);
     items := map rstrip_nul l |}.

(** [a[a == ''] = np.nan]: the float is stored as [str(np.nan)], cut to the
    item size of [a]. *)
Definition assign_nan_where_empty (a : str_array) : str_array :=
  {| width := width a;
     items := map (fun t => if String.eqb t "" then substring 0 (width a) "nan" else t)
                  (items a) |}.

(** [a.astype(float)]: [float()] of every item; the first failure raises. *)
Definition astype_float (a : str_array) : result pyexc (list float) :=
  mapM py_float (items a).

(** [np.isnan(a)], [~mask], [np.flatnonzero(mask)], [a[mask]]. *)
Definition isnan_mask (a : list float) : list bool := map isnan a.

Definition invert (mask : list bool) : list bool := map negb mask.

Fixpoint flatnonzero_from (i : nat) (mask : list bool) : list nat :=
  match mask with
  | [] => []
  | b :: mask' =>
      if b then i :: flatnonzero_from (S i) mask'
      else flatnonzero_from (S i) mask'
  end.

Definition flatnonzero (mask : list bool) : list nat := flatnonzero_from 0 mask.

Fixpoint select (a : list float) (mask : list bool) : list float :=
  match a, mask with
  | x :: a', b :: mask' => if b then x :: select a' mask' else select a' mask'
  | _, _ => []
  end.

(** An index of an [int64] array as the [double] that [np.interp] works
    on. *)
Definition index_to_double (n : nat) : float := of_Z (Z.of_nat n).

(** The value of [np.interp] at [x] between the samples [(xl, fl)] and
    [(xr, fr)], [xl <= x < xr]:
<<
      slope = (fr - fl) / (xr - xl);   res = slope*(x - xl) + fl;
      if isnan(res) { res = slope*(x - xr) + fr;
                      if isnan(res) && fl == fr  res = fl; }
>>
    and [fl] itself when [x == xl]. *)
Definition lerp (xl : nat) (fl : float) (xr : nat) (fr : float) (x : nat) : float :=
  let dxl := index_to_double xl in
  let dxr := index_to_double xr in
  let dx := index_to_double x in
  if feqb dxl dx then fl
  else
    let slope := fdiv (fsub fr fl) (fsub dxr dxl) in
    let res := fadd (fmul slope (fsub dx dxl)) fl in
    if isnan res then
      let res' := fadd (fmul slope (fsub dx dxr)) fr in
      if isnan res' && feqb fl fr then fl else res'
    else res.

(** The samples are in increasing order of abscissa; [(xl, fl)] is the last
    sample passed, so [xl <= x].  The abscissas are compared as the indices
    they are: the conversion to double keeps their order below 2^53. *)
Fixpoint interp_scan (x xl : nat) (fl : float) (pts : list (nat * float)) : float :=
  match pts with
  | [] => fl                                    (* x >= xp[-1] : fp[-1] *)
  | (xr, fr) :: rest =>
      if (x <? xr)%nat then lerp xl fl xr fr x
      else interp_scan x xr fr rest
  end.

Definition interp1 (pts : list (nat * float)) (x : nat) : float :=
  match pts with
  | [] => nan
  | (x0, f0) :: rest =>
      if (x <? x0)%nat then f0                  (* x < xp[0] : fp[0] *)
      else interp_scan x x0 f0 rest
  end.

(** [np.interp(x, xp, fp)] with the default [left] and [right]. *)
Definition interp (x xp : list nat) (fp : list float) : result pyexc (list float) :=
  match xp with
  | [] => Raise (ValueError "array of sample points is empty")
  | _ :: _ =>
      if negb (List.length xp =? List.length fp)%nat
      then Raise (ValueError "fp and xp are not of the same length.")
      else Ok (map (interp1 (combine xp fp)) x)
  end.

(** [a[mask] = v]: the values of [v] go, in order, to the places where
    [mask] holds; there must be one value for each place. *)
Fixpoint put_mask (a : list float) (mask : list bool) (v : list float)
  : result pyexc (list float) :=
  match a, mask with
  | [], [] =>
      match v with
      | [] => Ok []
      | _ :: _ => Raise (ValueError "cannot assign input values to the mask")
      end
  | x :: a', b :: mask' =>
      if b then
        match v with
        | y :: v' => r <- put_mask a' mask' v' ;; Ok (y :: r)
        | [] => Raise (ValueError "cannot assign input values to the mask")
        end
      else r <- put_mask a' mask' v ;; Ok (x :: r)
  | _, _ => Raise IndexError
  end.

(** [np.radians(x) = x * (NPY_PI / 180.0)]. *)
Definition NPY_PI : float := S754_finite false 7074237752028440 (-51).

Definition DEG2RAD : float := fdiv NPY_PI (of_Z 180).

Definition radians (x : float) : float := fmul x DEG2RAD.

End Numpy.

(** ** [EllipMap.__init__] *)

Module Parser.

Import Regex PyFloat Numpy.
Local Open Scope string_scope.

Definition patt_stddev : regex :=
  (Lit "StdDev" ++ Star Space ++ Group (StarLazy Dot) ++ One Space)%re.
Definition patt_mean : regex :=
  (Lit "Mean" ++ Star Space ++ Group (StarLazy Dot) ++ One Space)%re.
Definition patt_rad : regex :=
  (Lit "R=" ++ Star Space ++ Group (StarLazy Dot) ++ Lit ",")%re.
Definition patt_theta : regex :=
  (Lit "Theta=" ++ Star Space ++ Group (StarLazy Dot) ++ Lit ",")%re.
Definition patt_thick : regex :=
  ((Lit "Thick1=" ++ Star Space ++ Group (StarLazy Dot) ++ Lit ",")
   || Lit "No Soution")%re.

Record EllipMap := {
  stddev : float;
  mean : float;
  rad_arr : list float;
  theta_arr : list float;
  thick_arr : list float
}.

(** [float(re.search(patt, all_content).group(1))] *)
Definition search_float (patt : regex) (all_content : string) : result pyexc float :=
  match search patt all_content with
  | None => Raise AttributeError
  | Some (_, Some t) => py_float t
  | Some (_, None) => Raise TypeError
  end.

(** Lines 110-114: the NaN entries of [thick_arr] are overwritten by
    [np.interp] of their indices over the indices and values of the other
    entries. *)
Definition repair_missing (thick_arr : list float) : result pyexc (list float) :=
  let mask := isnan_mask thick_arr in
  v <- interp (flatnonzero mask) (flatnonzero (invert mask))
              (select thick_arr (invert mask)) ;;
  put_mask thick_arr mask v.

(** The body of [__init__] once the text of the pages is concatenated. *)
Definition parse (all_content : string) : result (site * pyexc) EllipMap :=
  stddev <- at_site At_stddev (search_float patt_stddev all_content) ;;
  mean <- at_site At_mean (search_float patt_mean all_content) ;;
  let matches_rad := findall patt_rad all_content in
  let matches_theta := findall patt_theta all_content in
  let matches_thick :=
    assign_nan_where_empty (array (findall patt_thick all_content)) in
  rad_arr <- at_site At_rad (astype_float (array matches_rad)) ;;
  theta <- at_site At_theta (astype_float (array matches_theta)) ;;
  let theta_arr := map radians theta in
  thick <- at_site At_thick (astype_float matches_thick) ;;
  thick_arr <- at_site At_interp (repair_missing thick) ;;
  Ok {| stddev := stddev; mean := mean; rad_arr := rad_arr;
        theta_arr := theta_arr; thick_arr := thick_arr |}.

(** [EllipMap(pdfpath)]: [pages] are the texts that [extract_text] gives for
    the pages of the file, in order. *)
Definition __init__ (pages : list string) : result (site * pyexc) EllipMap :=
  parse (fold_left String.append pages "").

End Parser.

(** ** The script extract_pdfdata.py *)

(** The patterns of the script (lines 18-22), which are those of the class
    but for the thickness: [patt_thick] has no alternative for the marker
    of a missing reading.  They are f-strings without replacement fields,
    in which [\s] stays as it is written. *)
Module Script.

Import Regex.
Local Open Scope string_scope.

Definition patt_stddev : regex :=
  (Lit "StdDev" ++ Star Space ++ Group (StarLazy Dot) ++ One Space)%re.
Definition patt_mean : regex :=
  (Lit "Mean" ++ Star Space ++ Group (StarLazy Dot) ++ One Space)%re.
Definition patt_rad : regex :=
  (Lit "R=" ++ Star Space ++ Group (StarLazy Dot) ++ Lit ",")%re.
Definition patt_theta : regex :=
  (Lit "Theta=" ++ Star Space ++ Group (StarLazy Dot) ++ Lit ",")%re.
Definition patt_thick : regex :=
  (Lit "Thick1=" ++ Star Space ++ Group (StarLazy Dot) ++ Lit ",")%re.

End Script.

(** ** [EllipMap.interp_grid] *)

(** In this module a binary64 number is read as the real number it stands
    for, and [np.cos], [np.sin], [np.sqrt], [np.arctan2] as the functions
    they approximate: rounding, infinities and NaN are outside of it.  The
    sign of a zero is not: [np.arctan2] reads it, so it is carried next to
    the real numbers, from the samples to the nodes of the mesh. *)
Module Interp.

Local Open Scope R_scope.

(** The three arrays of [self] that [interp_grid] reads.  The real number of
    a double does not tell -0.0 from 0.0: [rad_negzero] and [theta_negzero]
    hold, entry by entry, the sign bit of the entries that are zero (a
    missing flag is [false], and the flag of an entry that is not zero is
    not read). *)
Record Samples := {
  rad_arr : list R;
  theta_arr : list R;
  thick_arr : list R;
  rad_negzero : list bool;
  theta_negzero : list bool
}.

Definition grid := list (list R).

Fixpoint map2 {A B C} (f : A -> B -> C) (a : list A) (b : list B) : list C :=
  match a, b with
  | u :: a', v :: b' => f u v :: map2 f a' b'
  | _, _ => []
  end.

(** An elementwise binary operation on two one-dimensional arrays, with
    numpy's broadcasting of a one-element array. *)
Definition broadcast {A} (f : A -> A -> A) (a b : list A) : result pyexc (list A) :=
  if (length a =? length b)%nat then Ok (map2 f a b)
  else match a, b with
       | [u], _ => Ok (map (f u) b)
       | _, [v] => Ok (map (fun u => f u v) a)
       | _, _ => Raise (ValueError "operands could not be broadcast together")
       end.

(** *** Sign bits *)

(** The sign bit of the double that stands for [v]: the sign of [v], and
    [negzero] when [v] is zero. *)
Definition signbit (v : R) (negzero : bool) : bool :=
  if Rlt_dec v 0 then true else if Rlt_dec 0 v then false else negzero.

(** The sign bits of an array with the flags of its zeros. *)
Fixpoint signbits (a : list R) (negzero : list bool) : list bool :=
  match a with
  | [] => []
  | v :: a' => signbit v (hd false negzero) :: signbits a' (tl negzero)
  end.

(** [np.cos(theta)] and [np.sin(theta)]: the sign of the real cosine and
    sine; [np.sin(-0.0)] is [-0.0], a zero sine has the sign of the angle
    (the cosine of a double is not zero). *)
Definition cos_signbits (theta : list R) : list bool :=
  map (fun t => signbit (cos t) false) theta.

Definition sin_signbits (theta : list R) (negzero : list bool) : list bool :=
  map2 (fun t s => signbit (sin t) s) theta (signbits theta negzero).

(** The sign bit of a product is the exclusive or of the sign bits, also
    when the product is a zero. *)
Definition product_signbits (a b : list bool) : list bool :=
  match broadcast xorb a b with
  | Ok s => s
  | Raise _ => []
  end.

(** The sign bits of [x = rad_arr * np.cos(theta_arr)] and of
    [y = rad_arr * np.sin(theta_arr)]. *)
Definition x_signbits (self : Samples) : list bool :=
  product_signbits (signbits (rad_arr self) (rad_negzero self))
                   (cos_signbits (theta_arr self)).

Definition y_signbits (self : Samples) : list bool :=
  product_signbits (signbits (rad_arr self) (rad_negzero self))
                   (sin_signbits (theta_arr self) (theta_negzero self)).

(** The builtins [min] and [max] over an array. *)
Definition py_min (l : list R) : result pyexc R :=
  match l with
  | [] => Raise (ValueError "min() arg is an empty sequence")
  | a :: l' => Ok (fold_left (fun m v => if Rlt_dec v m then v else m) l' a)
  end.

Definition py_max (l : list R) : result pyexc R :=
  match l with
  | [] => Raise (ValueError "max() arg is an empty sequence")
  | a :: l' => Ok (fold_left (fun m v => if Rgt_dec v m then v else m) l' a)
  end.

(** The sign bit of the element that [max] returns, the first of the
    greatest: [max([-0.0, 0.0])] is [-0.0] and [max([0.0, -0.0])] is
    [0.0]. *)
Definition max_signbit (l : list R) (signs : list bool) : bool :=
  match combine l signs with
  | [] => false
  | p :: ps => snd (fold_left (fun m v => if Rgt_dec (fst v) (fst m) then v else m) ps p)
  end.

(** [np.linspace(start, stop, num)]: [arange(0, num) * step + start] with
    [step = (stop - start) / (num - 1)], the last sample set to [stop]. *)
Definition linspace (start stop : R) (num : Z) : result pyexc (list R) :=
  if (num <? 0)%Z
  then Raise (ValueError ("Number of samples, " ++ NilZero.string_of_int (Z.to_int num)
                          ++ ", must be non-negative.")%string)
  else
    let n := Z.to_nat num in
    let step := (stop - start) / INR (n - 1) in
    Ok (map (fun i => if ((1 <? n) && (i =? n - 1))%nat then stop
                      else INR i * step + start)
            (seq 0 n)).

(** The sign bits of the zeros among the samples of [np.linspace]: the last
    sample is [stop] itself when there are two or more, and has its sign
    bit.  Any other sample is [i * step + start] with [i * step >= 0]: when
    it is a zero it is [0.0], also for [start = -0.0]. *)
Definition linspace_signbits (stop_sign : bool) (num : Z) : list bool :=
  let n := Z.to_nat num in
  map (fun i => ((1 <? n) && (i =? n - 1))%nat && stop_sign) (seq 0 n).

(** [np.meshgrid(xs, ys)], indexing ['xy']: both grids have one row for
    each element of [ys] and one column for each element of [xs]. *)
Definition meshgrid {A} (xs ys : list A) : list (list A) * list (list A) :=
  (map (fun _ => xs) ys, map (fun v => map (fun _ => v) xs) ys).

(** [g.ravel()] and [flat.reshape((rows, cols))]. *)
Definition ravel (g : grid) : list R := concat g.

Fixpoint reshape (rows cols : nat) (flat : list R) : grid :=
  match rows with
  | O => []
  | S r => firstn cols flat :: reshape r cols (skipn cols flat)
  end.

Definition shape (g : grid) : nat * nat :=
  (length g, match g with [] => O | row :: _ => length row end).

(** A double as [np.arctan2] reads it: its real number and its sign bit,
    which is read only where the number is zero. *)
Definition double := (R * bool)%type.

(** [np.arctan2(y, x)], the angle of the point [(x, y)], with the cases of
    IEEE 754 for the zeros: [arctan2(+-0, x)] is [+-pi] for [x < 0] and for
    [x = -0.0], and [+-0] for [x > 0] and for [x = 0.0]. *)
Definition arctan2 (y x : double) : R :=
  let (yv, yneg) := y in
  let (xv, xneg) := x in
  if Rlt_dec 0 xv then atan (yv / xv)
  else if Rlt_dec xv 0 then
         if Rlt_dec 0 yv then atan (yv / xv) + PI
         else if Rlt_dec yv 0 then atan (yv / xv) - PI
         else if yneg then - PI else PI
  else if Rlt_dec 0 yv then PI / 2
  else if Rlt_dec yv 0 then - (PI / 2)
  else if xneg then (if yneg then - PI else PI)
  else 0.

(** [np.sqrt(x**2 + y**2)] *)
Definition radius (x y : R) : R := sqrt (x ^ 2 + y ^ 2).

Section WithScipy.

(** [scipy.interpolate.RBFInterpolator(pairings, d, kernel='cubic')]:
    raises, or gives the interpolant, which is then called on the rows of
    an array of points and gives one value for each. *)
Variable RBFInterpolator : list (R * R) -> list R -> result pyexc (R * R -> R).

Definition interp_grid (self : Samples) (polar_coords : bool) (ptnum : Z)
  : result (site * pyexc) (grid * grid * grid) :=
  x <- at_site At_cartesian
         (broadcast Rmult (rad_arr self) (map cos (theta_arr self))) ;;
  y <- at_site At_cartesian
         (broadcast Rmult (rad_arr self) (map sin (theta_arr self))) ;;
  let pairings := combine x y in
  rbf <- at_site At_rbf (RBFInterpolator pairings (thick_arr self)) ;;
  min_x <- at_site At_bounds (py_min x) ;;
  max_x <- at_site At_bounds (py_max x) ;;
  x_dense <- at_site At_linspace (linspace min_x max_x ptnum) ;;
  min_y <- at_site At_bounds (py_min y) ;;
  max_y <- at_site At_bounds (py_max y) ;;
  y_dense <- at_site At_linspace (linspace min_y max_y ptnum) ;;
  let (x_grid, y_grid) := meshgrid x_dense y_dense in
  let grid_pairs := combine (ravel x_grid) (ravel y_grid) in
  let z_interp_flat := map rbf grid_pairs in
  let z := reshape (fst (shape x_grid)) (snd (shape x_grid)) z_interp_flat in
  if polar_coords then
    let r_grid := map2 (map2 radius) x_grid y_grid in
    (* x_grid and y_grid as the doubles they hold *)
    let x_doubles :=
      combine x_dense (linspace_signbits (max_signbit x (x_signbits self)) ptnum) in
    let y_doubles :=
      combine y_dense (linspace_signbits (max_signbit y (y_signbits self)) ptnum) in
    let (xd_grid, yd_grid) := meshgrid x_doubles y_doubles in
    let theta_grid := map2 (map2 arctan2) yd_grid xd_grid in
    Ok (r_grid, theta_grid, z)
  else
    Ok (x_grid, y_grid, z).

End WithScipy.

(** [RBFInterpolator] on sets of three samples, the smallest that the cubic
    kernel with its degree-one polynomial accepts.  The kernel weights [a]
    satisfy [P^T a = 0] for the 3x3 matrix [P] with rows [(1, x_i, y_i)], so
    they vanish when the samples are not collinear, and the interpolant is
    the plane through the samples; collinear samples make the system
    singular.  Larger sets are not in the domain of this instance. *)
Definition rbf_three_samples (pts : list (R * R)) (d : list R)
  : result pyexc (R * R -> R) :=
  match pts, d with
  | [(x0, y0); (x1, y1); (x2, y2)], [d0; d1; d2] =>
      let det := (x1 - x0) * (y2 - y0) - (x2 - x0) * (y1 - y0) in
      if Req_EM_T det 0 then Raise LinAlgError
      else Ok (fun q =>
             d0 + ((d1 - d0) * (y2 - y0) - (d2 - d0) * (y1 - y0)) / det * (fst q - x0)
                + ((x1 - x0) * (d2 - d0) - (x2 - x0) * (d1 - d0)) / det * (snd q - y0))
  | _, _ => Raise (ValueError "three samples expected")
  end.

End Interp.


Unset Implicit Arguments.

(** ** Vocabulary of the statements *)

Module Spec.

Import Regex PyFloat Numpy Parser.
Local Open Scope string_scope.

(** [lbl] occurs in [text]. *)
Definition occurs (lbl text : string) : Prop :=
  exists pre post, text = pre ++ lbl ++ post.

Fixpoint occursb (lbl text : string) : bool :=
  match strip_prefix lbl text with
  | Some _ => true
  | None =>
      match text with
      | String _ text' => occursb lbl text'
      | EmptyString => false
      end
  end.

(** Entry [i] of a thickness series holds a reading / is missing. *)
Definition valid (a : list float) (i : nat) : Prop :=
  (i < List.length a)%nat /\ isnan (nth i a nan) = false.

Definition missing (a : list float) (i : nat) : Prop :=
  (i < List.length a)%nat /\ isnan (nth i a nan) = true.

(** [l] is the nearest valid index below [i]; [r] the nearest above. *)
Definition nearest_below (a : list float) (i l : nat) : Prop :=
  valid a l /\ (l < i)%nat /\ forall j, valid a j -> (j < i)%nat -> (j <= l)%nat.

Definition nearest_above (a : list float) (i r : nat) : Prop :=
  valid a r /\ (i < r)%nat /\ forall j, valid a j -> (i < j)%nat -> (r <= j)%nat.

(** The valid entries with their indices, from index [off] on: what
    [repair_missing] hands to [np.interp] as [xp] and [fp]. *)
Fixpoint points_from (off : nat) (a : list float) : list (nat * float) :=
  match a with
  | [] => []
  | v :: a' =>
      if isnan v then points_from (S off) a'
      else (off, v) :: points_from (S off) a'
  end.

(** A series in which the entries at the places of the NaN are [f] of their
    index. *)
Fixpoint fill_from (off : nat) (f : nat -> float) (a : list float) : list float :=
  match a with
  | [] => []
  | v :: a' => (if isnan v then f off else v) :: fill_from (S off) f a'
  end.

(** Order of the samples by abscissa. *)
Definition lt_fst (p q : nat * float) : Prop := (fst p < fst q)%nat.

(** [np.interp] gives the value of a sample, or [lerp] between two of
    them. *)
Inductive interp_value (pts : list (nat * float)) (x : nat) (v : float) : Prop :=
| value_of_sample p : In p pts -> v = snd p -> interp_value pts x v
| value_between l fl r fr :
    In (l, fl) pts -> In (r, fr) pts -> (l <= x < r)%nat ->
    v = lerp l fl r fr x -> interp_value pts x v.

(** [x] is the binary64 number of the integer [n]. *)
Definition exact_int (x : float) (n : Z) : Prop :=
  exists m e, x = S754_finite false m e /\ (-52 <= e <= 0)%Z /\ Zpos m = (n * 2 ^ (- e))%Z.

(** *** Thickness series and reports *)

Definition series_10_nan_20 : list float := [of_Z 10; nan; of_Z 20].
Definition series_10_nan_nan_40 : list float := [of_Z 10; nan; nan; of_Z 40].
Definition series_inf_nan_minf : list float :=
  [S754_infinity false; nan; S754_infinity true].

(** Samples without the statistics, and a report without its mean. *)
Definition text_without_labels : string := "R= 0.0, Theta= 0.0, Thick1= 100.5, ".
Definition text_without_mean : string :=
  "StdDev 1.5 R= 0.0, Theta= 0.0, Thick1= 100.5, ".


(** A report of three samples whose second reading has no solution, with
    the marker as the comments of [__init__] spell it, and the same report
    with the marker as [patt_thick] spells it. *)
Definition report_no_solution : string :=
  "StdDev 1.5 Mean 100.25 R= 0.0, Theta= 0.0, Thick1= 100.5, R= 1.0, Theta= 90.0, No Solution R= 1.0, Theta= 180.0, Thick1= 110.5, ".

Definition report_no_soution : string :=
  "StdDev 1.5 Mean 100.25 R= 0.0, Theta= 0.0, Thick1= 100.5, R= 1.0, Theta= 90.0, No Soution R= 1.0, Theta= 180.0, Thick1= 110.5, ".

(** A report in which the second sample has lost its angle and its
    thickness. *)
Definition report_truncated : string :=
  "StdDev 1.5 Mean 100.25 R= 0.0, Theta= 0.0, Thick1= 100.5, R= 1.0, ".

End Spec.

Module InterpSpec.

Import Interp.
Local Open Scope R_scope.

(** [g] has [rows] rows of [cols] entries. *)
Definition has_shape (g : grid) (rows cols : nat) : Prop :=
  length g = rows /\ Forall (fun row => length row = cols) g.

(** The values of [rbf] at the nodes of the mesh of [xs] and [ys]. *)
Definition mesh_values (rbf : R * R -> R) (xs ys : list R) : grid :=
  map (fun v => map (fun u => rbf (u, v)) xs) ys.

(** Node [k] of [num] evenly spaced samples from [start] to [stop]. *)
Definition node (start stop : R) (num : nat) (k : nat) : R :=
  start + INR k * ((stop - start) / INR (num - 1)).

(** [m] is the least / the greatest element of [l]. *)
Definition is_min (l : list R) (m : R) : Prop := In m l /\ forall v, In v l -> m <= v.
Definition is_max (l : list R) (m : R) : Prop := In m l /\ forall v, In v l -> v <= m.

(** What the statements of [interp_grid] compute before the mesh. *)
Record stages := {
  st_x : list R;            (* x *)
  st_y : list R;            (* y *)
  st_rbf : R * R -> R;      (* rbf *)
  st_min_x : R;  st_max_x : R;
  st_min_y : R;  st_max_y : R;
  st_xs : list R;           (* x_dense *)
  st_ys : list R            (* y_dense *)
}.

(** The statements of [interp_grid] before the mesh return the values of
    [s]. *)
Definition runs (RBFInterpolator : list (R * R) -> list R -> result pyexc (R * R -> R))
           (self : Samples) (ptnum : Z) (s : stages) : Prop :=
  broadcast Rmult (rad_arr self) (map cos (theta_arr self)) = Ok (st_x s) /\
  broadcast Rmult (rad_arr self) (map sin (theta_arr self)) = Ok (st_y s) /\
  RBFInterpolator (combine (st_x s) (st_y s)) (thick_arr self) = Ok (st_rbf s) /\
  py_min (st_x s) = Ok (st_min_x s) /\ py_max (st_x s) = Ok (st_max_x s) /\
  linspace (st_min_x s) (st_max_x s) ptnum = Ok (st_xs s) /\
  py_min (st_y s) = Ok (st_min_y s) /\ py_max (st_y s) = Ok (st_max_y s) /\
  linspace (st_min_y s) (st_max_y s) ptnum = Ok (st_ys s).

Definition x_grid (s : stages) : grid := fst (meshgrid (st_xs s) (st_ys s)).
Definition y_grid (s : stages) : grid := snd (meshgrid (st_xs s) (st_ys s)).
Definition z_grid (s : stages) : grid := mesh_values (st_rbf s) (st_xs s) (st_ys s).

(** The sign bits of the columns and of the rows of the mesh: only the last
    column and the last row of a mesh of two or more can hold a negative
    zero, when [max] returned one. *)
Definition x_node_signbit (self : Samples) (ptnum : Z) (s : stages) (j : nat) : bool :=
  ((1 <? Z.to_nat ptnum) && (j =? Z.to_nat ptnum - 1))%nat
  && max_signbit (st_x s) (x_signbits self).

Definition y_node_signbit (self : Samples) (ptnum : Z) (s : stages) (i : nat) : bool :=
  ((1 <? Z.to_nat ptnum) && (i =? Z.to_nat ptnum - 1))%nat
  && max_signbit (st_y s) (y_signbits self).

(** The samples of the two axes as doubles, and the angles of the nodes. *)
Definition x_doubles (self : Samples) (ptnum : Z) (s : stages) : list double :=
  combine (st_xs s) (linspace_signbits (max_signbit (st_x s) (x_signbits self)) ptnum).

Definition y_doubles (self : Samples) (ptnum : Z) (s : stages) : list double :=
  combine (st_ys s) (linspace_signbits (max_signbit (st_y s) (y_signbits self)) ptnum).

Definition theta_grid (self : Samples) (ptnum : Z) (s : stages) : grid :=
  map2 (map2 arctan2)
       (snd (meshgrid (x_doubles self ptnum s) (y_doubles self ptnum s)))
       (fst (meshgrid (x_doubles self ptnum s) (y_doubles self ptnum s))).

(** What [interp_grid] returns after these statements. *)
Definition output (self : Samples) (ptnum : Z) (polar_coords : bool) (s : stages)
  : grid * grid * grid :=
  if polar_coords
  then (map2 (map2 radius) (x_grid s) (y_grid s), theta_grid self ptnum s, z_grid s)
  else (x_grid s, y_grid s, z_grid s).

(** Samples at the polar points (0, 0), (1, 0) and (1, pi/2): the Cartesian
    points (0, 0), (1, 0) and (0, 1). *)
Definition three_samples : Samples :=
  {| rad_arr := [0; 1; 1]; theta_arr := [0; 0; PI / 2]; thick_arr := [10; 20; 30];
     rad_negzero := []; theta_negzero := [] |}.


(** Samples at the polar points (-0.0, 0), (-1, 0) and (-1, pi/2): the
    Cartesian points (-0.0, -0.0), (-1, -0.0) and (-0.0, -1). *)
Definition samples_left_of_origin : Samples :=
  {| rad_arr := [0; -1; -1]; theta_arr := [0; 0; PI / 2]; thick_arr := [10; 20; 30];
     rad_negzero := [true]; theta_negzero := [] |}.

(** A map without any sample. *)
Definition no_samples : Samples :=
  {| rad_arr := []; theta_arr := []; thick_arr := [];
     rad_negzero := []; theta_negzero := [] |}.

End InterpSpec.

(** ** Vocabulary of the statements on the text of a report *)

Module Layout.

Import Regex PyFloat Numpy Parser Spec.
Local Open Scope string_scope.

(** Every character of [s] satisfies [P]. *)
Fixpoint all_chars (P : ascii -> bool) (s : string) : bool :=
  match s with
  | EmptyString => true
  | String a s' => P a && all_chars P s'
  end.

(** [s] begins with a character that satisfies [P]. *)
Definition starts_with (P : ascii -> bool) (s : string) : bool :=
  match s with
  | EmptyString => false
  | String a _ => P a
  end.

Definition not_space (a : ascii) : bool := negb (is_space a).

(** The text that follows the first occurrence of [lbl] in [text]. *)
Fixpoint after_first (lbl text : string) : option string :=
  match strip_prefix lbl text with
  | Some rest => Some rest
  | None =>
      match text with
      | String _ text' => after_first lbl text'
      | EmptyString => None
      end
  end.

(** The two shapes of the patterns of [__init__]. *)
Definition header (lbl : string) : regex :=
  (Lit lbl ++ Star Space ++ Group (StarLazy Dot) ++ One Space)%re.

Definition field (lbl : string) : regex :=
  (Lit lbl ++ Star Space ++ Group (StarLazy Dot) ++ Lit ",")%re.

Definition header_tail : regex :=
  (Star Space ++ Group (StarLazy Dot) ++ One Space)%re.

Definition field_tail : regex :=
  (Star Space ++ Group (StarLazy Dot) ++ Lit ",")%re.

(** A character that a field value may hold: anything that [.] matches but
    the comma that ends the field. *)
Definition is_comma (a : ascii) : bool := Ascii.eqb a ",".

Definition field_char (a : ascii) : bool := is_dot a && negb (is_comma a).

(** [lbl] and [s] differ at a place that both have: [lbl] is not a prefix of
    any text that begins with [s]. *)
Fixpoint clash (lbl s : string) : bool :=
  match lbl, s with
  | String a lbl', String b s' => if Ascii.eqb a b then clash lbl' s' else true
  | _, _ => false
  end.

(** [lbl] begins at no place of [s], whatever follows [s]. *)
Fixpoint clear_of (lbl s : string) : bool :=
  match s with
  | EmptyString => true
  | String _ s' => clash lbl s && clear_of lbl s'
  end.

(** The first letters of the labels and of the marker. *)
Definition label_initial (a : ascii) : bool :=
  Ascii.eqb a "R" || Ascii.eqb a "T" || Ascii.eqb a "N"
  || Ascii.eqb a "S" || Ascii.eqb a "M".

(** A printed value: no white space, no comma and no first letter of a
    label. *)
Definition token_char (a : ascii) : bool :=
  not_space a && negb (is_comma a) && negb (label_initial a).

Definition token (t : string) : bool := all_chars token_char t.

(** One measurement site of a report: the radius, the angle and the
    thickness as printed, [None] for the marker of a missing reading. *)
Record reading := {
  radius_text : string;
  angle_text : string;
  thickness_text : option string
}.

Definition reading_tokens (p : reading) : bool :=
  token (radius_text p) && token (angle_text p)
  && match thickness_text p with Some t => token t | None => true end.

Definition thickness_match (p : reading) : string :=
  match thickness_text p with Some t => t | None => "" end.

Definition render_reading (p : reading) : string :=
  "R= " ++ radius_text p ++ ", Theta= " ++ angle_text p ++ ", "
  ++ match thickness_text p with
     | Some t => "Thick1= " ++ t ++ ", "
     | None => "No Soution "
     end.

Fixpoint render_readings (ps : list reading) : string :=
  match ps with
  | [] => ""
  | p :: ps' => render_reading p ++ render_readings ps'
  end.

Definition render_report (sd mn : string) (ps : list reading) : string :=
  "StdDev " ++ sd ++ " Mean " ++ mn ++ " " ++ render_readings ps.

End Layout.

(** ** Facts on the error monad *)

Module ResultFacts.

Lemma at_site_ok {A} l (r : result pyexc A) a :
  at_site l r = Ok a -> r = Ok a.
Proof. destruct r; simpl; [congruence | discriminate]. Qed.

Lemma bind_ok {E A B} (r : result E A) (k : A -> result E B) b :
  bind r k = Ok b -> exists a, r = Ok a /\ k a = Ok b.
Proof. destruct r; simpl; [eauto | discriminate]. Qed.

(** Inversion of one statement [x <- at_site l c ;; k] that returned. *)
Ltac bind_inv H :=
  let a := fresh "v" in
  let Ha := fresh "Hv" in
  apply bind_ok in H; destruct H as (a & Ha & H); apply at_site_ok in Ha.

End ResultFacts.

(** ** Facts on the repair of the thickness series *)

Module RepairFacts.

Import PyFloat Numpy Parser Spec.

Lemma points_from_fst off a :
  map fst (points_from off a) = flatnonzero_from off (invert (isnan_mask a)).
Proof.
  revert off; induction a as [|v a IH]; intro off; simpl; [reflexivity|].
  destruct (isnan v); simpl; now rewrite IH.
Qed.

Lemma points_from_snd off a :
  map snd (points_from off a) = select a (invert (isnan_mask a)).
Proof.
  revert off; induction a as [|v a IH]; intro off; simpl; [reflexivity|].
  destruct (isnan v); simpl; now rewrite IH.
Qed.

Lemma combine_fst_snd {A B} (l : list (A * B)) :
  combine (map fst l) (map snd l) = l.
Proof.
  induction l as [|[u v] l IH]; simpl; [reflexivity | now rewrite IH].
Qed.

Lemma put_mask_fill a : forall off f,
  put_mask a (isnan_mask a) (map f (flatnonzero_from off (isnan_mask a)))
  = Ok (fill_from off f a).
Proof.
  induction a as [|v a IH]; intros off f; simpl; [reflexivity|].
  destruct (isnan v); simpl; now rewrite IH.
Qed.

Lemma fill_from_length a : forall off f,
  List.length (fill_from off f a) = List.length a.
Proof.
  induction a as [|v a IH]; intros; simpl; [reflexivity | now rewrite IH].
Qed.

Lemma fill_from_nth a : forall off f i,
  (i < List.length a)%nat ->
  nth i (fill_from off f a) nan
  = if isnan (nth i a nan) then f (off + i)%nat else nth i a nan.
Proof.
  induction a as [|v a IH]; intros off f i Hi; simpl in Hi; [lia|].
  destruct i as [|i]; simpl.
  - now rewrite Nat.add_0_r.
  - rewrite IH by lia. now rewrite Nat.add_succ_r.
Qed.

(** [repair_missing] in closed form. *)
Lemma repair_missing_eq a :
  repair_missing a =
  match points_from 0 a with
  | [] => Raise (ValueError "array of sample points is empty")
  | _ :: _ => Ok (fill_from 0 (interp1 (points_from 0 a)) a)
  end.
Proof.
  unfold repair_missing, interp, flatnonzero.
  rewrite <- (points_from_fst 0 a), <- (points_from_snd 0 a).
  rewrite combine_fst_snd.
  destruct (points_from 0 a) as [|p pts] eqn:E; simpl; [reflexivity|].
  rewrite !length_map, Nat.eqb_refl; simpl.
  apply put_mask_fill.
Qed.

(** *** The samples handed to [np.interp] *)

Lemma points_from_In a : forall off j v,
  In (j, v) (points_from off a) <->
  exists k, j = (off + k)%nat /\ (k < List.length a)%nat
            /\ nth k a nan = v /\ isnan v = false.
Proof.
  induction a as [|u a IH]; intros off j v; simpl.
  - split; [tauto | intros (k & _ & H & _); lia].
  - assert (Hstep : In (j, v) (points_from (S off) a) <->
              exists k, j = (off + S k)%nat /\ (k < List.length a)%nat
                        /\ nth k a nan = v /\ isnan v = false).
    { rewrite IH. split; intros (k & H1 & H2); exists k; split; (lia || assumption). }
    assert (Htail : (exists k, j = (off + S k)%nat /\ (k < List.length a)%nat
                        /\ nth k a nan = v /\ isnan v = false) ->
                    exists k, j = (off + k)%nat /\ (k < S (List.length a))%nat
                        /\ nth k (u :: a) nan = v /\ isnan v = false).
    { intros (k & H1 & H2 & H3 & H4). exists (S k). simpl.
      repeat split; (lia || assumption). }
    destruct (isnan u) eqn:Eu.
    + rewrite Hstep. split; [exact Htail|].
      intros ([|k] & H1 & H2 & H3 & H4); simpl in H3.
      * subst v. congruence.
      * exists k. repeat split; (lia || assumption).
    + simpl. rewrite Hstep. split.
      * intros [H | H]; [|exact (Htail H)].
        inversion H; subst. exists 0%nat. simpl.
        repeat split; (lia || assumption).
      * intros ([|k] & H1 & H2 & H3 & H4); simpl in H3.
        { left. f_equal; [lia | assumption]. }
        right. exists k. repeat split; (lia || assumption).
Qed.

Lemma points_In_valid a j v :
  In (j, v) (points_from 0 a) <-> valid a j /\ nth j a nan = v.
Proof.
  rewrite points_from_In. unfold valid. split.
  - intros (k & H1 & H2 & H3 & H4). simpl in H1. subst k v. tauto.
  - intros ((H1 & H2) & H3). exists j. subst v. simpl. tauto.
Qed.

Lemma points_from_sorted a : forall off,
  StronglySorted lt_fst (points_from off a).
Proof.
  induction a as [|u a IH]; intro off; simpl; [constructor|].
  destruct (isnan u); [apply IH|].
  constructor; [apply IH|].
  apply Forall_forall. intros [j v] Hin.
  apply points_from_In in Hin. destruct Hin as (k & H1 & _).
  unfold lt_fst; simpl. lia.
Qed.

(** *** [np.interp] between, before and after the samples *)

Lemma interp_scan_between x : forall pts xl fl l fl' r fr,
  StronglySorted lt_fst ((xl, fl) :: pts) ->
  In (l, fl') ((xl, fl) :: pts) -> In (r, fr) pts ->
  (l <= x < r)%nat ->
  (forall p, In p ((xl, fl) :: pts) -> ~ (l < fst p < r)%nat) ->
  interp_scan x xl fl pts = lerp l fl' r fr x.
Proof.
  induction pts as [|[x1 f1] rest IH]; intros xl fl l fl' r fr Hs Hl Hr Hx Hno.
  - destruct Hr.
  - apply StronglySorted_inv in Hs. destruct Hs as [Hs Hall].
    pose proof Hs as Hs'.
    apply StronglySorted_inv in Hs'. destruct Hs' as [_ Hall1].
    rewrite Forall_forall in Hall, Hall1.
    assert (H01 : (xl < x1)%nat) by (apply (Hall (x1, f1)); now left).
    simpl. destruct (Nat.ltb_spec x x1) as [Hlt | Hge].
    + assert (l = xl /\ fl' = fl) as [-> ->].
      { destruct Hl as [E | Hin]; [inversion E; auto|].
        exfalso. destruct Hin as [E | Hin].
        - inversion E; subst; lia.
        - apply Hall1 in Hin. unfold lt_fst in Hin; simpl in Hin. lia. }
      assert (r = x1 /\ fr = f1) as [-> ->].
      { destruct Hr as [E | Hin]; [inversion E; auto|].
        exfalso. apply Hall1 in Hin. unfold lt_fst in Hin; simpl in Hin.
        apply (Hno (x1, f1)); [right; now left | simpl; lia]. }
      reflexivity.
    + apply IH; try assumption.
      * destruct Hl as [E | Hin]; [|assumption].
        exfalso. inversion E; subst.
        apply (Hno (x1, f1)); [right; now left | simpl; lia].
      * destruct Hr as [E | Hin]; [|assumption].
        exfalso. inversion E; subst. lia.
      * intros p Hp. apply Hno. now right.
Qed.

Lemma interp1_between pts x l fl r fr :
  StronglySorted lt_fst pts ->
  In (l, fl) pts -> In (r, fr) pts ->
  (l <= x < r)%nat ->
  (forall p, In p pts -> ~ (l < fst p < r)%nat) ->
  interp1 pts x = lerp l fl r fr x.
Proof.
  intros Hs Hl Hr Hx Hno.
  destruct pts as [|[x0 f0] rest]; [destruct Hl|].
  pose proof Hs as Hs'.
  apply StronglySorted_inv in Hs'. destruct Hs' as [_ Hall].
  rewrite Forall_forall in Hall.
  simpl. destruct (Nat.ltb_spec x x0) as [Hlt | Hge].
  - exfalso. destruct Hl as [E | Hin].
    + inversion E; subst; lia.
    + apply Hall in Hin. unfold lt_fst in Hin; simpl in Hin. lia.
  - apply interp_scan_between; try assumption.
    destruct Hr as [E | Hin]; [|assumption].
    exfalso. inversion E; subst; lia.
Qed.

Lemma last_cons {A} : forall (l : list A) (p d : A), last (p :: l) d = last l p.
Proof.
  induction l as [|q l IH]; intros p d; [reflexivity|].
  change (last (p :: q :: l) d) with (last (q :: l) d).
  now rewrite !IH.
Qed.

Lemma last_In {A} : forall (l : list A) (d : A), In (last l d) (d :: l).
Proof.
  induction l as [|q l IH]; intro d; [now left|].
  rewrite last_cons. right. apply IH.
Qed.

Lemma interp_scan_after x : forall pts xl fl,
  (forall p, In p pts -> (fst p <= x)%nat) ->
  interp_scan x xl fl pts = snd (last pts (xl, fl)).
Proof.
  induction pts as [|[x1 f1] rest IH]; intros xl fl Hall; [reflexivity|].
  assert (H1 : (x1 <= x)%nat) by (apply (Hall (x1, f1)); now left).
  cbn [interp_scan]. destruct (Nat.ltb_spec x x1); [lia|].
  rewrite IH by (intros p Hp; apply Hall; now right).
  now rewrite last_cons.
Qed.

Lemma sorted_last_max : forall pts p0 p,
  StronglySorted lt_fst (p0 :: pts) -> In p (p0 :: pts) ->
  (fst p <= fst (last pts p0))%nat.
Proof.
  induction pts as [|p1 rest IH]; intros p0 p Hs Hin.
  - destruct Hin as [-> | []]. simpl. lia.
  - apply StronglySorted_inv in Hs. destruct Hs as [Hs Hall].
    rewrite Forall_forall in Hall.
    rewrite last_cons.
    destruct Hin as [-> | Hin].
    + assert (H1 : lt_fst p (last rest p1)) by (apply Hall, last_In).
      unfold lt_fst in H1. lia.
    + apply IH; assumption.
Qed.

(** *** The repaired series *)

Lemma valid_in_points a j : valid a j -> In (j, nth j a nan) (points_from 0 a).
Proof. intro H. apply points_In_valid. now split. Qed.

Lemma points_valid a p : In p (points_from 0 a) -> valid a (fst p) /\ snd p = nth (fst p) a nan.
Proof.
  destruct p as [j v]. intro H. apply points_In_valid in H.
  simpl. destruct H as [H1 H2]. now split.
Qed.

Lemma missing_not_valid a i : missing a i -> valid a i -> False.
Proof. intros [_ H1] [_ H2]. congruence. Qed.

Lemma repair_missing_ok a :
  (exists j, valid a j) ->
  repair_missing a = Ok (fill_from 0 (interp1 (points_from 0 a)) a).
Proof.
  intros [j Hj]. rewrite repair_missing_eq.
  apply valid_in_points in Hj.
  destruct (points_from 0 a); [destruct Hj | reflexivity].
Qed.

Lemma repair_missing_none a :
  (forall j, ~ valid a j) ->
  repair_missing a = Raise (ValueError "array of sample points is empty").
Proof.
  intro H. rewrite repair_missing_eq.
  destruct (points_from 0 a) as [|p pts] eqn:E; [reflexivity|].
  exfalso. apply (H (fst p)).
  apply (points_valid a p). rewrite E. now left.
Qed.

Lemma repaired_between a i l r :
  missing a i -> nearest_below a i l -> nearest_above a i r ->
  interp1 (points_from 0 a) i = lerp l (nth l a nan) r (nth r a nan) i.
Proof.
  intros Hi (Hl & Hli & Hlmax) (Hr & Hir & Hrmin).
  apply interp1_between.
  - apply points_from_sorted.
  - now apply valid_in_points.
  - now apply valid_in_points.
  - lia.
  - intros p Hp [H1 H2]. apply points_valid in Hp. destruct Hp as [Hv _].
    destruct (Nat.lt_trichotomy (fst p) i) as [H | [H | H]].
    + specialize (Hlmax _ Hv H). lia.
    + rewrite H in Hv. exact (missing_not_valid _ _ Hi Hv).
    + specialize (Hrmin _ Hv H). lia.
Qed.

Lemma repaired_before a i r :
  missing a i -> (forall j, valid a j -> (i < j)%nat) -> nearest_above a i r ->
  interp1 (points_from 0 a) i = nth r a nan.
Proof.
  intros Hi Hnone (Hr & Hir & Hrmin).
  pose proof (points_from_sorted a 0) as Hs.
  pose proof (valid_in_points _ _ Hr) as Hin.
  destruct (points_from 0 a) as [|[x0 f0] rest] eqn:E; [destruct Hin|].
  assert (H0 : valid a x0 /\ f0 = nth x0 a nan).
  { apply (points_valid a (x0, f0)). rewrite E. now left. }
  destruct H0 as [Hv0 Hf0].
  pose proof (Hnone _ Hv0) as Hi0.
  simpl. destruct (Nat.ltb_spec i x0); [|lia].
  assert (x0 = r).
  { pose proof (Hrmin _ Hv0 Hi0).
    apply StronglySorted_inv in Hs. destruct Hs as [_ Hall].
    rewrite Forall_forall in Hall.
    destruct Hin as [Eq | Hin]; [now inversion Eq|].
    apply Hall in Hin. unfold lt_fst in Hin. simpl in Hin. lia. }
  now subst.
Qed.

Lemma repaired_after a i l :
  missing a i -> (forall j, valid a j -> (j < i)%nat) -> nearest_below a i l ->
  interp1 (points_from 0 a) i = nth l a nan.
Proof.
  intros Hi Hnone (Hl & Hli & Hlmax).
  pose proof (points_from_sorted a 0) as Hs.
  pose proof (valid_in_points _ _ Hl) as Hin.
  destruct (points_from 0 a) as [|[x0 f0] rest] eqn:E; [destruct Hin|].
  assert (Hpts : forall p, In p ((x0, f0) :: rest) ->
                           valid a (fst p) /\ snd p = nth (fst p) a nan).
  { intros p Hp. apply points_valid. now rewrite E. }
  assert (Hlt : forall p, In p ((x0, f0) :: rest) -> (fst p < i)%nat).
  { intros p Hp. apply Hnone. now apply Hpts. }
  simpl. destruct (Nat.ltb_spec i x0) as [H | H].
  { specialize (Hlt (x0, f0) (or_introl eq_refl)). simpl in Hlt. lia. }
  rewrite interp_scan_after.
  2:{ intros p Hp. specialize (Hlt p (or_intror Hp)). lia. }
  pose proof (last_In rest (x0, f0)) as Hlast.
  destruct (Hpts _ Hlast) as [Hv Hval].
  rewrite Hval. f_equal.
  pose proof (Hlmax _ Hv (Hlt _ Hlast)).
  pose proof (sorted_last_max _ _ _ Hs Hin) as Hmax. simpl in Hmax. lia.
Qed.

Lemma interp_scan_value x : forall pts xl fl,
  (xl <= x)%nat ->
  interp_value ((xl, fl) :: pts) x (interp_scan x xl fl pts).
Proof.
  induction pts as [|[x1 f1] rest IH]; intros xl fl Hx; simpl.
  - apply value_of_sample with (p := (xl, fl)); [now left | reflexivity].
  - destruct (Nat.ltb_spec x x1) as [Hlt | Hge].
    + apply value_between with (l := xl) (fl := fl) (r := x1) (fr := f1);
        [now left | right; now left | lia | reflexivity].
    + destruct (IH x1 f1 Hge) as [p Hp Hv | l fl' r fr Hl Hr Hlr Hv].
      * apply value_of_sample with (p := p); [now right | exact Hv].
      * apply value_between with (l := l) (fl := fl') (r := r) (fr := fr);
          [now right | now right | exact Hlr | exact Hv].
Qed.

Lemma interp1_value pts x :
  pts <> [] -> interp_value pts x (interp1 pts x).
Proof.
  destruct pts as [|[x0 f0] rest]; [congruence|]. intros _. simpl.
  destruct (Nat.ltb_spec x x0) as [Hlt | Hge].
  - apply value_of_sample with (p := (x0, f0)); [now left | reflexivity].
  - now apply interp_scan_value.
Qed.

End RepairFacts.

(** ** Facts on binary64 arithmetic *)

Module FloatFacts.

Import PyFloat Numpy Spec.
Local Open Scope Z_scope.

Lemma fexp_eq e : fexp prec emax e = Z.max (e - 53) (-1074).
Proof. reflexivity. Qed.

(** *** Number of binary digits *)

Lemma digits2_bounds p :
  2 ^ (Zpos (digits2_pos p) - 1) <= Zpos p < 2 ^ Zpos (digits2_pos p).
Proof.
  induction p as [p IH | p IH |]; simpl digits2_pos.
  - rewrite Pos2Z.inj_succ.
    replace (Z.succ (Zpos (digits2_pos p)) - 1) with (Z.succ (Zpos (digits2_pos p) - 1)) by lia.
    rewrite !Z.pow_succ_r by lia. lia.
  - rewrite Pos2Z.inj_succ.
    replace (Z.succ (Zpos (digits2_pos p)) - 1) with (Z.succ (Zpos (digits2_pos p) - 1)) by lia.
    rewrite !Z.pow_succ_r by lia. lia.
  - simpl. lia.
Qed.

Lemma digits2_le p k : Zpos p < 2 ^ k -> Zpos (digits2_pos p) <= k.
Proof.
  intro H. destruct (digits2_bounds p) as [Hlo _].
  destruct (Z.le_gt_cases (Zpos (digits2_pos p)) k) as [|Hgt]; [assumption|].
  exfalso.
  assert (2 ^ k <= 2 ^ (Zpos (digits2_pos p) - 1)).
  { destruct (Z.le_gt_cases 0 k).
    - apply Z.pow_le_mono_r; lia.
    - rewrite (Z.pow_neg_r 2 k) by lia. apply Z.pow_nonneg. lia. }
  lia.
Qed.

(** *** Shifting to the right *)

Lemma iter_pos_inv {A} (P : A -> Prop) (f : A -> A) :
  (forall x, P x -> P (f x)) -> forall n x, P x -> P (SpecFloat.iter_pos f n x).
Proof.
  intro Hf. induction n as [n IH | n IH |]; intros x Hx; simpl; auto.
Qed.

Lemma iter_pos_nat {A} (f : A -> A) : forall n x,
  SpecFloat.iter_pos f n x = Nat.iter (Pos.to_nat n) f x.
Proof.
  assert (Hadd : forall j k x, Nat.iter (j + k) f x = Nat.iter j f (Nat.iter k f x)).
  { induction j as [|j IH]; intros k x; simpl; [reflexivity | now rewrite IH]. }
  induction n as [n IH | n IH |]; intro x; cbn [SpecFloat.iter_pos].
  - rewrite !IH.
    replace (Pos.to_nat n~1) with (Pos.to_nat n + (Pos.to_nat n + 1))%nat by lia.
    now rewrite !Hadd.
  - rewrite !IH.
    replace (Pos.to_nat n~0) with (Pos.to_nat n + Pos.to_nat n)%nat by lia.
    now rewrite !Hadd.
  - reflexivity.
Qed.

Lemma shr_1_m mrs : 0 <= shr_m mrs -> shr_m (shr_1 mrs) = Z.div2 (shr_m mrs).
Proof.
  destruct mrs as [m r s]. simpl.
  destruct m as [|[p|p|]|p]; simpl; intro H; try reflexivity; lia.
Qed.

Lemma shr_iter_m k : forall mrs,
  0 <= shr_m mrs ->
  shr_m (Nat.iter k shr_1 mrs) = shr_m mrs / 2 ^ Z.of_nat k.
Proof.
  induction k as [|k IH]; intros mrs H.
  - simpl. now rewrite Z.div_1_r.
  - change (Nat.iter (S k) shr_1 mrs) with (shr_1 (Nat.iter k shr_1 mrs)).
    assert (H0 : 0 <= shr_m (Nat.iter k shr_1 mrs)).
    { rewrite IH by assumption. apply Z.div_pos; [assumption|].
      apply Z.pow_pos_nonneg; lia. }
    rewrite shr_1_m by assumption. rewrite IH by assumption.
    rewrite Z.div2_div, Z.div_div by (try apply Z.pow_pos_nonneg; lia).
    rewrite Nat2Z.inj_succ, Z.pow_succ_r by lia.
    f_equal. lia.
Qed.

Lemma shr_m_pos m r s e n :
  let res := shr {| shr_m := Zpos m; shr_r := r; shr_s := s |} e n in
  n < Zpos (digits2_pos m) ->
  snd res = Z.max e (e + n) /\
  exists m', shr_m (fst res) = Zpos m' /\
             Zpos (digits2_pos m') + snd res <= Zpos (digits2_pos m) + e.
Proof.
  intros res Hn. subst res.
  destruct (digits2_bounds m) as [Hlo Hhi].
  unfold shr. destruct n as [|p|p]; cbn [fst snd shr_m].
  - split; [lia|]. exists m. split; [reflexivity | lia].
  - split; [lia|].
    rewrite iter_pos_nat, shr_iter_m by (cbn [shr_m]; lia). cbn [shr_m].
    rewrite positive_nat_Z.
    assert (Hp : 0 < 2 ^ Zpos p) by (apply Z.pow_pos_nonneg; lia).
    assert (Hq : 2 ^ Zpos p <= Zpos m).
    { apply Z.le_trans with (2 ^ (Zpos (digits2_pos m) - 1)); [|assumption].
      apply Z.pow_le_mono_r; lia. }
    assert (Hdiv : 0 < Zpos m / 2 ^ Zpos p) by (apply Z.div_str_pos; lia).
    destruct (Zpos m / 2 ^ Zpos p) as [|m'|m'] eqn:E; try lia.
    exists m'. split; [reflexivity|].
    assert (Zpos (digits2_pos m') <= Zpos (digits2_pos m) - Zpos p).
    { apply digits2_le. rewrite <- E.
      apply Z.div_lt_upper_bound; [lia|].
      rewrite <- Z.pow_add_r by lia.
      replace (Zpos p + (Zpos (digits2_pos m) - Zpos p)) with (Zpos (digits2_pos m)) by lia.
      assumption. }
    lia.
  - split; [lia|]. exists m. split; [reflexivity | lia].
Qed.

Lemma shr_record_of_loc_m m l : shr_m (shr_record_of_loc m l) = m.
Proof. destruct l as [|[]]; reflexivity. Qed.

Lemma shr_fexp_pos m e l :
  let res := shr_fexp prec emax (Zpos m) e l in
  -1074 < Zpos (digits2_pos m) + e ->
  snd res = Z.max e (fexp prec emax (Zpos (digits2_pos m) + e)) /\
  exists m', shr_m (fst res) = Zpos m' /\
             Zpos (digits2_pos m') + snd res <= Zpos (digits2_pos m) + e.
Proof.
  intros res HD. subst res. unfold shr_fexp.
  cbn [Zdigits2]. set (D := Zpos (digits2_pos m) + e) in *.
  assert (Hn : fexp prec emax D - e < Zpos (digits2_pos m)).
  { rewrite fexp_eq. subst D. lia. }
  assert (Hrec : exists r s, shr_record_of_loc (Zpos m) l
                             = {| shr_m := Zpos m; shr_r := r; shr_s := s |}).
  { destruct l as [|[]]; simpl; eauto. }
  destruct Hrec as (r & s & ->).
  destruct (@shr_m_pos m r s e (fexp prec emax D - e) Hn) as (H1 & m' & H2 & H3).
  split.
  - rewrite H1. f_equal. lia.
  - exists m'. split; assumption.
Qed.

Lemma shr_nonneg mrs e n : 0 <= shr_m mrs -> 0 <= shr_m (fst (shr mrs e n)).
Proof.
  intro H. unfold shr. destruct n as [|p|p]; cbn [fst]; try assumption.
  apply (iter_pos_inv (fun x => 0 <= shr_m x)); [|assumption].
  intros x Hx. rewrite shr_1_m by assumption.
  rewrite Z.div2_nonneg. assumption.
Qed.

Lemma round_nearest_even_cases m l :
  round_nearest_even m l = m \/ round_nearest_even m l = m + 1.
Proof.
  unfold round_nearest_even. destruct l as [|[]]; auto.
  destruct (Z.even m); auto.
Qed.

(** Rounding never makes a NaN of a non-negative mantissa. *)
Lemma round_aux_not_nan sx mx ex lx :
  0 <= mx -> isnan (binary_round_aux prec emax sx mx ex lx) = false.
Proof.
  intro H. unfold binary_round_aux.
  destruct (shr_fexp prec emax mx ex lx) as [mrs1 e1] eqn:E1.
  assert (H1 : 0 <= shr_m mrs1).
  { change mrs1 with (fst (mrs1, e1)). rewrite <- E1. unfold shr_fexp.
    apply shr_nonneg. now rewrite shr_record_of_loc_m. }
  set (m2 := round_nearest_even (shr_m mrs1) (loc_of_shr_record mrs1)).
  assert (H2 : 0 <= m2).
  { subst m2. destruct (round_nearest_even_cases (shr_m mrs1) (loc_of_shr_record mrs1)) as [-> | ->]; lia. }
  destruct (shr_fexp prec emax m2 e1 loc_Exact) as [mrs3 e3] eqn:E3.
  assert (H3 : 0 <= shr_m mrs3).
  { change mrs3 with (fst (mrs3, e3)). rewrite <- E3. unfold shr_fexp.
    apply shr_nonneg. now rewrite shr_record_of_loc_m. }
  destruct (shr_m mrs3) as [|p|p]; [reflexivity | | lia].
  destruct (e3 <=? emax - prec); reflexivity.
Qed.

(** Rounding a positive mantissa whose magnitude is within the range of
    binary64 gives a finite, non-zero number. *)
Lemma round_aux_finite sx m e lx :
  -1074 < Zpos (digits2_pos m) + e <= 1023 -> e <= 971 ->
  exists m' e', binary_round_aux prec emax sx (Zpos m) e lx = S754_finite sx m' e'.
Proof.
  intros HD He. unfold binary_round_aux.
  destruct (@shr_fexp_pos m e lx) as (H1 & m1 & H2 & H3); [lia|].
  destruct (shr_fexp prec emax (Zpos m) e lx) as [mrs1 e1] eqn:E1.
  cbn [fst snd] in H1, H2, H3. rewrite fexp_eq in H1.
  set (m2 := round_nearest_even (shr_m mrs1) (loc_of_shr_record mrs1)).
  assert (Hm2 : exists p2, m2 = Zpos p2 /\ Zpos (digits2_pos p2) <= Zpos (digits2_pos m1) + 1).
  { subst m2. rewrite H2.
    destruct (round_nearest_even_cases (Zpos m1) (loc_of_shr_record mrs1)) as [-> | ->].
    - exists m1. split; [reflexivity | lia].
    - exists (m1 + 1)%positive. split; [reflexivity|].
      apply digits2_le. destruct (digits2_bounds m1) as [_ Hhi].
      rewrite Z.pow_add_r by lia. change (2 ^ 1) with 2. lia. }
  destruct Hm2 as (p2 & -> & Hd2).
  destruct (@shr_fexp_pos p2 e1 loc_Exact) as (H4 & m3 & H5 & H6); [lia|].
  destruct (shr_fexp prec emax (Zpos p2) e1 loc_Exact) as [mrs3 e3] eqn:E3.
  cbn [fst snd] in H4, H5, H6. rewrite fexp_eq in H4.
  rewrite H5.
  assert (He3 : e3 <= 971) by lia.
  change (emax - prec) with 971.
  destruct (Z.leb_spec e3 971); [|lia].
  eauto.
Qed.

(** *** Integers below [2^53] and their differences are exact *)

Lemma iter_xO_value m d : Zpos (Pos.iter xO m d) = Zpos m * 2 ^ Zpos d.
Proof.
  induction d as [|d IH] using Pos.peano_ind.
  - simpl. lia.
  - rewrite Pos.iter_succ, Pos2Z.inj_xO, IH, Pos2Z.inj_succ, Z.pow_succ_r by lia.
    lia.
Qed.

Lemma iter_xO_digits m d :
  Zpos (digits2_pos (Pos.iter xO m d)) = Zpos (digits2_pos m) + Zpos d.
Proof.
  induction d as [|d IH] using Pos.peano_ind.
  - simpl. lia.
  - rewrite Pos.iter_succ. cbn [digits2_pos].
    rewrite Pos2Z.inj_succ, IH. lia.
Qed.

Lemma shl_align_spec m e e' :
  snd (shl_align m e e') = Z.min e e' /\
  Zpos (fst (shl_align m e e')) = Zpos m * 2 ^ (e - Z.min e e') /\
  Zpos (digits2_pos (fst (shl_align m e e'))) + snd (shl_align m e e')
  = Zpos (digits2_pos m) + e.
Proof.
  unfold shl_align. destruct (e' - e) as [|d|d] eqn:E; cbn [fst snd].
  - replace (Z.min e e') with e by lia. rewrite Z.sub_diag. simpl. lia.
  - replace (Z.min e e') with e by lia. rewrite Z.sub_diag. simpl. lia.
  - replace (Z.min e e') with e' by lia.
    replace (e - e') with (Zpos d) by lia.
    rewrite iter_xO_value, iter_xO_digits. lia.
Qed.

Lemma round_aux_canonical sx m e :
  Zpos (digits2_pos m) = 53 -> -1074 <= e <= 971 ->
  binary_round_aux prec emax sx (Zpos m) e loc_Exact = S754_finite sx m e.
Proof.
  intros Hd He.
  assert (Hs : shr_fexp prec emax (Zpos m) e loc_Exact
               = ({| shr_m := Zpos m; shr_r := false; shr_s := false |}, e)).
  { unfold shr_fexp. cbn [Zdigits2]. rewrite Hd, fexp_eq.
    replace (Z.max (53 + e - 53) (-1074) - e) with 0 by lia. reflexivity. }
  unfold binary_round_aux. rewrite Hs.
  cbn [shr_m loc_of_shr_record round_nearest_even]. rewrite Hs. cbn [shr_m].
  change (emax - prec) with 971.
  destruct (Z.leb_spec e 971); [reflexivity | lia].
Qed.

Lemma of_Z_exact n : 0 < n < 2 ^ 53 -> exact_int (of_Z n) n.
Proof.
  intros [Hpos Hlt]. destruct n as [|p|p]; try lia.
  unfold of_Z, binary_normalize, binary_round.
  pose proof (digits2_le p 53 Hlt) as Hd.
  assert (Hd1 : 1 <= Zpos (digits2_pos p)) by lia.
  set (t := fexp prec emax (Zpos (digits2_pos p) + 0)).
  assert (Ht : t = Zpos (digits2_pos p) - 53) by (subst t; rewrite fexp_eq; lia).
  destruct (shl_align_spec p 0 t) as (H1 & H2 & H3).
  destruct (shl_align p 0 t) as [mz ez]. cbn [fst snd] in H1, H2, H3.
  assert (Hez : ez = Zpos (digits2_pos p) - 53) by lia.
  rewrite round_aux_canonical by lia.
  exists mz, ez. repeat split; try lia.
  rewrite H2. f_equal. f_equal. lia.
Qed.

Lemma fsub_exact_finite x y a b :
  exact_int x b -> exact_int y a -> 0 < a < b -> b < 2 ^ 53 ->
  exists s m e, fsub x y = S754_finite s m e.
Proof.
  intros (mb & eb & -> & Heb & Hmb) (ma & ea & -> & Hea & Hma) Hab Hb.
  unfold fsub, SFsub.
  set (ez := Z.min eb ea).
  destruct (shl_align_spec mb eb ez) as (_ & Hb2 & _).
  destruct (shl_align_spec ma ea ez) as (_ & Ha2 & _).
  replace (Z.min eb ez) with ez in Hb2 by (subst ez; lia).
  replace (Z.min ea ez) with ez in Ha2 by (subst ez; lia).
  cbn [cond_Zopp]. rewrite Hb2, Ha2, Hmb, Hma.
  assert (Hez : -52 <= ez <= 0) by (subst ez; lia).
  assert (Epb : 2 ^ (- eb) * 2 ^ (eb - ez) = 2 ^ (- ez)).
  { rewrite <- Z.pow_add_r by lia. f_equal. lia. }
  assert (Epa : 2 ^ (- ea) * 2 ^ (ea - ez) = 2 ^ (- ez)).
  { rewrite <- Z.pow_add_r by lia. f_equal. lia. }
  replace (b * 2 ^ (- eb) * 2 ^ (eb - ez) - a * 2 ^ (- ea) * 2 ^ (ea - ez))
    with ((b - a) * 2 ^ (- ez)) by (rewrite <- !Z.mul_assoc, Epb, Epa; ring).
  assert (Hp : 0 < 2 ^ (- ez)) by (apply Z.pow_pos_nonneg; lia).
  assert (Hq : 0 < (b - a) * 2 ^ (- ez)) by (apply Z.mul_pos_pos; lia).
  destruct ((b - a) * 2 ^ (- ez)) as [|q|q] eqn:Eq; try lia.
  unfold binary_normalize, binary_round.
  set (t := fexp prec emax (Zpos (digits2_pos q) + ez)).
  destruct (shl_align_spec q ez t) as (H1 & H2 & H3).
  destruct (shl_align q ez t) as [mz ez']. cbn [fst snd] in H1, H2, H3.
  assert (Hdq : Zpos (digits2_pos q) <= 53 - ez).
  { apply digits2_le. rewrite <- Eq.
    replace (53 - ez) with (53 + - ez) by lia. rewrite Z.pow_add_r by lia.
    apply Z.mul_lt_mono_pos_r; lia. }
  destruct (@round_aux_finite false mz ez' loc_Exact) as (m' & e' & ->); [lia | lia |].
  eauto.
Qed.

(** The difference of two indices, as [np.interp] computes it. *)
Lemma index_diff_finite a b :
  (a < b)%nat -> Z.of_nat b < 2 ^ 53 ->
  exists s m e, fsub (index_to_double b) (index_to_double a) = S754_finite s m e.
Proof.
  intros Hab Hb. unfold index_to_double.
  destruct (of_Z_exact (Z.of_nat b)) as (mb & eb & Eb & Hb1 & Hb2); [lia|].
  destruct a as [|a].
  - change (of_Z (Z.of_nat 0)) with (S754_zero false). rewrite Eb.
    simpl. eauto.
  - apply fsub_exact_finite with (a := Z.of_nat (S a)) (b := Z.of_nat b); try lia.
    + exists mb, eb. auto.
    + apply of_Z_exact. lia.
Qed.

(** *** Where the four operations cannot give NaN *)

Lemma binary_round_not_nan sx m e : isnan (binary_round prec emax sx m e) = false.
Proof.
  unfold binary_round. destruct (shl_align m e _) as [mz ez].
  apply round_aux_not_nan. lia.
Qed.

Lemma binary_normalize_not_nan m e sz :
  isnan (binary_normalize prec emax m e sz) = false.
Proof.
  destruct m; simpl; [reflexivity | apply binary_round_not_nan ..].
Qed.

Lemma fsub_finite_not_nan x y :
  is_finite x = true -> is_finite y = true -> isnan (fsub x y) = false.
Proof.
  destruct x as [sx|sx| |sx mx ex], y as [sy|sy| |sy my ey]; try discriminate; intros _ _.
  - destruct sx, sy; reflexivity.
  - reflexivity.
  - reflexivity.
  - apply binary_normalize_not_nan.
Qed.

Lemma fadd_finite_r_not_nan x y :
  isnan x = false -> is_finite y = true -> isnan (fadd x y) = false.
Proof.
  destruct x as [sx|sx| |sx mx ex], y as [sy|sy| |sy my ey]; try discriminate; intros _ _.
  - destruct sx, sy; reflexivity.
  - reflexivity.
  - reflexivity.
  - reflexivity.
  - reflexivity.
  - apply binary_normalize_not_nan.
Qed.

Lemma fmul_finite_r_not_nan x s m e :
  isnan x = false -> isnan (fmul x (S754_finite s m e)) = false.
Proof.
  destruct x as [sx|sx| |sx mx ex]; try discriminate; intros _; try reflexivity.
  apply round_aux_not_nan. lia.
Qed.

Lemma fdiv_finite_r_not_nan x s m e :
  isnan x = false -> isnan (fdiv x (S754_finite s m e)) = false.
Proof.
  destruct x as [sx|sx| |sx mx ex]; try discriminate; intros _; try reflexivity.
  unfold fdiv, SFdiv.
  destruct (SFdiv_core_binary prec emax (Zpos mx) ex (Zpos m) e) as [[q e'] l] eqn:E.
  apply round_aux_not_nan.
  unfold SFdiv_core_binary in E.
  set (sh := ex - e - _) in E. set (m' := match sh with Zpos _ => _ | Z0 => _ | Zneg _ => _ end) in E.
  assert (Hm' : 0 <= m').
  { subst m'. destruct sh; try lia. apply Z.shiftl_nonneg. lia. }
  pose proof (Z_div_mod m' (Zpos m) ltac:(lia)) as Hdm.
  destruct (Z.div_eucl m' (Zpos m)) as [q0 r0].
  inversion E; subst.
  destruct Hdm as [Hm Hr]. nia.
Qed.

(** The interpolated value between two finite samples at distinct indices
    below [2^53] is not NaN. *)
Lemma lerp_not_nan l fl r fr x :
  is_finite fl = true -> is_finite fr = true ->
  (l < x < r)%nat -> Z.of_nat r < 2 ^ 53 ->
  isnan (lerp l fl r fr x) = false.
Proof.
  intros Hfl Hfr Hx Hr.
  assert (Hnl : isnan fl = false) by (destruct fl; (discriminate || reflexivity)).
  unfold lerp.
  destruct (feqb (index_to_double l) (index_to_double x)); [assumption|].
  destruct (index_diff_finite l r) as (s1 & m1 & e1 & E1); [lia | lia |].
  destruct (index_diff_finite l x) as (s2 & m2 & e2 & E2); [lia | lia |].
  rewrite E1, E2.
  assert (H : isnan (fadd (fmul (fdiv (fsub fr fl) (S754_finite s1 m1 e1))
                               (S754_finite s2 m2 e2)) fl) = false).
  { apply fadd_finite_r_not_nan; [|assumption].
    apply fmul_finite_r_not_nan, fdiv_finite_r_not_nan.
    now apply fsub_finite_not_nan. }
  now rewrite H.
Qed.

End FloatFacts.

(** ** Facts on the patterns and on [parse] *)

Module ParserFacts.

Import Regex PyFloat Numpy Parser Spec ResultFacts RepairFacts.
Local Open Scope string_scope.

Lemma strip_prefix_app p : forall s rest,
  strip_prefix p s = Some rest -> s = p ++ rest.
Proof.
  induction p as [|a p IH]; intros s rest H; simpl in H.
  - now inversion H.
  - destruct s as [|b s]; [discriminate|].
    destruct (Ascii.eqb_spec a b) as [-> | _]; [|discriminate].
    simpl. f_equal. now apply IH.
Qed.

Lemma strip_prefix_of_app p : forall rest, strip_prefix p (p ++ rest) = Some rest.
Proof.
  induction p as [|a p IH]; intro rest; simpl; [reflexivity|].
  now rewrite Ascii.eqb_refl.
Qed.

Lemma occursb_spec lbl text : occursb lbl text = true <-> occurs lbl text.
Proof.
  unfold occurs. induction text as [|c text IH].
  - simpl. destruct (strip_prefix lbl "") as [rest|] eqn:E.
    + split; [intros _ | reflexivity].
      exists "", rest. exact (strip_prefix_app _ _ _ E).
    + split; [discriminate|]. intros (pre & post & H).
      destruct pre; simpl in H; [|discriminate].
      rewrite H, strip_prefix_of_app in E. discriminate.
  - simpl. destruct (strip_prefix lbl (String c text)) as [rest|] eqn:E.
    + split; [intros _ | reflexivity].
      exists "", rest. exact (strip_prefix_app _ _ _ E).
    + rewrite IH. split.
      * intros (pre & post & ->). now exists (String c pre), post.
      * intros (pre & post & H). destruct pre as [|c' pre]; simpl in H.
        { rewrite H, strip_prefix_of_app in E. discriminate. }
        inversion H; subst. now exists pre, post.
Qed.

(** A pattern that begins with a literal matches only where the literal
    is. *)
Lemma match_here_lit p r s m :
  match_here (Seq (Lit p) r) s = Some m -> exists rest, strip_prefix p s = Some rest.
Proof.
  unfold match_here. cbn [rmatch].
  destruct (strip_prefix p s) as [rest|]; [eauto | discriminate].
Qed.

Lemma search_lit_occurs p r : forall s m,
  search (Seq (Lit p) r) s = Some m -> occurs p s.
Proof.
  induction s as [|c s IH]; intros m H; cbn [search] in H.
  - destruct (match_here (Seq (Lit p) r) "") as [m'|] eqn:E; [|discriminate].
    apply match_here_lit in E. destruct E as [rest E].
    exists "", rest. exact (strip_prefix_app _ _ _ E).
  - destruct (match_here (Seq (Lit p) r) (String c s)) as [m'|] eqn:E.
    + apply match_here_lit in E. destruct E as [rest E].
      exists "", rest. exact (strip_prefix_app _ _ _ E).
    + destruct (IH _ H) as (pre & post & ->). now exists (String c pre), post.
Qed.

Lemma search_float_absent lbl r text :
  ~ occurs lbl text ->
  search_float (Seq (Lit lbl) r) text = Raise AttributeError.
Proof.
  intro H. unfold search_float.
  destruct (search (Seq (Lit lbl) r) text) as [[rest g]|] eqn:E; [|reflexivity].
  exfalso. apply H. eapply search_lit_occurs; eassumption.
Qed.

(** *** A match is never empty *)

Lemma length_append (s1 s2 : string) :
  String.length (s1 ++ s2) = (String.length s1 + String.length s2)%nat.
Proof. induction s1 as [|a s1 IH]; simpl; [reflexivity | now rewrite IH]. Qed.

(** The matcher hands to its continuation a suffix of its input. *)
Lemma rmatch_shrinks {A} (r : regex) : forall s g (k : string -> option string -> option A) res,
  rmatch r s g k = Some res ->
  exists s' g', k s' g' = Some res /\ (String.length s' <= String.length s)%nat.
Proof.
  induction r as [p | c | c | c | r IH | r1 IH1 r2 IH2 | r1 IH1 r2 IH2];
    intros s g k res H; cbn [rmatch] in H.
  - destruct (strip_prefix p s) as [rest|] eqn:E; [|discriminate].
    exists rest, g. split; [assumption|].
    apply strip_prefix_app in E. subst s. rewrite length_append. lia.
  - destruct s as [|a s]; [discriminate|].
    destruct (class_matches c a); [|discriminate].
    exists s, g. split; [assumption | simpl; lia].
  - revert H. induction s as [|a s IHs]; intro H; simpl in H.
    + exists "", g. split; [assumption | lia].
    + destruct (class_matches c a).
      * match type of H with
        | match ?t with _ => _ end = _ => destruct t as [res'|] eqn:E
        end.
        { inversion H; subst res'. destruct (IHs eq_refl) as (s' & g' & Hk & Hl).
          exists s', g'. split; [assumption | simpl; lia]. }
        exists (String a s), g. split; [assumption | lia].
      * exists (String a s), g. split; [assumption | lia].
  - revert H. induction s as [|a s IHs]; intro H; simpl in H.
    + destruct (k "" g) as [res'|] eqn:E; [|discriminate].
      exists "", g. split; [congruence | lia].
    + destruct (k (String a s) g) as [res'|] eqn:E.
      * exists (String a s), g. split; [congruence | lia].
      * destruct (class_matches c a); [|discriminate].
        destruct (IHs H) as (s' & g' & Hk & Hl).
        exists s', g'. split; [assumption | simpl; lia].
  - destruct (IH _ _ _ _ H) as (s' & g' & Hk & Hl). eauto.
  - destruct (IH1 _ _ _ _ H) as (s1 & g1 & Hk1 & Hl1).
    destruct (IH2 _ _ _ _ Hk1) as (s2 & g2 & Hk2 & Hl2).
    exists s2, g2. split; [assumption | lia].
  - destruct (rmatch r1 s g k) as [res'|] eqn:E.
    + inversion H; subst res'. exact (IH1 _ _ _ _ E).
    + exact (IH2 _ _ _ _ H).
Qed.

Lemma match_here_lit_consumes p r s rest g :
  match_here (Seq (Lit p) r) s = Some (rest, g) ->
  (String.length rest + String.length p <= String.length s)%nat.
Proof.
  unfold match_here. cbn [rmatch]. intro H.
  destruct (strip_prefix p s) as [rest0|] eqn:E; [|discriminate].
  apply strip_prefix_app in E. subst s. rewrite length_append.
  destruct (rmatch_shrinks _ _ _ _ _ H) as (s' & g' & Hk & Hl).
  inversion Hk; subst. lia.
Qed.

(** Every match of the five patterns consumes at least one character, so
    that [re.findall] resumes after the match and never at it. *)
Lemma patterns_consume patt s rest g :
  In patt [patt_stddev; patt_mean; patt_rad; patt_theta; patt_thick] ->
  match_here patt s = Some (rest, g) ->
  (String.length rest < String.length s)%nat.
Proof.
  intros Hin H.
  destruct Hin as [<- | [<- | [<- | [<- | [<- | []]]]]];
    try (apply match_here_lit_consumes in H; simpl in H; lia).
  unfold patt_thick, match_here in H. cbn [rmatch] in H.
  match type of H with
  | match ?t with _ => _ end = _ => destruct t as [res'|] eqn:E
  end.
  - inversion H; subst res'.
    change (match_here (Seq (Lit "Thick1=") (Seq (Star Space)
              (Seq (Group (StarLazy Dot)) (Lit ",")))) s = Some (rest, g)) in E.
    apply match_here_lit_consumes in E. simpl in E. lia.
  - destruct (strip_prefix "No Soution" s) as [rest0|] eqn:E0; [|discriminate].
    inversion H; subst. apply strip_prefix_app in E0. subst s.
    rewrite length_append. simpl. lia.
Qed.

(** *** The patterns and the conversions on small inputs *)

Example findall_thick_example :
  findall patt_thick "Thick1= 10.5, x No Soution Thick1=  3,No Solution Thick1=4"
  = ["10.5"; ""; "3"].
Proof. vm_compute. reflexivity. Qed.

(** Without white space after the number, [\s*] gives back the blank and
    group 1 is empty. *)
Example search_mean_at_end :
  search patt_mean "Mean 5" = Some ("5", Some "") /\
  search_float patt_mean "Mean 5" = Raise (ValueError "").
Proof. split; vm_compute; reflexivity. Qed.

Example py_float_examples :
  py_float "0.1" = Ok (S754_finite false 7205759403792794 (-56)) /\
  py_float " 1e22 " = Ok (S754_finite false 4768371582031250 21) /\
  py_float "-inf" = Ok (S754_infinity true) /\
  py_float "NaN" = Ok nan /\
  py_float "na" = Raise (ValueError "na").
Proof. repeat split; vm_compute; reflexivity. Qed.

(** 90 degrees are the double nearest to pi/2. *)
Example radians_90 :
  radians (of_Z 90) = S754_finite false 7074237752028440 (-52).
Proof. vm_compute. reflexivity. Qed.

(** *** Lengths of the series *)

Lemma mapM_length {E A B} (f : A -> result E B) : forall l l',
  mapM f l = Ok l' -> List.length l' = List.length l.
Proof.
  induction l as [|a l IH]; intros l' H; simpl in H.
  - now inversion H.
  - destruct (f a); [|discriminate]. simpl in H.
    destruct (mapM f l) as [bs|]; [|discriminate]. simpl in H.
    inversion H; subst. simpl. f_equal. now apply IH.
Qed.

Lemma astype_float_length a l :
  astype_float a = Ok l -> List.length l = List.length (items a).
Proof. apply mapM_length. Qed.

Lemma repair_missing_length a b :
  repair_missing a = Ok b -> List.length b = List.length a.
Proof.
  rewrite repair_missing_eq. destruct (points_from 0 a); [discriminate|].
  intro H. inversion H. apply fill_from_length.
Qed.

Lemma parse_lengths text m :
  parse text = Ok m ->
  List.length (rad_arr m) = List.length (findall patt_rad text) /\
  List.length (theta_arr m) = List.length (findall patt_theta text) /\
  List.length (thick_arr m) = List.length (findall patt_thick text).
Proof.
  unfold parse. intro H.
  do 6 bind_inv H. inversion H; subst; clear H. cbn [rad_arr theta_arr thick_arr].
  apply astype_float_length in Hv1, Hv2, Hv3.
  apply repair_missing_length in Hv4.
  cbn [items array assign_nan_where_empty] in Hv1, Hv2, Hv3.
  rewrite !length_map in *.
  repeat split; congruence.
Qed.

End ParserFacts.

(** ** Facts on the matcher, on [re.search] and on [re.findall] *)

Module RegexFacts.

Import Regex PyFloat Numpy Parser Spec Layout ResultFacts ParserFacts.
Local Open Scope string_scope.

Lemma all_chars_app P s1 s2 :
  all_chars P (s1 ++ s2) = all_chars P s1 && all_chars P s2.
Proof.
  induction s1 as [|a s1 IH]; simpl; [reflexivity|].
  now rewrite IH, andb_assoc.
Qed.

Lemma all_chars_impl (P Q : ascii -> bool) s :
  (forall a, P a = true -> Q a = true) ->
  all_chars P s = true -> all_chars Q s = true.
Proof.
  intro HPQ. induction s as [|a s IH]; simpl; [reflexivity|].
  intro H. apply andb_prop in H. destruct H as [Ha Hs].
  now rewrite (HPQ _ Ha), IH.
Qed.

Lemma not_space_is_dot a : is_space a = false -> is_dot a = true.
Proof.
  unfold is_space, is_dot. intro H.
  destruct (Nat.eqb_spec (nat_of_ascii a) 10) as [E|]; [|reflexivity].
  rewrite E in H. discriminate.
Qed.

(** *** The equations of the matcher *)

Lemma rmatch_seq {A} r1 r2 s g (k : string -> option string -> option A) :
  rmatch (Seq r1 r2) s g k = rmatch r1 s g (fun rest g' => rmatch r2 rest g' k).
Proof. reflexivity. Qed.

Lemma rmatch_group {A} r s g (k : string -> option string -> option A) :
  rmatch (Group r) s g k = rmatch r s g (fun rest _ => k rest (Some (consumed s rest))).
Proof. reflexivity. Qed.

Lemma rmatch_star_cons {A} c a s g (k : string -> option string -> option A) :
  rmatch (Star c) (String a s) g k =
  if class_matches c a
  then match rmatch (Star c) s g k with
       | Some res => Some res
       | None => k (String a s) g
       end
  else k (String a s) g.
Proof. reflexivity. Qed.

Lemma rmatch_lazy_eq {A} c s g (k : string -> option string -> option A) :
  rmatch (StarLazy c) s g k =
  match k s g with
  | Some res => Some res
  | None =>
      match s with
      | String a s' => if class_matches c a then rmatch (StarLazy c) s' g k else None
      | EmptyString => None
      end
  end.
Proof. destruct s; reflexivity. Qed.

Lemma match_here_seq_lit p r s :
  match_here (Seq (Lit p) r) s =
  match strip_prefix p s with
  | Some rest => match_here r rest
  | None => None
  end.
Proof. reflexivity. Qed.

Lemma match_here_alt r1 r2 s :
  match_here (Alt r1 r2) s =
  match match_here r1 s with
  | Some m => Some m
  | None => match_here r2 s
  end.
Proof. reflexivity. Qed.

(** *** Greedy and lazy repetition *)

(** [c*] stops where the class stops. *)
Lemma star_stop {A} c s g (k : string -> option string -> option A) :
  starts_with (class_matches c) s = false ->
  rmatch (Star c) s g k = k s g.
Proof.
  destruct s as [|a s]; [reflexivity|]. simpl starts_with. intro H.
  now rewrite rmatch_star_cons, H.
Qed.

(** A match found after a run of the class is the match of [c*] from the
    start of the run: the longest repetition is tried first. *)
Lemma star_run_some {A} c ws : forall s g (k : string -> option string -> option A) res,
  all_chars (class_matches c) ws = true ->
  rmatch (Star c) s g k = Some res ->
  rmatch (Star c) (ws ++ s) g k = Some res.
Proof.
  induction ws as [|a ws IH]; intros s g k res Hws H; [assumption|].
  simpl in Hws. apply andb_prop in Hws. destruct Hws as [Ha Hws].
  cbn [append]. now rewrite rmatch_star_cons, Ha, (IH _ _ _ _ Hws H).
Qed.

(** [c*?] steps over the characters at which its continuation fails. *)
Lemma lazy_skip {A} c (stop : ascii -> bool) tok :
  forall rest g (k : string -> option string -> option A),
  (forall a s g', stop a = false -> k (String a s) g' = None) ->
  all_chars (fun a => class_matches c a && negb (stop a)) tok = true ->
  rmatch (StarLazy c) (tok ++ rest) g k = rmatch (StarLazy c) rest g k.
Proof.
  induction tok as [|a tok IH]; intros rest g k Hk Htok; [reflexivity|].
  simpl in Htok. apply andb_prop in Htok. destruct Htok as [Ha Htok].
  apply andb_prop in Ha. destruct Ha as [Hc Hs].
  apply negb_true_iff in Hs.
  cbn [append]. rewrite rmatch_lazy_eq, (Hk _ _ _ Hs), Hc.
  now apply IH.
Qed.

(** [c*?] fails when its continuation needs a character that the rest of
    the text does not hold. *)
Lemma lazy_fail {A} c (stop : ascii -> bool) s :
  forall g (k : string -> option string -> option A),
  (forall s' g', starts_with stop s' = false -> k s' g' = None) ->
  all_chars (fun a => negb (stop a)) s = true ->
  rmatch (StarLazy c) s g k = None.
Proof.
  induction s as [|a s IH]; intros g k Hk Hs; rewrite rmatch_lazy_eq.
  - now rewrite Hk.
  - simpl in Hs. apply andb_prop in Hs. destruct Hs as [Ha Hs].
    apply negb_true_iff in Ha.
    rewrite Hk by exact Ha.
    destruct (class_matches c a); [now apply IH | reflexivity].
Qed.

Lemma substring_0_app tok : forall rest,
  substring 0 (String.length tok) (tok ++ rest) = tok.
Proof.
  induction tok as [|a tok IH]; intro rest; simpl.
  - now destruct rest.
  - now rewrite IH.
Qed.

Lemma consumed_app tok rest : consumed (tok ++ rest) rest = tok.
Proof.
  unfold consumed. rewrite length_append.
  replace (String.length tok + String.length rest - String.length rest)%nat
    with (String.length tok) by lia.
  apply substring_0_app.
Qed.

Lemma consumed_nil s : consumed s s = "".
Proof. exact (consumed_app "" s). Qed.

Lemma all_chars_starts P s :
  all_chars (fun a => negb (P a)) s = true -> starts_with P s = false.
Proof.
  destruct s as [|a s]; [reflexivity|]. simpl. intro H.
  apply andb_prop in H. destruct H as [H _]. now apply negb_true_iff in H.
Qed.

(** *** The rest of a header pattern: [\s*(.*?)\s] *)

Lemma one_space_fails s g (k : string -> option string -> option (string * option string)) :
  starts_with is_space s = false -> rmatch (One Space) s g k = None.
Proof.
  destruct s as [|a s]; [reflexivity|]. simpl starts_with. intro H.
  cbn [rmatch class_matches]. now rewrite H.
Qed.

(** The token after the blanks, when white space follows it. *)
Lemma header_tail_token ws tok c post :
  all_chars is_space ws = true ->
  tok <> "" -> all_chars not_space tok = true ->
  is_space c = true ->
  match_here header_tail (ws ++ tok ++ String c post) = Some (post, Some tok).
Proof.
  intros Hws Hne Htok Hc. unfold match_here, header_tail.
  rewrite rmatch_seq. apply star_run_some; [exact Hws|].
  rewrite star_stop.
  2:{ destruct tok as [|a tok]; [congruence|]. simpl in Htok |- *.
      apply andb_prop in Htok. destruct Htok as [Ha _].
      now apply negb_true_iff in Ha. }
  rewrite rmatch_seq, rmatch_group.
  rewrite (lazy_skip Dot is_space).
  - rewrite rmatch_lazy_eq. cbn [rmatch class_matches]. rewrite Hc.
    now rewrite consumed_app.
  - intros a s g' Ha. now apply one_space_fails.
  - apply all_chars_impl with (2 := Htok). intros a Ha.
    unfold not_space in Ha. apply negb_true_iff in Ha.
    cbn [class_matches]. now rewrite (not_space_is_dot _ Ha), Ha.
Qed.

(** No match without white space. *)
Lemma header_tail_no_space s :
  all_chars not_space s = true -> match_here header_tail s = None.
Proof.
  intro Hs. unfold match_here, header_tail.
  rewrite rmatch_seq, star_stop by (now apply all_chars_starts).
  rewrite rmatch_seq, rmatch_group.
  apply (lazy_fail Dot is_space); [|exact Hs].
  intros s' g' H. now apply one_space_fails.
Qed.

(** With blanks and then no white space, [\s*] gives back its last blank
    and the group is empty. *)
Lemma header_tail_trailing ws : forall tok,
  ws <> "" -> all_chars is_space ws = true -> all_chars not_space tok = true ->
  match_here header_tail (ws ++ tok) = Some (tok, Some "").
Proof.
  induction ws as [|a ws IH]; intros tok Hne Hws Htok; [congruence|].
  simpl in Hws. apply andb_prop in Hws. destruct Hws as [Ha Hws].
  unfold match_here, header_tail. cbn [append].
  rewrite rmatch_seq, rmatch_star_cons. cbn [class_matches]. rewrite Ha.
  destruct ws as [|b ws].
  - cbn [append].
    pose proof (header_tail_no_space tok Htok) as Hnone.
    unfold match_here, header_tail in Hnone. rewrite rmatch_seq in Hnone.
    rewrite Hnone.
    rewrite rmatch_seq, rmatch_group, rmatch_lazy_eq.
    cbn [rmatch class_matches]. rewrite Ha. now rewrite consumed_nil.
  - assert (Hb : String b ws <> "") by discriminate.
    specialize (IH tok Hb Hws Htok).
    unfold match_here, header_tail in IH. rewrite rmatch_seq in IH.
    now rewrite IH.
Qed.

(** *** [re.search] and the first occurrence of the label *)

Lemma search_after_first lbl r : forall text rest,
  after_first lbl text = Some rest ->
  forall m, match_here r rest = Some m ->
  search (Seq (Lit lbl) r) text = Some m.
Proof.
  induction text as [|a text IH]; intros rest H m Hm; cbn [after_first] in H;
    cbn [search]; rewrite match_here_seq_lit.
  - destruct (strip_prefix lbl "") as [rest'|]; [|discriminate].
    inversion H; subst. now rewrite Hm.
  - destruct (strip_prefix lbl (String a text)) as [rest'|].
    + inversion H; subst. now rewrite Hm.
    + now apply (IH rest).
Qed.

Lemma search_header_no_space lbl : forall s,
  all_chars not_space s = true -> search (header lbl) s = None.
Proof.
  assert (Hhere : forall s, all_chars not_space s = true ->
                            match_here (header lbl) s = None).
  { intros s Hs. unfold header. rewrite match_here_seq_lit.
    destruct (strip_prefix lbl s) as [rest|] eqn:E; [|reflexivity].
    apply strip_prefix_app in E. subst s.
    rewrite all_chars_app in Hs. apply andb_prop in Hs.
    now apply header_tail_no_space. }
  induction s as [|a s IH]; intro Hs; cbn [search]; rewrite (Hhere _ Hs).
  - reflexivity.
  - simpl in Hs. apply andb_prop in Hs. now apply IH.
Qed.

Lemma search_header_dangling lbl : forall text rest,
  all_chars not_space lbl = true ->
  after_first lbl text = Some rest ->
  all_chars not_space rest = true ->
  search (header lbl) text = None.
Proof.
  intros text rest Hlbl. induction text as [|a text IH]; intros H Hrest;
    cbn [after_first] in H.
  - destruct (strip_prefix lbl "") as [rest'|] eqn:E; [|discriminate].
    inversion H; subst. apply strip_prefix_app in E.
    apply search_header_no_space. rewrite E, all_chars_app, Hlbl, Hrest. reflexivity.
  - destruct (strip_prefix lbl (String a text)) as [rest'|] eqn:E.
    + inversion H; subst. apply strip_prefix_app in E.
      apply search_header_no_space. rewrite E, all_chars_app, Hlbl, Hrest. reflexivity.
    + cbn [search]. unfold header at 1. rewrite match_here_seq_lit, E.
      now apply IH.
Qed.


Lemma append_assoc (a b c : string) : (a ++ b) ++ c = a ++ b ++ c.
Proof. induction a as [|x a IH]; simpl; [reflexivity | now rewrite IH]. Qed.

(** *** The rest of a field pattern: [\s*(.*?),] *)

Lemma lit_comma_fails a s g (k : string -> option string -> option (string * option string)) :
  is_comma a = false -> rmatch (Lit ",") (String a s) g k = None.
Proof.
  unfold is_comma. intro H. cbn [rmatch strip_prefix].
  now rewrite Ascii.eqb_sym, H.
Qed.

Lemma field_tail_match ws tok post :
  all_chars is_space ws = true ->
  all_chars field_char tok = true -> starts_with is_space tok = false ->
  match_here field_tail (ws ++ tok ++ "," ++ post) = Some (post, Some tok).
Proof.
  intros Hws Htok Hstart. unfold match_here, field_tail.
  rewrite rmatch_seq. apply star_run_some; [exact Hws|].
  rewrite star_stop by (destruct tok; [reflexivity | exact Hstart]).
  rewrite rmatch_seq, rmatch_group.
  rewrite (lazy_skip Dot is_comma).
  - rewrite rmatch_lazy_eq. cbn [rmatch strip_prefix append].
    rewrite Ascii.eqb_refl. now rewrite consumed_app.
  - intros a s g' Ha. now apply lit_comma_fails.
  - exact Htok.
Qed.

(** *** [re.findall] *)

Lemma findall_from_skip r x : forall rest,
  findall_from r (x ++ rest) (String.length x) = findall_from r rest 0.
Proof. induction x as [|a x IH]; intro rest; [reflexivity | apply IH]. Qed.

(** After a match the scan resumes where the match ended. *)
Lemma findall_hit r s x rest g :
  match_here r s = Some (rest, g) -> s = x ++ rest -> x <> "" ->
  findall_from r s 0 = (group_text g :: findall_from r rest 0)%list.
Proof.
  intros H -> Hx. destruct x as [|a x]; [congruence|].
  cbn [append] in *. cbn [findall_from]. rewrite H. f_equal.
  cbn [String.length]. rewrite length_append.
  replace (S (String.length x + String.length rest) - String.length rest - 1)%nat
    with (String.length x) by lia.
  apply findall_from_skip.
Qed.

Lemma findall_miss r a s :
  match_here r (String a s) = None ->
  findall_from r (String a s) 0 = findall_from r s 0.
Proof. intro H. cbn [findall_from]. now rewrite H. Qed.

Lemma occurs_tail lbl a s : occurs lbl s -> occurs lbl (String a s).
Proof. intros (pre & post & ->). now exists (String a pre), post. Qed.

Lemma occurs_prefix lbl s rest : strip_prefix lbl s = Some rest -> occurs lbl s.
Proof. intro H. exists "", rest. exact (strip_prefix_app _ _ _ H). Qed.

Lemma occurs_app_r lbl pre s : occurs lbl s -> occurs lbl (pre ++ s).
Proof.
  intros (p & q & ->). exists (pre ++ p), q. now rewrite append_assoc.
Qed.

(** Nothing is found before the first occurrence of the label. *)
Lemma findall_before_first lbl r : forall text rest,
  after_first lbl text = Some rest ->
  findall (Seq (Lit lbl) r) text = findall (Seq (Lit lbl) r) (lbl ++ rest).
Proof.
  unfold findall.
  induction text as [|a text IH]; intros rest H; cbn [after_first] in H.
  - destruct (strip_prefix lbl "") as [rest'|] eqn:E; [|discriminate].
    inversion H; subst. now rewrite (strip_prefix_app _ _ _ E) at 1.
  - destruct (strip_prefix lbl (String a text)) as [rest'|] eqn:E.
    + inversion H; subst. now rewrite (strip_prefix_app _ _ _ E) at 1.
    + rewrite findall_miss by (now rewrite match_here_seq_lit, E).
      now apply IH.
Qed.

Lemma findall_absent lbl r : forall s skip,
  ~ occurs lbl s -> findall_from (Seq (Lit lbl) r) s skip = [].
Proof.
  induction s as [|a s IH]; intros skip H.
  - destruct skip; [|reflexivity]. cbn [findall_from].
    rewrite match_here_seq_lit.
    destruct (strip_prefix lbl "") as [rest|] eqn:E; [|reflexivity].
    exfalso. apply H. eapply occurs_prefix; eassumption.
  - assert (Hs : ~ occurs lbl s) by (intro Ho; apply H; now apply occurs_tail).
    destruct skip as [|n]; cbn [findall_from]; [|now apply IH].
    rewrite match_here_seq_lit.
    destruct (strip_prefix lbl (String a s)) as [rest|] eqn:E; [|now apply IH].
    exfalso. apply H. eapply occurs_prefix; eassumption.
Qed.

(** An alternative whose literal does not occur in the text adds no
    match. *)
Lemma findall_alt_absent r lbl : forall s skip,
  ~ occurs lbl s ->
  findall_from (Alt r (Lit lbl)) s skip = findall_from r s skip.
Proof.
  assert (Hhere : forall s, ~ occurs lbl s ->
                            match_here (Alt r (Lit lbl)) s = match_here r s).
  { intros s H. rewrite match_here_alt.
    destruct (match_here r s) as [m|]; [reflexivity|].
    unfold match_here. cbn [rmatch].
    destruct (strip_prefix lbl s) as [rest|] eqn:E; [|reflexivity].
    exfalso. apply H. eapply occurs_prefix; eassumption. }
  induction s as [|a s IH]; intros skip H.
  - destruct skip; [|reflexivity]. cbn [findall_from]. now rewrite Hhere.
  - assert (Hs : ~ occurs lbl s) by (intro Ho; apply H; now apply occurs_tail).
    destruct skip as [|n]; cbn [findall_from]; [|now apply IH].
    rewrite Hhere by exact H.
    destruct (match_here r (String a s)) as [[rest g]|]; [|now apply IH].
    f_equal. now apply IH.
Qed.

Lemma findall_field_first lbl text ws tok post :
  all_chars is_space ws = true ->
  all_chars field_char tok = true -> starts_with is_space tok = false ->
  after_first lbl text = Some (ws ++ tok ++ "," ++ post) ->
  findall (field lbl) text = (tok :: findall (field lbl) post)%list.
Proof.
  intros Hws Htok Hstart H. unfold field.
  rewrite (findall_before_first _ _ _ _ H). unfold findall.
  apply (findall_hit _ _ (lbl ++ ws ++ tok ++ ",") post (Some tok)).
  - rewrite match_here_seq_lit, strip_prefix_of_app.
    apply (field_tail_match ws tok post Hws Htok Hstart).
  - now rewrite !append_assoc.
  - destruct lbl; [|discriminate]. destruct ws; [|discriminate].
    destruct tok; discriminate.
Qed.

Lemma clash_strip lbl : forall s rest,
  clash lbl s = true -> strip_prefix lbl (s ++ rest) = None.
Proof.
  induction lbl as [|a lbl IH]; intros [|b s] rest H; simpl in H; try discriminate.
  cbn [append strip_prefix].
  destruct (Ascii.eqb a b); [now apply IH | reflexivity].
Qed.

Lemma clear_of_token lbl0 lbl tok :
  (forall a, token_char a = true -> Ascii.eqb lbl0 a = false) ->
  token tok = true -> clear_of (String lbl0 lbl) tok = true.
Proof.
  intro Hc. unfold token. induction tok as [|a tok IH]; [reflexivity|].
  cbn [all_chars clear_of clash]. intro H. apply andb_prop in H. destruct H as [Ha Htok].
  rewrite (Hc _ Ha). now rewrite IH.
Qed.

Lemma token_char_not_initial a l0 :
  label_initial l0 = true -> token_char a = true -> Ascii.eqb l0 a = false.
Proof.
  unfold token_char, label_initial. intros Hl Ha.
  apply andb_prop in Ha. destruct Ha as [_ Ha]. apply negb_true_iff in Ha.
  destruct (Ascii.eqb_spec l0 a) as [-> | _]; [congruence | reflexivity].
Qed.

Lemma token_clear lbl0 lbl tok :
  label_initial lbl0 = true -> token tok = true ->
  clear_of (String lbl0 lbl) tok = true.
Proof.
  intros Hl. apply clear_of_token. intros a Ha. now apply (token_char_not_initial a lbl0).
Qed.

Lemma token_not_space tok : token tok = true -> all_chars not_space tok = true.
Proof.
  apply all_chars_impl. intros a Ha. unfold token_char in Ha.
  apply andb_prop in Ha. destruct Ha as [Ha _].
  apply andb_prop in Ha. now destruct Ha.
Qed.

Lemma token_field tok :
  token tok = true ->
  all_chars field_char tok = true /\ starts_with is_space tok = false.
Proof.
  intro H. split.
  - revert H. apply all_chars_impl. intros a Ha. unfold token_char in Ha.
    apply andb_prop in Ha. destruct Ha as [Ha _].
    apply andb_prop in Ha. destruct Ha as [Hs Hc].
    unfold field_char. rewrite Hc.
    unfold not_space in Hs. apply negb_true_iff in Hs.
    now rewrite (not_space_is_dot _ Hs).
  - apply all_chars_starts. now apply token_not_space.
Qed.

(** *** Stepping over a piece of text *)

Lemma after_first_eq lbl s :
  after_first lbl s =
  match strip_prefix lbl s with
  | Some rest => Some rest
  | None => match s with String _ s' => after_first lbl s' | EmptyString => None end
  end.
Proof. destruct s; reflexivity. Qed.

Lemma after_first_head lbl rest : after_first lbl (lbl ++ rest) = Some rest.
Proof. now rewrite after_first_eq, strip_prefix_of_app. Qed.

Lemma after_first_skip lbl s : forall rest,
  clear_of lbl s = true -> after_first lbl (s ++ rest) = after_first lbl rest.
Proof.
  induction s as [|a s IH]; intros rest H; [reflexivity|].
  cbn [clear_of] in H. apply andb_prop in H. destruct H as [Hc Hs].
  rewrite after_first_eq, (clash_strip _ _ rest Hc). cbn [append].
  now apply IH.
Qed.

Lemma findall_skip lbl r s : forall rest,
  clear_of lbl s = true ->
  findall_from (Seq (Lit lbl) r) (s ++ rest) 0 = findall_from (Seq (Lit lbl) r) rest 0.
Proof.
  induction s as [|a s IH]; intros rest H; [reflexivity|].
  cbn [clear_of] in H. apply andb_prop in H. destruct H as [Hc Hs].
  cbn [append]. rewrite findall_miss.
  - now apply IH.
  - rewrite match_here_seq_lit.
    change (String a (s ++ rest)) with (String a s ++ rest).
    now rewrite (clash_strip _ _ rest Hc).
Qed.

Lemma findall_skip_thick s : forall rest,
  clear_of "Thick1=" s = true -> clear_of "No Soution" s = true ->
  findall_from patt_thick (s ++ rest) 0 = findall_from patt_thick rest 0.
Proof.
  induction s as [|a s IH]; intros rest H1 H2; [reflexivity|].
  cbn [clear_of] in H1, H2.
  apply andb_prop in H1. destruct H1 as [Hc1 Hs1].
  apply andb_prop in H2. destruct H2 as [Hc2 Hs2].
  cbn [append]. rewrite findall_miss.
  - now apply IH.
  - unfold patt_thick. rewrite match_here_alt, match_here_seq_lit.
    change (String a (s ++ rest)) with (String a s ++ rest).
    rewrite (clash_strip _ _ rest Hc1).
    unfold match_here. cbn [rmatch].
    now rewrite (clash_strip _ _ rest Hc2).
Qed.

(** *** A field at the head of the text *)

Lemma findall_field_head lbl ws tok post :
  lbl <> "" -> all_chars is_space ws = true -> token tok = true ->
  findall_from (field lbl) (lbl ++ ws ++ tok ++ "," ++ post) 0
  = (tok :: findall_from (field lbl) post 0)%list.
Proof.
  intros Hne Hws Htok. destruct (token_field tok Htok) as [Hf Hs].
  apply (findall_hit _ _ (lbl ++ ws ++ tok ++ ",") post (Some tok)).
  - unfold field. rewrite match_here_seq_lit, strip_prefix_of_app.
    apply (field_tail_match ws tok post Hws Hf Hs).
  - now rewrite !append_assoc.
  - destruct lbl; [congruence | discriminate].
Qed.

Lemma findall_thick_head ws tok post :
  all_chars is_space ws = true -> token tok = true ->
  findall_from patt_thick ("Thick1=" ++ ws ++ tok ++ "," ++ post) 0
  = (tok :: findall_from patt_thick post 0)%list.
Proof.
  intros Hws Htok. destruct (token_field tok Htok) as [Hf Hs].
  apply (findall_hit _ _ ("Thick1=" ++ ws ++ tok ++ ",") post (Some tok)).
  - unfold patt_thick. rewrite match_here_alt, match_here_seq_lit, strip_prefix_of_app.
    change (match_here (Star Space ++ Group (StarLazy Dot) ++ Lit ",")%re
                       (ws ++ tok ++ "," ++ post))
      with (match_here field_tail (ws ++ tok ++ "," ++ post)).
    now rewrite (field_tail_match ws tok post Hws Hf Hs).
  - now rewrite !append_assoc.
  - discriminate.
Qed.

Lemma findall_marker_head post :
  findall_from patt_thick ("No Soution" ++ post) 0
  = ("" :: findall_from patt_thick post 0)%list.
Proof.
  apply (findall_hit _ _ "No Soution" post None).
  - unfold patt_thick. rewrite match_here_alt, match_here_seq_lit.
    rewrite (clash_strip "Thick1=" "No Soution" post eq_refl).
    unfold match_here. cbn [rmatch]. now rewrite strip_prefix_of_app.
  - reflexivity.
  - discriminate.
Qed.

(** *** The rendered report *)

Lemma render_reading_app p rest :
  render_reading p ++ rest =
  "R=" ++ " " ++ radius_text p ++ "," ++ " " ++ "Theta=" ++ " " ++ angle_text p ++ ","
  ++ " " ++ match thickness_text p with
            | Some t => "Thick1=" ++ " " ++ t ++ "," ++ " " ++ rest
            | None => "No Soution" ++ " " ++ rest
            end.
Proof.
  unfold render_reading. destruct (thickness_text p); rewrite !append_assoc; reflexivity.
Qed.

Lemma render_report_eq sd mn ps :
  render_report sd mn ps =
  "StdDev" ++ " " ++ sd ++ " " ++ "Mean" ++ " " ++ mn ++ " " ++ render_readings ps.
Proof. reflexivity. Qed.

Lemma reading_tokens_inv p :
  reading_tokens p = true ->
  token (radius_text p) = true /\ token (angle_text p) = true /\
  forall t, thickness_text p = Some t -> token t = true.
Proof.
  unfold reading_tokens. intro H.
  apply andb_prop in H. destruct H as [H Hk].
  apply andb_prop in H. destruct H as [Hr Ht].
  split; [assumption|]. split; [assumption|].
  intros t E. now rewrite E in Hk.
Qed.

Ltac skip lbl :=
  repeat (rewrite (findall_skip lbl)
            by first [reflexivity | apply token_clear; [reflexivity | assumption]]).

Ltac skip_thick :=
  repeat (rewrite findall_skip_thick
            by first [reflexivity | apply token_clear; [reflexivity | assumption]]).

Lemma findall_rad_readings : forall ps,
  forallb reading_tokens ps = true ->
  findall_from patt_rad (render_readings ps) 0 = map radius_text ps.
Proof.
  induction ps as [|p ps IH]; intro H; [reflexivity|].
  cbn [forallb] in H. apply andb_prop in H. destruct H as [Hp Hps].
  destruct (reading_tokens_inv p Hp) as (Hr & Ht & Hk).
  cbn [render_readings map]. rewrite render_reading_app.
  change patt_rad with (field "R=").
  rewrite findall_field_head by (assumption || reflexivity || discriminate).
  f_equal. unfold field.
  destruct (thickness_text p) as [k|]; [specialize (Hk k eq_refl)|]; skip "R=";
    now apply IH.
Qed.

Lemma findall_theta_readings : forall ps,
  forallb reading_tokens ps = true ->
  findall_from patt_theta (render_readings ps) 0 = map angle_text ps.
Proof.
  induction ps as [|p ps IH]; intro H; [reflexivity|].
  cbn [forallb] in H. apply andb_prop in H. destruct H as [Hp Hps].
  destruct (reading_tokens_inv p Hp) as (Hr & Ht & Hk).
  cbn [render_readings map]. rewrite render_reading_app.
  unfold patt_theta. skip "Theta=".
  change (Lit "Theta=" ++ Star Space ++ Group (StarLazy Dot) ++ Lit ",")%re
    with (field "Theta=").
  rewrite findall_field_head by (assumption || reflexivity || discriminate).
  f_equal. unfold field.
  destruct (thickness_text p) as [k|]; [specialize (Hk k eq_refl)|]; skip "Theta=";
    now apply IH.
Qed.

Lemma findall_thick_readings : forall ps,
  forallb reading_tokens ps = true ->
  findall_from patt_thick (render_readings ps) 0 = map thickness_match ps.
Proof.
  induction ps as [|p ps IH]; intro H; [reflexivity|].
  cbn [forallb] in H. apply andb_prop in H. destruct H as [Hp Hps].
  destruct (reading_tokens_inv p Hp) as (Hr & Ht & Hk).
  cbn [render_readings map]. rewrite render_reading_app.
  unfold thickness_match at 1.
  skip_thick.
  destruct (thickness_text p) as [k|]; [specialize (Hk k eq_refl)|].
  - rewrite findall_thick_head by (assumption || reflexivity).
    f_equal. skip_thick. now apply IH.
  - rewrite findall_marker_head. f_equal. skip_thick. now apply IH.
Qed.

Lemma star_inv {A} c : forall s g (k : string -> option string -> option A) res,
  rmatch (Star c) s g k = Some res ->
  exists ws rest, s = ws ++ rest /\ k rest g = Some res.
Proof.
  induction s as [|a s IH]; intros g k res H.
  - exists "", "". split; [reflexivity | exact H].
  - rewrite rmatch_star_cons in H.
    destruct (class_matches c a).
    + destruct (rmatch (Star c) s g k) as [res'|] eqn:E.
      * inversion H; subst res'. destruct (IH _ _ _ E) as (ws & rest & -> & Hk).
        now exists (String a ws), rest.
      * exists "", (String a s). split; [reflexivity | exact H].
    + exists "", (String a s). split; [reflexivity | exact H].
Qed.

(** What [c*?] takes: characters of the class, at none of which the
    continuation could have gone on. *)
Lemma lazy_inv {A} c : forall s g (k : string -> option string -> option A) res,
  rmatch (StarLazy c) s g k = Some res ->
  exists tok rest,
    s = tok ++ rest /\ k rest g = Some res /\
    forall (stop : ascii -> bool),
      (forall a s' g', stop a = true -> k (String a s') g' <> None) ->
      all_chars (fun a => class_matches c a && negb (stop a)) tok = true.
Proof.
  induction s as [|a s IH]; intros g k res H; rewrite rmatch_lazy_eq in H.
  - destruct (k "" g) as [res'|] eqn:E; [|discriminate].
    exists "", "". split; [reflexivity|]. split; [congruence | reflexivity].
  - destruct (k (String a s) g) as [res'|] eqn:E.
    + exists "", (String a s). split; [reflexivity|]. split; [congruence | reflexivity].
    + destruct (class_matches c a) eqn:Ec; [|discriminate].
      destruct (IH _ _ _ H) as (tok & rest & -> & Hk & Hall).
      exists (String a tok), rest. split; [reflexivity|]. split; [exact Hk|].
      intros stop Hstop. cbn [all_chars]. rewrite Ec, (Hall stop Hstop).
      destruct (stop a) eqn:Es; [|reflexivity].
      exfalso. exact (Hstop a _ g Es E).
Qed.

(** The group of a field pattern holds no comma and no line feed; the group
    of a header pattern holds no white space. *)
Lemma field_tail_group s rest g :
  match_here field_tail s = Some (rest, g) ->
  exists tok, g = Some tok /\ all_chars field_char tok = true.
Proof.
  unfold match_here, field_tail. rewrite rmatch_seq. intro H.
  destruct (star_inv _ _ _ _ _ H) as (ws & s1 & -> & H1).
  rewrite rmatch_seq, rmatch_group in H1.
  destruct (lazy_inv _ _ _ _ _ H1) as (tok & s2 & -> & H2 & Hall).
  cbn [rmatch] in H2.
  destruct (strip_prefix "," s2) as [post|]; [|discriminate].
  inversion H2; subst. rewrite consumed_app.
  exists tok. split; [reflexivity|].
  apply (Hall is_comma). intros a s' g' Ha. cbn [rmatch strip_prefix].
  unfold is_comma in Ha. rewrite Ascii.eqb_sym, Ha. discriminate.
Qed.

Lemma header_tail_group s rest g :
  match_here header_tail s = Some (rest, g) ->
  exists tok, g = Some tok /\ all_chars not_space tok = true.
Proof.
  unfold match_here, header_tail. rewrite rmatch_seq. intro H.
  destruct (star_inv _ _ _ _ _ H) as (ws & s1 & -> & H1).
  rewrite rmatch_seq, rmatch_group in H1.
  destruct (lazy_inv _ _ _ _ _ H1) as (tok & s2 & -> & H2 & Hall).
  cbn [rmatch] in H2.
  destruct s2 as [|b s2]; [discriminate|].
  destruct (class_matches Space b); [|discriminate].
  inversion H2; subst. rewrite consumed_app.
  exists tok. split; [reflexivity|].
  specialize (Hall is_space).
  assert (H0 : all_chars (fun a => class_matches Dot a && negb (is_space a)) tok = true).
  { apply Hall. intros a s' g' Ha. cbn [rmatch class_matches]. rewrite Ha. discriminate. }
  revert H0. apply all_chars_impl. intros a Ha.
  apply andb_prop in Ha. now destruct Ha.
Qed.

Lemma findall_Forall (P : string -> Prop) r :
  (forall s rest g, match_here r s = Some (rest, g) -> P (group_text g)) ->
  forall s skip, Forall P (findall_from r s skip).
Proof.
  intro Hm. induction s as [|a s IH]; intro skip.
  - destruct skip; cbn [findall_from]; [|constructor].
    destruct (match_here r "") as [[rest g]|] eqn:E; constructor; [|constructor].
    exact (Hm _ _ _ E).
  - destruct skip as [|n]; cbn [findall_from]; [|apply IH].
    destruct (match_here r (String a s)) as [[rest g]|] eqn:E; [|apply IH].
    constructor; [exact (Hm _ _ _ E) | apply IH].
Qed.

Lemma search_inv r : forall s m,
  search r s = Some m -> exists s', match_here r s' = Some m.
Proof.
  induction s as [|a s IH]; intros m H; cbn [search] in H.
  - destruct (match_here r "") as [m'|] eqn:E; [|discriminate].
    inversion H; subst. eauto.
  - destruct (match_here r (String a s)) as [m'|] eqn:E.
    + inversion H; subst. eauto.
    + now apply IH.
Qed.

Lemma field_match_group lbl s rest g :
  match_here (field lbl) s = Some (rest, g) ->
  all_chars field_char (group_text g) = true.
Proof.
  unfold field. rewrite match_here_seq_lit.
  destruct (strip_prefix lbl s) as [s1|]; [|discriminate].
  intro H. destruct (field_tail_group _ _ _ H) as (tok & -> & Htok). exact Htok.
Qed.

Lemma thick_match_group s rest g :
  match_here patt_thick s = Some (rest, g) ->
  all_chars field_char (group_text g) = true.
Proof.
  unfold patt_thick. rewrite match_here_alt. intro H.
  match type of H with
  | match ?t with _ => _ end = _ => destruct t as [m|] eqn:E
  end.
  - inversion H; subst m. exact (field_match_group "Thick1=" _ _ _ E).
  - unfold match_here in H. cbn [rmatch] in H.
    destruct (strip_prefix "No Soution" s); [|discriminate].
    inversion H; subst. reflexivity.
Qed.

Lemma header_search_group lbl text rest g :
  search (header lbl) text = Some (rest, g) ->
  exists tok, g = Some tok /\ all_chars not_space tok = true.
Proof.
  intro H. destruct (search_inv _ _ _ H) as [s Hs].
  unfold header in Hs. rewrite match_here_seq_lit in Hs.
  destruct (strip_prefix lbl s) as [s1|]; [|discriminate].
  exact (header_tail_group _ _ _ Hs).
Qed.

End RegexFacts.

(** ** Facts on the mesh and on [interp_grid] *)

Module InterpFacts.

Import Interp InterpSpec ResultFacts.
Local Open Scope R_scope.

Lemma firstn_length_app {A} (l r : list A) : firstn (length l) (l ++ r) = l.
Proof. induction l as [|a l IH]; simpl; [now destruct r | now rewrite IH]. Qed.

Lemma skipn_length_app {A} (l r : list A) : skipn (length l) (l ++ r) = r.
Proof. induction l as [|a l IH]; simpl; [reflexivity | exact IH]. Qed.

Lemma reshape_concat (g : grid) cols :
  Forall (fun row => length row = cols) g ->
  reshape (length g) cols (concat g) = g.
Proof.
  induction 1 as [|row g Hrow Hg IH]; simpl; [reflexivity|].
  subst cols. now rewrite firstn_length_app, skipn_length_app, IH.
Qed.

Lemma combine_app {A B} (a a' : list A) (b b' : list B) :
  length a = length b -> combine (a ++ a') (b ++ b') = combine a b ++ combine a' b'.
Proof.
  revert b. induction a as [|u a IH]; intros [|v b] H; simpl in *; try discriminate.
  - reflexivity.
  - f_equal. apply IH. lia.
Qed.

Lemma map_combine_const (rbf : R * R -> R) (xs : list R) (v : R) :
  map rbf (combine xs (map (fun _ => v) xs)) = map (fun u => rbf (u, v)) xs.
Proof. induction xs as [|u xs IH]; simpl; [reflexivity | now rewrite IH]. Qed.

Lemma mesh_flat rbf xs ys :
  map rbf (combine (ravel (fst (meshgrid xs ys))) (ravel (snd (meshgrid xs ys))))
  = concat (mesh_values rbf xs ys).
Proof.
  unfold meshgrid, ravel, mesh_values. cbn [fst snd].
  induction ys as [|v ys IH]; simpl; [reflexivity|].
  rewrite combine_app by now rewrite length_map.
  now rewrite map_app, map_combine_const, IH.
Qed.

Lemma mesh_values_shape rbf xs ys :
  has_shape (mesh_values rbf xs ys) (length ys) (length xs).
Proof.
  unfold has_shape, mesh_values. split; [apply length_map|].
  apply Forall_forall. intros row Hrow. apply in_map_iff in Hrow.
  destruct Hrow as (v & <- & _). apply length_map.
Qed.

Lemma meshgrid_shape xs ys :
  has_shape (fst (meshgrid xs ys)) (length ys) (length xs) /\
  has_shape (snd (meshgrid xs ys)) (length ys) (length xs).
Proof.
  unfold has_shape, meshgrid. cbn [fst snd]. rewrite !length_map.
  repeat split; apply Forall_forall; intros row Hrow;
    apply in_map_iff in Hrow; destruct Hrow as (v & <- & _);
    [reflexivity | apply length_map].
Qed.

(** The value array is the interpolant at the nodes of the mesh. *)
Lemma mesh_reshape rbf xs ys :
  let x_grid := fst (meshgrid xs ys) in
  let y_grid := snd (meshgrid xs ys) in
  reshape (fst (shape x_grid)) (snd (shape x_grid))
          (map rbf (combine (ravel x_grid) (ravel y_grid)))
  = mesh_values rbf xs ys.
Proof.
  intros x_grid y_grid. subst x_grid y_grid. rewrite mesh_flat.
  destruct (mesh_values_shape rbf xs ys) as [Hlen Hrows].
  destruct ys as [|v ys]; [reflexivity|].
  unfold shape, meshgrid. cbn [fst snd map length].
  rewrite length_map.
  change (S (length ys)) with (length (v :: ys)).
  rewrite <- Hlen. now apply reshape_concat.
Qed.

(** *** [np.linspace] *)

Lemma node_first a b n : node a b n 0 = a.
Proof. unfold node. simpl INR. ring. Qed.

Lemma node_last a b n : (2 <= n)%nat -> node a b n (n - 1) = b.
Proof.
  intro H. unfold node.
  assert (INR (n - 1) <> 0) by (apply not_0_INR; lia).
  field. assumption.
Qed.

Lemma linspace_ok a b P xs :
  linspace a b P = Ok xs ->
  (0 <= P)%Z /\ length xs = Z.to_nat P /\
  forall k, (k < Z.to_nat P)%nat -> nth k xs 0 = node a b (Z.to_nat P) k.
Proof.
  unfold linspace. destruct (Z.ltb_spec P 0) as [|HP]; [discriminate|].
  intro H. inversion H as [Hxs]; clear H.
  split; [assumption|]. split; [now rewrite length_map, length_seq|].
  intros k Hk.
  set (f := fun i : nat => if ((1 <? Z.to_nat P) && (i =? Z.to_nat P - 1))%nat then b
                           else INR i * ((b - a) / INR (Z.to_nat P - 1)) + a).
  rewrite (nth_indep _ 0 (f 0%nat)) by now rewrite length_map, length_seq.
  rewrite (map_nth f), seq_nth by assumption. simpl Nat.add. subst f. cbv beta.
  destruct (Nat.ltb_spec 1 (Z.to_nat P)) as [H1 | H1];
    destruct (Nat.eqb_spec k (Z.to_nat P - 1)) as [-> | H2]; cbn [andb].
  - symmetry. apply node_last. lia.
  - unfold node. ring.
  - unfold node. ring.
  - unfold node. ring.
Qed.

Lemma linspace_negative a b P :
  (P < 0)%Z ->
  linspace a b P
  = Raise (ValueError ("Number of samples, " ++ NilZero.string_of_int (Z.to_int P)
                       ++ ", must be non-negative.")%string).
Proof. unfold linspace. intro H. destruct (Z.ltb_spec P 0); [reflexivity | lia]. Qed.

Lemma linspace_signbits_length sign P :
  length (linspace_signbits sign P) = Z.to_nat P.
Proof. unfold linspace_signbits. now rewrite length_map, length_seq. Qed.

Lemma linspace_signbits_nth sign P k :
  (k < Z.to_nat P)%nat ->
  nth k (linspace_signbits sign P) false
  = ((1 <? Z.to_nat P) && (k =? Z.to_nat P - 1))%nat && sign.
Proof.
  intro Hk. unfold linspace_signbits.
  set (f := fun i : nat => ((1 <? Z.to_nat P) && (i =? Z.to_nat P - 1))%nat && sign).
  rewrite (nth_indep _ false (f 0%nat)) by now rewrite length_map, length_seq.
  rewrite (map_nth f), seq_nth by assumption. reflexivity.
Qed.

Lemma linspace_zero a b : linspace a b 0 = Ok [].
Proof. reflexivity. Qed.

Lemma linspace_one a b : linspace a b 1 = Ok [a].
Proof. unfold linspace. simpl. f_equal. f_equal. ring. Qed.

(** *** The builtins [min] and [max] *)

Lemma fold_min_spec l : forall a,
  let m := fold_left (fun m v => if Rlt_dec v m then v else m) l a in
  (m = a \/ In m l) /\ m <= a /\ forall v, In v l -> m <= v.
Proof.
  induction l as [|u l IH]; intro a; simpl.
  - split; [now left|]. split; [lra | tauto].
  - destruct (Rlt_dec u a) as [Hlt | Hge].
    + destruct (IH u) as ([H1 | H1] & H2 & H3).
      * split; [right; left; now symmetry|]. split; [lra|].
        intros v [<- | Hv]; [lra | now apply H3].
      * split; [right; now right|]. split; [lra|].
        intros v [<- | Hv]; [lra | now apply H3].
    + destruct (IH a) as ([H1 | H1] & H2 & H3).
      * split; [now left|]. split; [lra|].
        intros v [<- | Hv]; [lra | now apply H3].
      * split; [right; now right|]. split; [lra|].
        intros v [<- | Hv]; [lra | now apply H3].
Qed.

Lemma fold_max_spec l : forall a,
  let m := fold_left (fun m v => if Rgt_dec v m then v else m) l a in
  (m = a \/ In m l) /\ a <= m /\ forall v, In v l -> v <= m.
Proof.
  induction l as [|u l IH]; intro a; simpl.
  - split; [now left|]. split; [lra | tauto].
  - destruct (Rgt_dec u a) as [Hgt | Hle].
    + destruct (IH u) as ([H1 | H1] & H2 & H3).
      * split; [right; left; now symmetry|]. split; [lra|].
        intros v [<- | Hv]; [lra | now apply H3].
      * split; [right; now right|]. split; [lra|].
        intros v [<- | Hv]; [lra | now apply H3].
    + destruct (IH a) as ([H1 | H1] & H2 & H3).
      * split; [now left|]. split; [lra|].
        intros v [<- | Hv]; [lra | now apply H3].
      * split; [right; now right|]. split; [lra|].
        intros v [<- | Hv]; [lra | now apply H3].
Qed.

Lemma py_min_spec l m : py_min l = Ok m -> is_min l m.
Proof.
  destruct l as [|a l]; [discriminate|]. simpl. intro H. inversion H as [Hm].
  destruct (fold_min_spec l a) as ([H1 | H1] & H2 & H3); split.
  - left. now symmetry.
  - intros v [<- | Hv]; [assumption | now apply H3].
  - now right.
  - intros v [<- | Hv]; [assumption | now apply H3].
Qed.

Lemma py_max_spec l m : py_max l = Ok m -> is_max l m.
Proof.
  destruct l as [|a l]; [discriminate|]. simpl. intro H. inversion H as [Hm].
  destruct (fold_max_spec l a) as ([H1 | H1] & H2 & H3); split.
  - left. now symmetry.
  - intros v [<- | Hv]; [assumption | now apply H3].
  - now right.
  - intros v [<- | Hv]; [assumption | now apply H3].
Qed.

Lemma py_min_nonempty l : l <> [] -> exists m, py_min l = Ok m.
Proof. destruct l; [congruence | simpl; eauto]. Qed.

Lemma py_max_nonempty l : l <> [] -> exists m, py_max l = Ok m.
Proof. destruct l; [congruence | simpl; eauto]. Qed.

Lemma py_min_of_is_min l m : is_min l m -> py_min l = Ok m.
Proof.
  intros [Hin Hle].
  destruct (py_min_nonempty l) as [m' Hm']; [intro E; now rewrite E in Hin|].
  rewrite Hm'. f_equal. destruct (py_min_spec l m' Hm') as [Hin' Hle'].
  apply Rle_antisym; auto.
Qed.

Lemma py_max_of_is_max l m : is_max l m -> py_max l = Ok m.
Proof.
  intros [Hin Hle].
  destruct (py_max_nonempty l) as [m' Hm']; [intro E; now rewrite E in Hin|].
  rewrite Hm'. f_equal. destruct (py_max_spec l m' Hm') as [Hin' Hle'].
  apply Rle_antisym; auto.
Qed.

(** *** Broadcasting *)

Lemma map2_length {A B C} (f : A -> B -> C) : forall a b,
  length (map2 f a b) = Nat.min (length a) (length b).
Proof.
  induction a as [|u a IH]; intros [|v b]; simpl; try reflexivity.
  now rewrite IH.
Qed.

Lemma broadcast_length (f g : R -> R -> R) a b b' x y :
  length b = length b' ->
  broadcast f a b = Ok x -> broadcast g a b' = Ok y -> length x = length y.
Proof.
  unfold broadcast. intros Hb. rewrite <- Hb.
  destruct (Nat.eqb_spec (length a) (length b)) as [E | E].
  - intros H1 H2. inversion H1; inversion H2. rewrite !map2_length. lia.
  - destruct a as [|u [|u' a]].
    + destruct b as [|v [|v' b]], b' as [|w [|w' b']]; simpl in *;
        try discriminate; try lia;
        intros H1 H2; inversion H1; inversion H2; reflexivity.
    + intros H1 H2. inversion H1; inversion H2. now rewrite !length_map.
    + destruct b as [|v [|v' b]], b' as [|w [|w' b']]; simpl in Hb;
        try discriminate; try lia;
        intros H1 H2; inversion H1; inversion H2; simpl;
        now rewrite ?length_map.
Qed.

Lemma broadcast_same_length {A} (f : A -> A -> A) a b :
  length a = length b -> broadcast f a b = Ok (map2 f a b).
Proof. unfold broadcast. intros ->. now rewrite Nat.eqb_refl. Qed.

(** *** The polar transform *)









Lemma radius_on_axis x : radius x 0 = Rabs x.
Proof.
  unfold radius. replace (x ^ 2 + 0 ^ 2) with (x²) by (unfold Rsqr; ring).
  apply sqrt_Rsqr_abs.
Qed.




(** *** The stages of [interp_grid] *)

Section Stages.

Variable RBFInterpolator : list (R * R) -> list R -> result pyexc (R * R -> R).

Lemma interp_grid_runs self polar P s :
  runs RBFInterpolator self P s ->
  interp_grid RBFInterpolator self polar P = Ok (output self P polar s).
Proof.
  intros (H1 & H2 & H3 & H4 & H5 & H6 & H7 & H8 & H9).
  unfold interp_grid.
  rewrite H1; cbn [at_site bind]. rewrite H2; cbn [at_site bind].
  rewrite H3; cbn [at_site bind]. rewrite H4; cbn [at_site bind].
  rewrite H5; cbn [at_site bind]. rewrite H6; cbn [at_site bind].
  rewrite H7; cbn [at_site bind]. rewrite H8; cbn [at_site bind].
  rewrite H9; cbn [at_site bind].
  pose proof (mesh_reshape (st_rbf s) (st_xs s) (st_ys s)) as Hz.
  cbv zeta in Hz.
  unfold output, theta_grid, x_doubles, y_doubles, x_grid, y_grid, z_grid.
  destruct (meshgrid (st_xs s) (st_ys s)) as [xg yg].
  cbn [fst snd] in *. rewrite Hz. destruct polar; reflexivity.
Qed.

Lemma interp_grid_inv self polar P out :
  interp_grid RBFInterpolator self polar P = Ok out ->
  exists s, runs RBFInterpolator self P s /\ out = output self P polar s.
Proof.
  intro H. pose proof H as H0. unfold interp_grid in H.
  do 9 bind_inv H.
  set (s := {| st_x := v; st_y := v0; st_rbf := v1; st_min_x := v2;
               st_max_x := v3; st_xs := v4; st_min_y := v5; st_max_y := v6;
               st_ys := v7 |}).
  assert (Hs : runs RBFInterpolator self P s) by (unfold runs; subst s; cbn; tauto).
  exists s. split; [assumption|].
  rewrite (interp_grid_runs self polar P s Hs) in H0. congruence.
Qed.

(** The two modes raise the same exception, or return the same value array
    and, in polar mode, the radii of the Cartesian nodes. *)
Lemma interp_grid_modes self P :
  match interp_grid RBFInterpolator self true P,
        interp_grid RBFInterpolator self false P with
  | Ok (r_grid, _, z_polar), Ok (xg, yg, z) =>
      z_polar = z /\ r_grid = map2 (map2 radius) xg yg
  | Raise e_polar, Raise e => e_polar = e
  | _, _ => False
  end.
Proof.
  unfold interp_grid.
  repeat match goal with
         | |- context [at_site ?l ?r] => destruct r; cbn [at_site bind]; try reflexivity
         end.
  unfold meshgrid. split; reflexivity.
Qed.

End Stages.

(** On samples with as many radii as angles, and at least one, the
    statements before the mesh return once the interpolant is fitted and the
    resolution is not negative. *)
Lemma runs_exists RBF self P rbf :
  (0 <= P)%Z ->
  length (rad_arr self) = length (theta_arr self) -> rad_arr self <> [] ->
  RBF (combine (map2 Rmult (rad_arr self) (map cos (theta_arr self)))
               (map2 Rmult (rad_arr self) (map sin (theta_arr self))))
      (thick_arr self) = Ok rbf ->
  exists s, runs RBF self P s /\
            st_x s = map2 Rmult (rad_arr self) (map cos (theta_arr self)) /\
            st_y s = map2 Rmult (rad_arr self) (map sin (theta_arr self)) /\
            st_rbf s = rbf.
Proof.
  intros HP Hlen Hne Hrbf.
  set (x := map2 Rmult (rad_arr self) (map cos (theta_arr self))) in *.
  set (y := map2 Rmult (rad_arr self) (map sin (theta_arr self))) in *.
  assert (Hx : x <> []).
  { subst x. destruct (rad_arr self), (theta_arr self);
      simpl in *; congruence. }
  assert (Hy : y <> []).
  { subst y. destruct (rad_arr self), (theta_arr self);
      simpl in *; congruence. }
  destruct (py_min_nonempty x Hx) as [min_x Hminx].
  destruct (py_max_nonempty x Hx) as [max_x Hmaxx].
  destruct (py_min_nonempty y Hy) as [min_y Hminy].
  destruct (py_max_nonempty y Hy) as [max_y Hmaxy].
  assert (Hlin : forall a b, exists l, linspace a b P = Ok l).
  { intros a b. unfold linspace. destruct (Z.ltb_spec P 0); [lia | eauto]. }
  destruct (Hlin min_x max_x) as [xs Hxs].
  destruct (Hlin min_y max_y) as [ys Hys].
  exists {| st_x := x; st_y := y; st_rbf := rbf;
            st_min_x := min_x; st_max_x := max_x;
            st_min_y := min_y; st_max_y := max_y;
            st_xs := xs; st_ys := ys |}.
  unfold runs.
  cbn [st_x st_y st_rbf st_min_x st_max_x st_min_y st_max_y st_xs st_ys].
  rewrite !broadcast_same_length by now rewrite length_map.
  fold x y. tauto.
Qed.

Lemma node_between a b n k :
  a <= b -> (k < n)%nat -> a <= node a b n k <= b.
Proof.
  intros Hab Hk. unfold node.
  destruct (Nat.eq_dec n 1) as [-> | Hn].
  - replace k with 0%nat by lia. simpl INR. lra.
  - assert (Hpos : 0 < INR (n - 1)) by (apply lt_0_INR; lia).
    assert (Hk0 : 0 <= INR k) by apply pos_INR.
    assert (Hk1 : INR k <= INR (n - 1)) by (apply le_INR; lia).
    pose proof (Rinv_0_lt_compat _ Hpos) as Hinv.
    assert (Hq : 0 <= INR k * / INR (n - 1) <= 1).
    { split; [nra|].
      apply Rmult_le_reg_r with (INR (n - 1)); [assumption|].
      rewrite Rmult_assoc, Rinv_l by lra. lra. }
    replace (INR k * ((b - a) / INR (n - 1)))
      with ((b - a) * (INR k * / INR (n - 1))) by (unfold Rdiv; ring).
    nra.
Qed.

(** *** Nodes of the mesh *)

Lemma nth_map_in {A B} (f : A -> B) l i d d' :
  (i < length l)%nat -> nth i (map f l) d' = f (nth i l d).
Proof.
  intro H. rewrite (nth_indep _ d' (f d)) by now rewrite length_map.
  apply map_nth.
Qed.

Lemma x_grid_node s i j :
  (i < length (st_ys s))%nat ->
  nth j (nth i (x_grid s) []) 0 = nth j (st_xs s) 0.
Proof.
  intro Hi. unfold x_grid, meshgrid. cbn [fst].
  now rewrite (nth_map_in (fun _ => st_xs s) (st_ys s) i 0 []).
Qed.

Lemma y_grid_node s i j :
  (i < length (st_ys s))%nat -> (j < length (st_xs s))%nat ->
  nth j (nth i (y_grid s) []) 0 = nth i (st_ys s) 0.
Proof.
  intros Hi Hj. unfold y_grid, meshgrid. cbn [snd].
  rewrite (nth_map_in (fun v => map (fun _ => v) (st_xs s)) (st_ys s) i 0 []) by assumption.
  now rewrite (nth_map_in (fun _ => nth i (st_ys s) 0) (st_xs s) j 0 0).
Qed.

Lemma z_grid_node s i j :
  (i < length (st_ys s))%nat -> (j < length (st_xs s))%nat ->
  nth j (nth i (z_grid s) []) 0
  = st_rbf s (nth j (nth i (x_grid s) []) 0, nth j (nth i (y_grid s) []) 0).
Proof.
  intros Hi Hj. rewrite x_grid_node, y_grid_node by assumption.
  unfold z_grid, mesh_values.
  rewrite (nth_map_in (fun v => map (fun u => st_rbf s (u, v)) (st_xs s)) (st_ys s) i 0 [])
    by assumption.
  now rewrite (nth_map_in (fun u => st_rbf s (u, nth i (st_ys s) 0)) (st_xs s) j 0 0).
Qed.

Lemma map2_nth {A B C} (f : A -> B -> C) : forall a b i da db dc,
  (i < length a)%nat -> (i < length b)%nat ->
  nth i (map2 f a b) dc = f (nth i a da) (nth i b db).
Proof.
  induction a as [|u a IH]; intros [|v b] i da db dc Ha Hb; simpl in *; try lia.
  destruct i as [|i]; [reflexivity|]. apply IH; lia.
Qed.

Lemma has_shape_row g rows cols i :
  has_shape g rows cols -> (i < rows)%nat -> length (nth i g []) = cols.
Proof.
  intros [Hlen Hrows] Hi. rewrite Forall_forall in Hrows.
  apply Hrows, nth_In. lia.
Qed.

Lemma map2_grid_shape (f : R -> R -> R) a b rows cols :
  has_shape a rows cols -> has_shape b rows cols ->
  has_shape (map2 (map2 f) a b) rows cols.
Proof.
  intros [Ha Hra] [Hb Hrb]. split.
  - rewrite map2_length. lia.
  - clear Ha Hb. revert b Hrb.
    induction Hra as [|ra a Hr Hra IH]; intros b Hrb; [constructor|].
    destruct Hrb as [|rb b Hr' Hrb]; constructor.
    + rewrite map2_length. lia.
    + now apply IH.
Qed.

Lemma map2_grid_node (f : R -> R -> R) a b rows cols i j :
  has_shape a rows cols -> has_shape b rows cols ->
  (i < rows)%nat -> (j < cols)%nat ->
  nth j (nth i (map2 (map2 f) a b) []) 0
  = f (nth j (nth i a []) 0) (nth j (nth i b []) 0).
Proof.
  intros Ha Hb Hi Hj.
  pose proof (has_shape_row a rows cols i Ha Hi) as Hra.
  pose proof (has_shape_row b rows cols i Hb Hi) as Hrb.
  destruct Ha as [Ha _], Hb as [Hb _].
  rewrite (map2_nth (map2 f) a b i [] [] []) by lia.
  apply map2_nth; lia.
Qed.

Lemma stages_shapes RBF self P s :
  runs RBF self P s ->
  (0 <= P)%Z /\
  length (st_xs s) = Z.to_nat P /\ length (st_ys s) = Z.to_nat P /\
  has_shape (x_grid s) (Z.to_nat P) (Z.to_nat P) /\
  has_shape (y_grid s) (Z.to_nat P) (Z.to_nat P) /\
  has_shape (z_grid s) (Z.to_nat P) (Z.to_nat P).
Proof.
  intros (_ & _ & _ & _ & _ & Hxs & _ & _ & Hys).
  apply linspace_ok in Hxs, Hys.
  destruct Hxs as (HP & Hlx & _), Hys as (_ & Hly & _).
  destruct (meshgrid_shape (st_xs s) (st_ys s)) as [Hx Hy].
  pose proof (mesh_values_shape (st_rbf s) (st_xs s) (st_ys s)) as Hz.
  rewrite Hlx, Hly in Hx, Hy, Hz. tauto.
Qed.

(** *** The angles of the nodes *)

Lemma map2_const_row {A C} (f : A -> A -> C) (v : A) : forall xs,
  map2 f (map (fun _ => v) xs) xs = map (f v) xs.
Proof. induction xs as [|u xs IH]; simpl; [reflexivity | now rewrite IH]. Qed.

Lemma map2_meshgrid {A C} (f : A -> A -> C) (xs ys : list A) :
  map2 (map2 f) (snd (meshgrid xs ys)) (fst (meshgrid xs ys))
  = map (fun v => map (fun u => f v u) xs) ys.
Proof.
  unfold meshgrid. cbn [fst snd].
  induction ys as [|v ys IH]; simpl; [reflexivity|].
  now rewrite map2_const_row, IH.
Qed.

Lemma doubles_length (vals : list R) sign P :
  length vals = Z.to_nat P ->
  length (combine vals (linspace_signbits sign P)) = Z.to_nat P.
Proof. intro H. rewrite length_combine, linspace_signbits_length. lia. Qed.

Lemma doubles_nth (vals : list R) sign P k :
  length vals = Z.to_nat P -> (k < Z.to_nat P)%nat ->
  nth k (combine vals (linspace_signbits sign P)) (0, false)
  = (nth k vals 0, ((1 <? Z.to_nat P) && (k =? Z.to_nat P - 1))%nat && sign).
Proof.
  intros Hlen Hk.
  rewrite combine_nth by (now rewrite linspace_signbits_length).
  now rewrite linspace_signbits_nth.
Qed.

Lemma theta_grid_shape RBF self P s :
  runs RBF self P s -> has_shape (theta_grid self P s) (Z.to_nat P) (Z.to_nat P).
Proof.
  intro Hs. destruct (stages_shapes RBF self P s Hs) as (_ & Hlx & Hly & _).
  unfold theta_grid. rewrite map2_meshgrid. split.
  - rewrite length_map. now apply doubles_length.
  - apply Forall_forall. intros row Hrow. apply in_map_iff in Hrow.
    destruct Hrow as (v & <- & _). rewrite length_map. now apply doubles_length.
Qed.

Lemma theta_grid_node RBF self P s i j :
  runs RBF self P s -> (i < Z.to_nat P)%nat -> (j < Z.to_nat P)%nat ->
  nth j (nth i (theta_grid self P s) []) 0
  = arctan2 (nth i (st_ys s) 0, y_node_signbit self P s i)
            (nth j (st_xs s) 0, x_node_signbit self P s j).
Proof.
  intros Hs Hi Hj. destruct (stages_shapes RBF self P s Hs) as (_ & Hlx & Hly & _).
  unfold theta_grid. rewrite map2_meshgrid.
  rewrite (nth_map_in (fun v => map (fun u => arctan2 v u) (x_doubles self P s))
                      (y_doubles self P s) i (0, false) [])
    by (unfold y_doubles; now rewrite doubles_length).
  rewrite (nth_map_in (fun u => arctan2 (nth i (y_doubles self P s) (0, false)) u)
                      (x_doubles self P s) j (0, false) 0)
    by (unfold x_doubles; now rewrite doubles_length).
  unfold x_doubles, y_doubles. now rewrite !doubles_nth by assumption.
Qed.

Lemma output_shapes RBF self P s polar :
  runs RBF self P s ->
  let '(g1, g2, z) := output self P polar s in
  has_shape g1 (Z.to_nat P) (Z.to_nat P) /\
  has_shape g2 (Z.to_nat P) (Z.to_nat P) /\
  has_shape z (Z.to_nat P) (Z.to_nat P).
Proof.
  intro Hs. destruct (stages_shapes RBF self P s Hs) as (_ & _ & _ & Hx & Hy & Hz).
  unfold output. destruct polar.
  - split; [now apply map2_grid_shape|].
    split; [now apply (theta_grid_shape RBF) | assumption].
  - tauto.
Qed.

(** *** Three samples at the corners of a triangle *)

Lemma three_samples_x :
  map2 Rmult (rad_arr three_samples) (map cos (theta_arr three_samples)) = [0; 1; 0].
Proof. simpl. rewrite cos_0, cos_PI2. repeat f_equal; ring. Qed.

Lemma three_samples_y :
  map2 Rmult (rad_arr three_samples) (map sin (theta_arr three_samples)) = [0; 0; 1].
Proof. simpl. rewrite sin_0, sin_PI2. repeat f_equal; ring. Qed.

Lemma three_samples_fit :
  exists rbf,
    rbf_three_samples
      (combine (map2 Rmult (rad_arr three_samples) (map cos (theta_arr three_samples)))
               (map2 Rmult (rad_arr three_samples) (map sin (theta_arr three_samples))))
      (thick_arr three_samples) = Ok rbf.
Proof.
  rewrite three_samples_x, three_samples_y.
  unfold rbf_three_samples. simpl.
  destruct (Req_EM_T _ 0) as [E | _]; [exfalso; lra | eauto].
Qed.

Lemma three_samples_bounds :
  py_min [0; 1; 0] = Ok 0 /\ py_max [0; 1; 0] = Ok 1 /\
  py_min [0; 0; 1] = Ok 0 /\ py_max [0; 0; 1] = Ok 1.
Proof.
  repeat split;
    (apply py_min_of_is_min || apply py_max_of_is_max);
    (split; [simpl; auto | intros v [<- | [<- | [<- | []]]]; lra]).
Qed.

Lemma three_samples_runs P xs :
  linspace 0 1 P = Ok xs ->
  exists s, runs rbf_three_samples three_samples P s /\ st_xs s = xs /\ st_ys s = xs.
Proof.
  intro Hxs. destruct three_samples_fit as [rbf Hrbf].
  destruct three_samples_bounds as (H1 & H2 & H3 & H4).
  exists {| st_x := [0; 1; 0]; st_y := [0; 0; 1]; st_rbf := rbf;
            st_min_x := 0; st_max_x := 1; st_min_y := 0; st_max_y := 1;
            st_xs := xs; st_ys := xs |}.
  unfold runs. cbn [st_x st_y st_rbf st_min_x st_max_x st_min_y st_max_y st_xs st_ys].
  rewrite !broadcast_same_length by reflexivity.
  rewrite three_samples_x, three_samples_y in *. tauto.
Qed.

(** *** Three samples on and below the x axis *)

Lemma signbit_negative v negzero : v < 0 -> signbit v negzero = true.
Proof. intro H. unfold signbit. destruct (Rlt_dec v 0); [reflexivity | contradiction]. Qed.

Lemma signbit_positive v negzero : 0 < v -> signbit v negzero = false.
Proof.
  intro H. unfold signbit.
  destruct (Rlt_dec v 0); [lra|]. destruct (Rlt_dec 0 v); [reflexivity | contradiction].
Qed.

Lemma signbit_zero negzero : signbit 0 negzero = negzero.
Proof.
  unfold signbit. destruct (Rlt_dec 0 0); [lra | reflexivity].
Qed.








(** *** Three samples at and left of the origin *)

Lemma left_of_origin_x :
  map2 Rmult (rad_arr samples_left_of_origin) (map cos (theta_arr samples_left_of_origin))
  = [0; -1; 0].
Proof. simpl. rewrite cos_0, cos_PI2. repeat f_equal; ring. Qed.

Lemma left_of_origin_y :
  map2 Rmult (rad_arr samples_left_of_origin) (map sin (theta_arr samples_left_of_origin))
  = [0; 0; -1].
Proof. simpl. rewrite sin_0, sin_PI2. repeat f_equal; ring. Qed.

Lemma left_of_origin_signbits :
  x_signbits samples_left_of_origin = [true; true; true] /\
  y_signbits samples_left_of_origin = [true; true; true].
Proof.
  unfold x_signbits, y_signbits, cos_signbits, sin_signbits, samples_left_of_origin.
  cbn [rad_arr theta_arr rad_negzero theta_negzero signbits map map2 hd tl].
  rewrite cos_0, cos_PI2, sin_0, sin_PI2.
  rewrite !signbit_zero.
  rewrite !(signbit_negative (-1)) by lra.
  rewrite !(signbit_positive 1) by lra.
  split; reflexivity.
Qed.

Lemma left_of_origin_max_signbit :
  max_signbit [0; -1; 0] (x_signbits samples_left_of_origin) = true /\
  max_signbit [0; 0; -1] (y_signbits samples_left_of_origin) = true.
Proof.
  destruct left_of_origin_signbits as [-> ->]. unfold max_signbit. simpl. split.
  - destruct (Rgt_dec (-1) 0); [lra|]. simpl.
    destruct (Rgt_dec 0 0); [lra | reflexivity].
  - destruct (Rgt_dec 0 0); [lra|]. simpl.
    destruct (Rgt_dec (-1) 0); [lra | reflexivity].
Qed.

Lemma left_of_origin_runs P xs :
  linspace (-1) 0 P = Ok xs ->
  exists s, runs rbf_three_samples samples_left_of_origin P s /\
            st_x s = [0; -1; 0] /\ st_y s = [0; 0; -1] /\ st_xs s = xs /\ st_ys s = xs.
Proof.
  intro Hxs.
  assert (Hfit : exists rbf,
             rbf_three_samples (combine [0; -1; 0] [0; 0; -1])
                               (thick_arr samples_left_of_origin) = Ok rbf).
  { unfold rbf_three_samples. simpl.
    destruct (Req_EM_T _ 0) as [E | _]; [exfalso; lra | eauto]. }
  destruct Hfit as [rbf Hrbf].
  assert (Hb : py_min [0; -1; 0] = Ok (-1) /\ py_max [0; -1; 0] = Ok 0 /\
               py_min [0; 0; -1] = Ok (-1) /\ py_max [0; 0; -1] = Ok 0).
  { repeat split;
      (apply py_min_of_is_min || apply py_max_of_is_max);
      (split; [simpl; auto | intros v [<- | [<- | [<- | []]]]; lra]). }
  destruct Hb as (H1 & H2 & H3 & H4).
  exists {| st_x := [0; -1; 0]; st_y := [0; 0; -1]; st_rbf := rbf;
            st_min_x := -1; st_max_x := 0; st_min_y := -1; st_max_y := 0;
            st_xs := xs; st_ys := xs |}.
  unfold runs. cbn [st_x st_y st_rbf st_min_x st_max_x st_min_y st_max_y st_xs st_ys].
  rewrite !broadcast_same_length by reflexivity.
  rewrite left_of_origin_x, left_of_origin_y in *. tauto.
Qed.

(** At resolution 2 the last node of the last row is the origin with both
    coordinates negative zeros, and its angle is [-pi]; above it, the node
    (-0.0, -1) has the angle [-pi/2]. *)
Example left_of_origin_angles :
  exists r_grid theta_grid z,
    interp_grid rbf_three_samples samples_left_of_origin true 2
    = Ok (r_grid, theta_grid, z) /\
    nth 1 (nth 1 r_grid []) 0 = 0 /\ nth 1 (nth 1 theta_grid []) 0 = - PI /\
    nth 1 (nth 0 theta_grid []) 0 = - (PI / 2).
Proof.
  assert (Hl : exists xs, linspace (-1) 0 2 = Ok xs) by (unfold linspace; simpl; eauto).
  destruct Hl as [xs Hxs].
  destruct (left_of_origin_runs 2 xs Hxs) as (s & Hs & Hx & Hy & Hsx & Hsy).
  pose proof (interp_grid_runs rbf_three_samples samples_left_of_origin true 2 s Hs) as Hpolar.
  destruct (stages_shapes rbf_three_samples _ 2 s Hs) as (_ & _ & _ & Hgx & Hgy & _).
  apply linspace_ok in Hxs. destruct Hxs as (_ & Hlen & Hn).
  assert (H0 : nth 0 xs 0 = -1) by (rewrite Hn by (simpl; lia); apply node_first).
  assert (H1 : nth 1 xs 0 = 0).
  { rewrite Hn by (simpl; lia). apply (node_last (-1) 0 2). lia. }
  destruct left_of_origin_max_signbit as [Hmx Hmy].
  exists (map2 (map2 radius) (x_grid s) (y_grid s)),
         (theta_grid samples_left_of_origin 2 s), (z_grid s).
  split; [exact Hpolar|]. split; [|split].
  - rewrite (map2_grid_node radius _ _ _ _ 1 1 Hgx Hgy) by (simpl; lia).
    rewrite x_grid_node, y_grid_node by (rewrite ?Hsx, ?Hsy, Hlen; simpl; lia).
    rewrite Hsx, Hsy, H1. rewrite radius_on_axis. apply Rabs_R0.
  - rewrite (theta_grid_node rbf_three_samples _ 2 s 1 1 Hs) by (simpl; lia).
    rewrite Hsx, Hsy, H1. unfold x_node_signbit, y_node_signbit.
    rewrite Hx, Hy, Hmx, Hmy. simpl. unfold arctan2.
    destruct (Rlt_dec 0 0); [lra | reflexivity].
  - rewrite (theta_grid_node rbf_three_samples _ 2 s 0 1 Hs) by (simpl; lia).
    rewrite Hsx, Hsy, H0, H1. unfold arctan2.
    destruct (Rlt_dec 0 0); [lra|]. destruct (Rlt_dec 0 (-1)); [lra|].
    destruct (Rlt_dec (-1) 0); [reflexivity | lra].
Qed.

(** *** When the product of two arrays raises *)

Lemma broadcast_raises_iff {A} (f : A -> A -> A) a b :
  broadcast f a b = Raise (ValueError "operands could not be broadcast together")
  <-> (length a <> length b /\ length a <> 1%nat /\ length b <> 1%nat).
Proof.
  unfold broadcast. destruct (Nat.eqb_spec (length a) (length b)) as [E | E].
  - split; [discriminate | tauto].
  - destruct a as [|u [|u' a]]; destruct b as [|v [|v' b]]; simpl in *;
      split; try discriminate; try tauto; try (intros _; repeat split; lia);
      try (intros (_ & H1 & H2); lia); try reflexivity.
Qed.

Lemma broadcast_ok_or_raises {A} (f : A -> A -> A) a b :
  (exists x, broadcast f a b = Ok x) \/
  broadcast f a b = Raise (ValueError "operands could not be broadcast together").
Proof.
  unfold broadcast. destruct (length a =? length b)%nat; [eauto|].
  destruct a as [|u [|u' a]]; destruct b as [|v [|v' b]]; eauto.
Qed.

Lemma broadcast_nil {A} (f : A -> A -> A) a b x :
  a = [] \/ b = [] -> broadcast f a b = Ok x -> x = [].
Proof.
  unfold broadcast. intros [-> | ->].
  - destruct b as [|v [|v' b]]; simpl; intro H; inversion H; reflexivity.
  - destruct a as [|u [|u' a]]; simpl; intro H; inversion H; reflexivity.
Qed.

End InterpFacts.

(** ** The report parser: statements on [__init__] *)

Module ParserClaims.

Import Regex PyFloat Numpy Parser Spec ResultFacts RepairFacts FloatFacts ParserFacts.
Local Open Scope string_scope.

(** *** Repair of the missing readings *)

(** C1, as amended.  [repair_missing] turns [10, nan, 20] into [10, 15, 20],
    [nan, 10, 20] into [10, 10, 20] and [10, 20, nan] into [10, 20, 20].
    For every series with a valid entry it returns a series of the same
    length in which a missing entry between two valid ones is [np.interp]'s
    linear interpolation [lerp] of its nearest valid neighbours over the
    array indices, and a missing entry before the first (after the last)
    valid one has the value of that one.  No NaN remains when the valid
    entries are finite and the series has at most 2^53 entries. *)
Theorem repair_missing_interpolates :
  repair_missing [of_Z 10; nan; of_Z 20] = Ok [of_Z 10; of_Z 15; of_Z 20] /\
  repair_missing [nan; of_Z 10; of_Z 20] = Ok [of_Z 10; of_Z 10; of_Z 20] /\
  repair_missing [of_Z 10; of_Z 20; nan] = Ok [of_Z 10; of_Z 20; of_Z 20] /\
  forall a : list float,
    (exists j, valid a j) ->
    exists b,
      repair_missing a = Ok b /\ List.length b = List.length a /\
      (forall i, missing a i ->
         (forall l r, nearest_below a i l -> nearest_above a i r ->
                      nth i b nan = lerp l (nth l a nan) r (nth r a nan) i) /\
         (forall r, (forall j, valid a j -> (i < j)%nat) -> nearest_above a i r ->
                    nth i b nan = nth r a nan) /\
         (forall l, (forall j, valid a j -> (j < i)%nat) -> nearest_below a i l ->
                    nth i b nan = nth l a nan)) /\
      ((forall j, valid a j -> is_finite (nth j a nan) = true) ->
       (Z.of_nat (List.length a) <= 2 ^ 53)%Z ->
       forall i, (i < List.length a)%nat -> isnan (nth i b nan) = false).
Proof.
  split; [vm_compute; reflexivity|].
  split; [vm_compute; reflexivity|].
  split; [vm_compute; reflexivity|].
  intros a Hex.
  exists (fill_from 0 (interp1 (points_from 0 a)) a).
  split; [now apply repair_missing_ok|].
  split; [apply fill_from_length|].
  split.
  - intros i Hi. pose proof Hi as [Hlen Hnan].
    rewrite fill_from_nth by assumption. rewrite Hnan. simpl Nat.add.
    split; [|split].
    + intros l r. now apply repaired_between.
    + intros r. now apply repaired_before.
    + intros l. now apply repaired_after.
  - intros Hfin Hlen i Hi.
    rewrite fill_from_nth by assumption. simpl Nat.add.
    destruct (isnan (nth i a nan)) eqn:Hnan; [|assumption].
    assert (Hpts : points_from 0 a <> []).
    { destruct Hex as [j Hj]. apply valid_in_points in Hj.
      intro E. rewrite E in Hj. destruct Hj. }
    destruct (interp1_value (points_from 0 a) i Hpts)
      as [p Hp Hv | l fl r fr Hl Hr Hlr Hv]; rewrite Hv.
    + apply points_valid in Hp. destruct Hp as [[_ Hp] Hs]. now rewrite Hs.
    + apply points_In_valid in Hl, Hr.
      destruct Hl as [Hl <-], Hr as [Hr <-].
      apply lerp_not_nan.
      * now apply Hfin.
      * now apply Hfin.
      * assert (l <> i).
        { intros ->. destruct Hl as [_ Hl]. congruence. }
        lia.
      * destruct Hr as [Hr _]. lia.
Qed.

Lemma repair_missing_interpolates_witness :
  (exists j, valid series_10_nan_nan_40 j) /\
  exists b, repair_missing series_10_nan_nan_40 = Ok b /\
            List.length b = List.length series_10_nan_nan_40 /\
            nth 1 b nan = lerp 0 (of_Z 10) 3 (of_Z 40) 1 /\
            (forall i, (i < List.length series_10_nan_nan_40)%nat ->
                       isnan (nth i b nan) = false).
Proof.
  set (a := series_10_nan_nan_40).
  assert (Hv0 : valid a 0) by (split; [simpl; lia | reflexivity]).
  assert (Hv3 : valid a 3) by (split; [simpl; lia | reflexivity]).
  assert (Hvalid : forall j, valid a j -> j = 0%nat \/ j = 3%nat).
  { intros j [Hj Hn]. simpl in Hj.
    destruct j as [|[|[|[|j]]]]; simpl in Hn; try discriminate; try lia; auto. }
  split; [now exists 0%nat|].
  destruct (proj2 (proj2 (proj2 repair_missing_interpolates)) a (ex_intro _ 0%nat Hv0))
    as (b & Hb & Hlen & Hmiss & Hfin).
  exists b. split; [exact Hb|]. split; [exact Hlen|]. split.
  - assert (Hm : missing a 1) by (split; [simpl; lia | reflexivity]).
    destruct (Hmiss 1%nat Hm) as (Hbetween & _ & _).
    apply (Hbetween 0%nat 3%nat).
    + split; [exact Hv0|]. split; [lia|].
      intros j Hj Hlt. destruct (Hvalid j Hj); lia.
    + split; [exact Hv3|]. split; [lia|].
      intros j Hj Hlt. destruct (Hvalid j Hj); lia.
  - apply Hfin.
    + intros j Hj. destruct (Hvalid j Hj) as [-> | ->]; reflexivity.
    + simpl. lia.
Defined.

(** C1, counterexample: the series [inf, nan, -inf] has two valid entries,
    and the repair leaves its missing entry NaN. *)
Lemma repair_missing_keeps_nan :
  (exists j, valid series_inf_nan_minf j) /\
  exists b, repair_missing series_inf_nan_minf = Ok b /\ missing b 1.
Proof.
  split.
  - exists 0%nat. split; [simpl; lia | reflexivity].
  - exists series_inf_nan_minf. split; [vm_compute; reflexivity|].
    split; [simpl; lia | reflexivity].
Qed.

(** C10.  For every series with a valid entry, [repair_missing] returns a
    series of the same length that holds, at every position of a valid
    entry, that very entry: only the positions of missing entries are
    written. *)
Theorem repair_missing_frame (a : list float) :
  (exists j, valid a j) ->
  exists b,
    repair_missing a = Ok b /\ List.length b = List.length a /\
    (forall i, valid a i -> nth i b nan = nth i a nan) /\
    (forall i, (i < List.length a)%nat -> nth i b nan <> nth i a nan -> missing a i).
Proof.
  intro Hex.
  exists (fill_from 0 (interp1 (points_from 0 a)) a).
  split; [now apply repair_missing_ok|].
  split; [apply fill_from_length|].
  split.
  - intros i [Hi Hn]. rewrite fill_from_nth by assumption. now rewrite Hn.
  - intros i Hi Hneq. split; [assumption|].
    rewrite fill_from_nth in Hneq by assumption.
    destruct (isnan (nth i a nan)); [reflexivity | congruence].
Qed.

Lemma repair_missing_frame_witness :
  (exists j, valid series_10_nan_20 j) /\
  exists b, repair_missing series_10_nan_20 = Ok b /\
            List.length b = List.length series_10_nan_20 /\
            nth 0 b nan = of_Z 10 /\ nth 2 b nan = of_Z 20.
Proof.
  set (a := series_10_nan_20).
  assert (Hv0 : valid a 0) by (split; [simpl; lia | reflexivity]).
  assert (Hv2 : valid a 2) by (split; [simpl; lia | reflexivity]).
  split; [now exists 0%nat|].
  destruct (repair_missing_frame a (ex_intro _ 0%nat Hv0)) as (b & Hb & Hlen & Hkeep & _).
  exists b. split; [exact Hb|]. split; [exact Hlen|].
  split; [exact (Hkeep 0%nat Hv0) | exact (Hkeep 2%nat Hv2)].
Defined.

(** *** The marker of a missing reading *)

(** C2, the defect.  On a report whose second sample carries the marker
    "No Solution", [patt_thick] finds two thickness entries and no missing
    one, while three radii and three angles are found: [parse] returns a
    thickness series shorter than the radius and angle series.  Spelled
    "No Soution", the marker gives the third, missing, entry, which is then
    repaired. *)
Theorem no_solution_marker_is_skipped :
  findall patt_thick report_no_solution = ["100.5"; "110.5"] /\
  List.length (findall patt_rad report_no_solution) = 3%nat /\
  List.length (findall patt_theta report_no_solution) = 3%nat /\
  (exists m, parse report_no_solution = Ok m /\
             List.length (rad_arr m) = 3%nat /\ List.length (theta_arr m) = 3%nat /\
             List.length (thick_arr m) = 2%nat) /\
  findall patt_thick report_no_soution = ["100.5"; ""; "110.5"] /\
  (exists m, parse report_no_soution = Ok m /\
             List.length (rad_arr m) = 3%nat /\ List.length (theta_arr m) = 3%nat /\
             List.length (thick_arr m) = 3%nat /\
             Forall (fun v => isnan v = false) (thick_arr m)).
Proof.
  split; [vm_compute; reflexivity|].
  split; [vm_compute; reflexivity|].
  split; [vm_compute; reflexivity|].
  split.
  { eexists. split; [vm_compute; reflexivity|]. repeat split. }
  split; [vm_compute; reflexivity|].
  eexists. split; [vm_compute; reflexivity|].
  repeat split. repeat constructor.
Qed.

(** *** Lengths of the three series *)

(** C3, counterexample: [parse] returns a map with two radii, one angle and
    one thickness. *)
Lemma parse_returns_unequal_lengths :
  exists m, parse report_truncated = Ok m /\
            List.length (rad_arr m) = 2%nat /\
            List.length (theta_arr m) = 1%nat /\
            List.length (thick_arr m) = 1%nat.
Proof. eexists. split; [vm_compute; reflexivity|]. repeat split. Qed.

(** C3, as amended.  [parse] compares no lengths: the map it returns has as
    many radii, angles and thickness values as [patt_rad], [patt_theta] and
    [patt_thick] have matches in the text, so the three lengths agree if and
    only if the three numbers of matches do. *)
Theorem parse_series_lengths (text : string) (m : EllipMap) :
  parse text = Ok m ->
  List.length (rad_arr m) = List.length (findall patt_rad text) /\
  List.length (theta_arr m) = List.length (findall patt_theta text) /\
  List.length (thick_arr m) = List.length (findall patt_thick text) /\
  ((List.length (rad_arr m) = List.length (theta_arr m) /\
    List.length (theta_arr m) = List.length (thick_arr m)) <->
   (List.length (findall patt_rad text) = List.length (findall patt_theta text) /\
    List.length (findall patt_theta text) = List.length (findall patt_thick text))).
Proof.
  intro H. destruct (parse_lengths text m H) as (H1 & H2 & H3).
  split; [assumption|]. split; [assumption|]. split; [assumption|].
  split; intros [Ha Hb]; split; congruence.
Qed.

Lemma parse_series_lengths_witness :
  exists m, parse report_no_soution = Ok m /\
            List.length (rad_arr m) = List.length (findall patt_rad report_no_soution) /\
            List.length (theta_arr m) = List.length (findall patt_theta report_no_soution) /\
            List.length (thick_arr m) = List.length (findall patt_thick report_no_soution).
Proof.
  assert (H : is_ok (parse report_no_soution) = true) by (vm_compute; reflexivity).
  destruct (parse report_no_soution) as [m|e] eqn:E; [|discriminate].
  exists m. split; [reflexivity|].
  destruct (parse_series_lengths report_no_soution m E) as (H1 & H2 & H3 & _).
  repeat split; assumption.
Defined.

(** *** A report without the label "Mean" *)

(** C8, counterexample: in a text with neither label the failure is that of
    the search for "StdDev", which comes first. *)
Lemma parse_fails_at_stddev_first :
  ~ occurs "Mean" text_without_labels /\
  parse text_without_labels = Raise (At_stddev, AttributeError).
Proof.
  split; [|vm_compute; reflexivity].
  rewrite <- occursb_spec. vm_compute. discriminate.
Qed.

(** C8, as amended.  For every text in which "Mean" does not occur [parse]
    raises and returns no map.  When the statement for "StdDev" has
    returned, the exception is the AttributeError of calling [group] on the
    [None] that [re.search] gives for [patt_mean]; otherwise it is the
    exception of the statement for "StdDev". *)
Theorem parse_without_mean (text : string) :
  ~ occurs "Mean" text ->
  (exists e, parse text = Raise e) /\
  (forall v, search_float patt_stddev text = Ok v ->
             parse text = Raise (At_mean, AttributeError)) /\
  (forall e, search_float patt_stddev text = Raise e ->
             parse text = Raise (At_stddev, e)).
Proof.
  intro H.
  assert (Hmean : search_float patt_mean text = Raise AttributeError)
    by (apply search_float_absent; exact H).
  unfold parse. rewrite Hmean.
  destruct (search_float patt_stddev text) as [v|e]; cbn [at_site bind].
  - split; [eauto|]. split; [intros; reflexivity | intros; discriminate].
  - split; [eauto|]. split; [intros; discriminate|]. intros e' E. now inversion E.
Qed.

Lemma parse_without_mean_witness :
  ~ occurs "Mean" text_without_mean /\
  parse text_without_mean = Raise (At_mean, AttributeError).
Proof.
  assert (H : ~ occurs "Mean" text_without_mean).
  { rewrite <- occursb_spec. vm_compute. discriminate. }
  split; [exact H|].
  destruct (parse_without_mean text_without_mean H) as (_ & Hmean & _).
  apply (Hmean (S754_finite false 6755399441055744 (-52))).
  vm_compute. reflexivity.
Defined.

End ParserClaims.

(** ** The spatial interpolator: statements on [interp_grid] *)

Module InterpClaims.

Import Interp InterpSpec ResultFacts InterpFacts.
Local Open Scope R_scope.

Section AnyInterpolator.

Variable RBF : list (R * R) -> list R -> result pyexc (R * R -> R).

(** *** The value array does not depend on the mode *)

(** C5.  With the polar flag set and with it cleared [interp_grid] raises
    the same exception or returns the same value array.  In both modes
    the interpolant is fitted to the Cartesian pairs [(x, y)] of the
    samples, and the value array holds its values at the nodes of the
    Cartesian mesh. *)
Theorem value_grid_same_in_both_modes (self : Samples) (P : Z) :
  match interp_grid RBF self true P, interp_grid RBF self false P with
  | Ok (_, _, z_polar), Ok (_, _, z_cartesian) => z_polar = z_cartesian
  | Raise e_polar, Raise e_cartesian => e_polar = e_cartesian
  | _, _ => False
  end /\
  forall polar g1 g2 z,
    interp_grid RBF self polar P = Ok (g1, g2, z) ->
    exists s, runs RBF self P s /\ z = z_grid s /\
      forall i j, (i < Z.to_nat P)%nat -> (j < Z.to_nat P)%nat ->
        nth j (nth i z []) 0
        = st_rbf s (nth j (nth i (x_grid s) []) 0, nth j (nth i (y_grid s) []) 0).
Proof.
  split.
  - pose proof (interp_grid_modes RBF self P) as H.
    destruct (interp_grid RBF self true P) as [[[r_grid theta_grid] z_polar]|e_polar];
      destruct (interp_grid RBF self false P) as [[[xg yg] z]|e];
      try contradiction; [exact (proj1 H) | exact H].
  - intros polar g1 g2 z H.
    destruct (interp_grid_inv RBF self polar P _ H) as (s & Hs & Hout).
    exists s. split; [assumption|].
    assert (Hz : z = z_grid s).
    { unfold output in Hout. destruct polar; now inversion Hout. }
    split; [assumption|].
    intros i j Hi Hj. rewrite Hz.
    destruct (stages_shapes RBF self P s Hs) as (_ & Hlx & Hly & _).
    apply z_grid_node; lia.
Qed.

(** *** The polar transform of the mesh *)


(** *** Shape and extent of the mesh *)

(** C7, as amended.  On samples with as many radii as angles, at least
    one, to which the interpolant is fitted, and for a resolution [P >= 1],
    [interp_grid] returns two coordinate arrays and a value array of [P]
    rows of [P] entries.  The Cartesian mesh has its node of row [i] and
    column [j] at [min(x) + j * (max(x) - min(x)) / (P - 1)] and
    [min(y) + i * (max(y) - min(y)) / (P - 1)], where [x] and [y] are the
    Cartesian coordinates of the samples: every node lies in their bounding
    box, the mesh starts at [min(x)] and [min(y)], and it ends at [max(x)]
    and [max(y)] when [P >= 2]. *)
Theorem mesh_shape_and_extent (self : Samples) (polar : bool) (P : Z)
        (rbf : R * R -> R) :
  let x := map2 Rmult (rad_arr self) (map cos (theta_arr self)) in
  let y := map2 Rmult (rad_arr self) (map sin (theta_arr self)) in
  let n := Z.to_nat P in
  (1 <= P)%Z ->
  length (rad_arr self) = length (theta_arr self) -> rad_arr self <> [] ->
  RBF (combine x y) (thick_arr self) = Ok rbf ->
  exists g1 g2 z min_x max_x min_y max_y x_grid y_grid,
    interp_grid RBF self polar P = Ok (g1, g2, z) /\
    has_shape g1 n n /\ has_shape g2 n n /\ has_shape z n n /\
    is_min x min_x /\ is_max x max_x /\ is_min y min_y /\ is_max y max_y /\
    interp_grid RBF self false P = Ok (x_grid, y_grid, z) /\
    (forall i j, (i < n)%nat -> (j < n)%nat ->
       nth j (nth i x_grid []) 0 = min_x + INR j * ((max_x - min_x) / INR (n - 1)) /\
       nth j (nth i y_grid []) 0 = min_y + INR i * ((max_y - min_y) / INR (n - 1)) /\
       min_x <= nth j (nth i x_grid []) 0 <= max_x /\
       min_y <= nth j (nth i y_grid []) 0 <= max_y) /\
    (forall i, (i < n)%nat ->
       nth 0 (nth i x_grid []) 0 = min_x /\ nth i (nth 0 y_grid []) 0 = min_y) /\
    ((2 <= P)%Z -> forall i, (i < n)%nat ->
       nth (n - 1) (nth i x_grid []) 0 = max_x /\
       nth i (nth (n - 1) y_grid []) 0 = max_y).
Proof.
  intros x y n HP Hlen Hne Hrbf.
  destruct (runs_exists RBF self P rbf ltac:(lia) Hlen Hne Hrbf)
    as (s & Hs & Hsx & Hsy & _).
  pose proof (interp_grid_runs RBF self polar P s Hs) as Hrun.
  pose proof (interp_grid_runs RBF self false P s Hs) as Hcart.
  pose proof (output_shapes RBF self P s polar Hs) as Hshape.
  destruct (stages_shapes RBF self P s Hs) as (_ & Hlx & Hly & _).
  pose proof Hs as (_ & _ & _ & Hminx & Hmaxx & Hxs & Hminy & Hmaxy & Hys).
  apply linspace_ok in Hxs, Hys.
  destruct Hxs as (_ & _ & Hxs), Hys as (_ & _ & Hys).
  apply py_min_spec in Hminx, Hminy. apply py_max_spec in Hmaxx, Hmaxy.
  rewrite Hsx in Hminx, Hmaxx. rewrite Hsy in Hminy, Hmaxy.
  fold x in Hminx, Hmaxx. fold y in Hminy, Hmaxy.
  assert (Hz : snd (output self P polar s) = z_grid s)
    by (unfold output; now destruct polar).
  destruct (output self P polar s) as [[g1 g2] z]. cbn [snd] in Hz. subst z.
  destruct Hshape as (Hs1 & Hs2 & Hs3).
  exists g1, g2, (z_grid s), (st_min_x s), (st_max_x s), (st_min_y s), (st_max_y s),
         (x_grid s), (y_grid s).
  split; [exact Hrun|].
  split; [assumption|]. split; [assumption|]. split; [assumption|].
  split; [assumption|]. split; [assumption|].
  split; [assumption|]. split; [assumption|].
  split; [exact Hcart|].
  assert (Hxle : st_min_x s <= st_max_x s) by (apply Hmaxx, Hminx).
  assert (Hyle : st_min_y s <= st_max_y s) by (apply Hmaxy, Hminy).
  assert (Hnode : forall i j, (i < n)%nat -> (j < n)%nat ->
            nth j (nth i (x_grid s) []) 0 = node (st_min_x s) (st_max_x s) n j /\
            nth j (nth i (y_grid s) []) 0 = node (st_min_y s) (st_max_y s) n i).
  { intros i j Hi Hj.
    rewrite x_grid_node, y_grid_node by (fold n in Hlx, Hly; lia).
    split; [now apply Hxs | now apply Hys]. }
  split; [|split].
  - intros i j Hi Hj. destruct (Hnode i j Hi Hj) as [-> ->].
    split; [reflexivity|]. split; [reflexivity|].
    split; now apply node_between.
  - intros i Hi. assert (H0 : (0 < n)%nat) by lia.
    destruct (Hnode i 0%nat Hi H0) as [-> _].
    destruct (Hnode 0%nat i H0 Hi) as [_ ->].
    now rewrite !node_first.
  - intros H2 i Hi. assert (Hn : (n - 1 < n)%nat) by lia.
    destruct (Hnode i (n - 1)%nat Hi Hn) as [-> _].
    destruct (Hnode (n - 1)%nat i Hn Hi) as [_ ->].
    rewrite !node_last by (subst n; lia). tauto.
Qed.

(** *** Resolutions below one *)

(** C9, as amended.  [interp_grid] checks no resolution: for every [P < 1]
    the statements before [np.linspace] run first, and a failure of theirs
    is the failure of [interp_grid].  When the Cartesian coordinates cannot
    be broadcast the exception is that of the product; when they can, both
    products return, and a failure of the fit is raised as it is; when the
    interpolant is fitted to no sample at all the exception is that of
    [min].  Only then is the resolution read: [P < 0] raises the ValueError
    of [np.linspace], and [P = 0] returns three empty arrays. *)
Theorem resolution_below_one (self : Samples) (polar : bool) (P : Z) :
  (P < 1)%Z ->
  ((P < 0)%Z -> exists e, interp_grid RBF self polar P = Raise e) /\
  (forall e,
     broadcast Rmult (rad_arr self) (map cos (theta_arr self)) = Raise e ->
     interp_grid RBF self polar P = Raise (At_cartesian, e)) /\
  (forall x,
     broadcast Rmult (rad_arr self) (map cos (theta_arr self)) = Ok x ->
     exists y, broadcast Rmult (rad_arr self) (map sin (theta_arr self)) = Ok y) /\
  (forall x y e,
     broadcast Rmult (rad_arr self) (map cos (theta_arr self)) = Ok x ->
     broadcast Rmult (rad_arr self) (map sin (theta_arr self)) = Ok y ->
     RBF (combine x y) (thick_arr self) = Raise e ->
     interp_grid RBF self polar P = Raise (At_rbf, e)) /\
  forall x y rbf,
    broadcast Rmult (rad_arr self) (map cos (theta_arr self)) = Ok x ->
    broadcast Rmult (rad_arr self) (map sin (theta_arr self)) = Ok y ->
    RBF (combine x y) (thick_arr self) = Ok rbf ->
    (x = [] ->
     exists msg, interp_grid RBF self polar P = Raise (At_bounds, ValueError msg)) /\
    (x <> [] ->
     ((P < 0)%Z ->
      interp_grid RBF self polar P
      = Raise (At_linspace,
               ValueError ("Number of samples, " ++ NilZero.string_of_int (Z.to_int P)
                           ++ ", must be non-negative.")%string)) /\
     (P = 0%Z -> interp_grid RBF self polar P = Ok ([], [], []))).
Proof.
  intro HP. split; [|split; [|split; [|split]]].
  - intro Hneg.
    destruct (interp_grid RBF self polar P) as [out|e] eqn:E; [|eauto].
    exfalso. destruct (interp_grid_inv RBF self polar P _ E) as (s & Hs & _).
    destruct (stages_shapes RBF self P s Hs) as (H0 & _). lia.
  - intros e He. unfold interp_grid. now rewrite He.
  - intros x. unfold broadcast. rewrite !length_map.
    destruct (length (rad_arr self) =? length (theta_arr self))%nat; [eauto|].
    destruct (rad_arr self) as [|u [|u' a]]; destruct (theta_arr self) as [|v [|v' b]];
      simpl; eauto; discriminate.
  - intros x y e Hx Hy He. unfold interp_grid.
    rewrite Hx, Hy; cbn [at_site bind]. now rewrite He.
  - intros x y rbf Hx Hy Hrbf. split.
    + intros ->. unfold interp_grid.
      rewrite Hx, Hy; cbn [at_site bind]. rewrite Hrbf; cbn [at_site bind py_min].
      eauto.
    + intro Hne.
      destruct (py_min_nonempty x Hne) as [min_x Hmin].
      destruct (py_max_nonempty x Hne) as [max_x Hmax].
      assert (Hney : y <> []).
      { assert (Hlen : length (map cos (theta_arr self)) = length (map sin (theta_arr self)))
          by now rewrite !length_map.
        pose proof (broadcast_length Rmult Rmult _ _ _ x y Hlen Hx Hy) as Hl.
        destruct x; [congruence|]. destruct y; [discriminate | congruence]. }
      destruct (py_min_nonempty y Hney) as [min_y Hminy].
      destruct (py_max_nonempty y Hney) as [max_y Hmaxy].
      unfold interp_grid.
      rewrite Hx, Hy; cbn [at_site bind]. rewrite Hrbf; cbn [at_site bind].
      rewrite Hmin, Hmax; cbn [at_site bind].
      split.
      * intro Hneg. now rewrite linspace_negative.
      * intros ->. rewrite linspace_zero; cbn [at_site bind].
        rewrite Hminy, Hmaxy; cbn [at_site bind].
        rewrite linspace_zero; cbn [at_site bind].
        destruct polar; reflexivity.
Qed.

End AnyInterpolator.

(** *** On three samples *)

Lemma three_samples_mesh P xs :
  linspace 0 1 P = Ok xs ->
  forall polar,
  exists s, runs rbf_three_samples three_samples P s /\
            st_xs s = xs /\ st_ys s = xs /\
            interp_grid rbf_three_samples three_samples polar P
            = Ok (output three_samples P polar s).
Proof.
  intros Hxs polar. destruct (three_samples_runs P xs Hxs) as (s & Hs & H1 & H2).
  exists s. split; [assumption|]. split; [assumption|]. split; [assumption|].
  now apply interp_grid_runs.
Qed.

Lemma value_grid_same_in_both_modes_witness :
  exists g1 g2 z s,
    interp_grid rbf_three_samples three_samples true 1 = Ok (g1, g2, z) /\
    runs rbf_three_samples three_samples 1 s /\ z = z_grid s.
Proof.
  destruct (three_samples_mesh 1 [0] (linspace_one 0 1) true) as (s & _ & _ & _ & Hrun).
  destruct (output three_samples 1 true s) as [[g1 g2] z].
  destruct (proj2 (value_grid_same_in_both_modes rbf_three_samples three_samples 1)
              true g1 g2 z Hrun) as (s' & Hs' & Hz & _).
  exists g1, g2, z, s'. split; [exact Hrun|]. split; [exact Hs' | exact Hz].
Defined.



(** C7, counterexample: at resolution 1 the mesh over the three samples is
    the single node (0, 0), while the largest [x] of the samples is 1. *)
Lemma single_node_mesh_misses_max :
  map2 Rmult (rad_arr three_samples) (map cos (theta_arr three_samples))
  = [0; 1; 0] /\
  is_max [0; 1; 0] 1 /\
  exists z, interp_grid rbf_three_samples three_samples false 1 = Ok ([[0]], [[0]], z).
Proof.
  split; [exact three_samples_x|]. split.
  - apply py_max_spec. apply three_samples_bounds.
  - destruct (three_samples_mesh 1 [0] (linspace_one 0 1) false)
      as (s & _ & Hsx & Hsy & Hrun).
    exists (z_grid s). rewrite Hrun.
    unfold output, x_grid, y_grid. rewrite Hsx, Hsy. reflexivity.
Qed.

Lemma mesh_shape_and_extent_witness :
  exists g1 g2 z,
    interp_grid rbf_three_samples three_samples true 2 = Ok (g1, g2, z) /\
    has_shape g1 2 2 /\ has_shape g2 2 2 /\ has_shape z 2 2.
Proof.
  destruct three_samples_fit as [rbf Hrbf].
  destruct (mesh_shape_and_extent rbf_three_samples three_samples true 2 rbf
              ltac:(lia) eq_refl ltac:(discriminate) Hrbf)
    as (g1 & g2 & z & _ & _ & _ & _ & _ & _ & Hrun & H1 & H2 & H3 & _).
  exists g1, g2, z. split; [exact Hrun|].
  split; [exact H1|]. split; [exact H2 | exact H3].
Defined.

(** C9, counterexample: at resolution 0 [interp_grid] returns three empty
    arrays. *)
Lemma zero_resolution_returns :
  interp_grid rbf_three_samples three_samples false 0 = Ok ([], [], []).
Proof.
  destruct (three_samples_mesh 0 [] (linspace_zero 0 1) false)
    as (s & _ & Hsx & Hsy & Hrun).
  rewrite Hrun. unfold output, x_grid, y_grid, z_grid. rewrite Hsx, Hsy. reflexivity.
Qed.

Lemma resolution_below_one_witness :
  (0 < 1)%Z /\
  interp_grid rbf_three_samples three_samples true 0 = Ok ([], [], []) /\
  interp_grid rbf_three_samples three_samples true (-1)
  = Raise (At_linspace, ValueError "Number of samples, -1, must be non-negative.").
Proof.
  destruct three_samples_fit as [rbf Hrbf].
  assert (Hne : map2 Rmult (rad_arr three_samples) (map cos (theta_arr three_samples)) <> [])
    by (rewrite three_samples_x; discriminate).
  pose proof (broadcast_same_length Rmult (rad_arr three_samples)
                (map cos (theta_arr three_samples)) eq_refl) as Hbx.
  pose proof (broadcast_same_length Rmult (rad_arr three_samples)
                (map sin (theta_arr three_samples)) eq_refl) as Hby.
  split; [lia|]. split.
  - destruct (resolution_below_one rbf_three_samples three_samples true 0 ltac:(lia))
      as (_ & _ & _ & _ & H).
    destruct (H _ _ rbf Hbx Hby Hrbf) as (_ & H0).
    exact (proj2 (H0 Hne) eq_refl).
  - destruct (resolution_below_one rbf_three_samples three_samples true (-1) ltac:(lia))
      as (_ & _ & _ & _ & H).
    destruct (H _ _ rbf Hbx Hby Hrbf) as (_ & H0).
    apply (proj1 (H0 Hne)). lia.
Defined.

End InterpClaims.

(** ** The report parser: further properties of [__init__] *)

Module ParserProperties.

Import Regex PyFloat Numpy Parser Spec Layout ResultFacts RepairFacts FloatFacts.
Import ParserFacts RegexFacts.
Local Open Scope string_scope.

Lemma after_first_split lbl : forall text rest,
  after_first lbl text = Some rest -> exists pre, text = pre ++ lbl ++ rest.
Proof.
  induction text as [|a text IH]; intros rest H; cbn [after_first] in H.
  - destruct (strip_prefix lbl "") as [rest'|] eqn:E; [|discriminate].
    inversion H; subst. exists "". exact (strip_prefix_app _ _ _ E).
  - destruct (strip_prefix lbl (String a text)) as [rest'|] eqn:E.
    + inversion H; subst. exists "". exact (strip_prefix_app _ _ _ E).
    + destruct (IH _ H) as [pre ->]. now exists (String a pre).
Qed.

Lemma search_float_token lbl text ws tok c post :
  all_chars is_space ws = true ->
  tok <> "" -> all_chars not_space tok = true ->
  is_space c = true ->
  after_first lbl text = Some (ws ++ tok ++ String c post) ->
  search_float (header lbl) text = py_float tok.
Proof.
  intros Hws Hne Htok Hc H. unfold search_float.
  change (header lbl) with (Seq (Lit lbl) header_tail).
  now rewrite (search_after_first lbl header_tail text _ H _
                 (header_tail_token ws tok c post Hws Hne Htok Hc)).
Qed.

(** X1.  The statistics are read from the first occurrence of their label:
    when the text after the first "StdDev" (after the first "Mean") is
    blanks, a token without white space and then a white space character,
    [float(re.search(...).group(1))] is [float] of that token.  So a failure
    of [float] on the token is the failure of [__init__], at the statement
    of the label, and the [stddev] and [mean] of a map that [__init__]
    returns are the values of the two tokens. *)
Theorem header_tokens_are_read
        (text ws1 tok1 post1 ws2 tok2 post2 : string) (c1 c2 : ascii) :
  all_chars is_space ws1 = true -> tok1 <> "" -> all_chars not_space tok1 = true ->
  is_space c1 = true ->
  all_chars is_space ws2 = true -> tok2 <> "" -> all_chars not_space tok2 = true ->
  is_space c2 = true ->
  after_first "StdDev" text = Some (ws1 ++ tok1 ++ String c1 post1) ->
  after_first "Mean" text = Some (ws2 ++ tok2 ++ String c2 post2) ->
  search_float patt_stddev text = py_float tok1 /\
  search_float patt_mean text = py_float tok2 /\
  (forall e, py_float tok1 = Raise e -> parse text = Raise (At_stddev, e)) /\
  (forall v e, py_float tok1 = Ok v -> py_float tok2 = Raise e ->
               parse text = Raise (At_mean, e)) /\
  (forall m, parse text = Ok m ->
             py_float tok1 = Ok (stddev m) /\ py_float tok2 = Ok (mean m)).
Proof.
  intros Hws1 Hne1 Htok1 Hc1 Hws2 Hne2 Htok2 Hc2 H1 H2.
  pose proof (search_float_token "StdDev" text ws1 tok1 c1 post1 Hws1 Hne1 Htok1 Hc1 H1) as Hsd.
  pose proof (search_float_token "Mean" text ws2 tok2 c2 post2 Hws2 Hne2 Htok2 Hc2 H2) as Hmn.
  change (header "StdDev") with patt_stddev in Hsd.
  change (header "Mean") with patt_mean in Hmn.
  split; [exact Hsd|]. split; [exact Hmn|].
  unfold parse. rewrite Hsd, Hmn.
  split; [|split].
  - intros e ->. reflexivity.
  - intros v e -> ->. reflexivity.
  - intros m H. do 6 bind_inv H. inversion H; subst; clear H.
    cbn [stddev mean]. now split.
Qed.

Lemma header_tokens_are_read_witness :
  search_float patt_stddev report_no_soution = py_float "1.5" /\
  search_float patt_mean report_no_soution = py_float "100.25".
Proof.
  refine (let H := header_tokens_are_read report_no_soution
                     " " "1.5" _ " " "100.25" _ " " " " _ _ _ _ _ _ _ _ _ _ in
          conj (proj1 H) (proj1 (proj2 H)));
    try reflexivity; try discriminate.
Defined.

Lemma search_float_dangling lbl text rest :
  all_chars not_space lbl = true ->
  after_first lbl text = Some rest ->
  all_chars not_space rest = true ->
  search_float (header lbl) text = Raise AttributeError.
Proof.
  intros Hlbl H Hrest. unfold search_float.
  now rewrite (search_header_dangling lbl text rest Hlbl H Hrest).
Qed.

Lemma search_float_trailing lbl text ws tok :
  after_first lbl text = Some (ws ++ tok) ->
  ws <> "" -> all_chars is_space ws = true -> all_chars not_space tok = true ->
  search_float (header lbl) text = Raise (ValueError "").
Proof.
  intros H Hne Hws Htok. unfold search_float.
  change (header lbl) with (Seq (Lit lbl) header_tail).
  now rewrite (search_after_first lbl header_tail text _ H _
                 (header_tail_trailing ws tok Hne Hws Htok)).
Qed.

(** X2.  A statistic at the very end of the text is not read: the pattern
    wants a white space character after the value.  When no white space
    follows the first "StdDev" at all, [re.search] finds nothing and
    [__init__] raises the AttributeError of [None.group]; when blanks, and
    then no more white space, follow it, [\s*] gives back its last blank,
    group 1 is empty and [__init__] raises the ValueError of [float('')].
    The same holds of "Mean". *)
Theorem header_value_without_terminator (text rest : string) :
  (after_first "StdDev" text = Some rest ->
   (all_chars not_space rest = true ->
    search_float patt_stddev text = Raise AttributeError /\
    parse text = Raise (At_stddev, AttributeError)) /\
   (forall ws tok, rest = ws ++ tok -> ws <> "" ->
      all_chars is_space ws = true -> all_chars not_space tok = true ->
      search_float patt_stddev text = Raise (ValueError "") /\
      parse text = Raise (At_stddev, ValueError ""))) /\
  (after_first "Mean" text = Some rest ->
   (all_chars not_space rest = true ->
    search_float patt_mean text = Raise AttributeError) /\
   (forall ws tok, rest = ws ++ tok -> ws <> "" ->
      all_chars is_space ws = true -> all_chars not_space tok = true ->
      search_float patt_mean text = Raise (ValueError ""))).
Proof.
  split; intro H; split.
  - intro Hrest.
    pose proof (search_float_dangling "StdDev" text rest eq_refl H Hrest) as Hs.
    change (header "StdDev") with patt_stddev in Hs.
    split; [exact Hs|]. unfold parse. now rewrite Hs.
  - intros ws tok -> Hne Hws Htok.
    pose proof (search_float_trailing "StdDev" text ws tok H Hne Hws Htok) as Hs.
    change (header "StdDev") with patt_stddev in Hs.
    split; [exact Hs|]. unfold parse. now rewrite Hs.
  - intro Hrest.
    exact (search_float_dangling "Mean" text rest eq_refl H Hrest).
  - intros ws tok -> Hne Hws Htok.
    exact (search_float_trailing "Mean" text ws tok H Hne Hws Htok).
Qed.

Lemma header_value_without_terminator_witness :
  parse "StdDev1.5" = Raise (At_stddev, AttributeError) /\
  parse "Mean 100.25 StdDev 1.5" = Raise (At_stddev, ValueError "").
Proof.
  split.
  - exact (proj2 (proj1 (proj1 (header_value_without_terminator "StdDev1.5" "1.5") eq_refl)
                    eq_refl)).
  - exact (proj2 (proj2 (proj1 (header_value_without_terminator
                                  "Mean 100.25 StdDev 1.5" " 1.5") eq_refl)
                    " " "1.5" eq_refl ltac:(discriminate) eq_refl eq_refl)).
Defined.

(** X3.  [re.findall] takes the fields in the order of the text: when the
    text after the first "R=" is blanks, a value without comma or line feed
    that does not begin with a blank, and a comma, the list for [patt_rad]
    is that value followed by the list for the text after the comma.  The
    same holds of "Theta=" and, in a text without the marker "No Soution",
    of "Thick1=". *)
Theorem findall_takes_first_field (text ws tok post : string) :
  all_chars is_space ws = true ->
  all_chars field_char tok = true -> starts_with is_space tok = false ->
  (after_first "R=" text = Some (ws ++ tok ++ "," ++ post) ->
   findall patt_rad text = (tok :: findall patt_rad post)%list) /\
  (after_first "Theta=" text = Some (ws ++ tok ++ "," ++ post) ->
   findall patt_theta text = (tok :: findall patt_theta post)%list) /\
  (~ occurs "No Soution" text ->
   after_first "Thick1=" text = Some (ws ++ tok ++ "," ++ post) ->
   findall patt_thick text = (tok :: findall patt_thick post)%list).
Proof.
  intros Hws Htok Hstart. split; [|split].
  - exact (findall_field_first "R=" text ws tok post Hws Htok Hstart).
  - exact (findall_field_first "Theta=" text ws tok post Hws Htok Hstart).
  - intros Hno H.
    assert (Hpost : ~ occurs "No Soution" post).
    { intro Ho. apply Hno. destruct (after_first_split _ _ _ H) as [pre ->].
      apply occurs_app_r, (occurs_app_r _ "Thick1="), occurs_app_r, occurs_app_r.
      now apply (occurs_app_r _ ","). }
    unfold findall, patt_thick.
    rewrite !(findall_alt_absent _ "No Soution") by assumption.
    exact (findall_field_first "Thick1=" text ws tok post Hws Htok Hstart H).
Qed.

Lemma findall_takes_first_field_witness :
  findall patt_rad "Stats R=  0.5, Theta= 90, Thick1= 100.5, R= 1.0, "
  = ("0.5" :: findall patt_rad " Theta= 90, Thick1= 100.5, R= 1.0, ")%list.
Proof.
  exact (proj1 (findall_takes_first_field
                  "Stats R=  0.5, Theta= 90, Thick1= 100.5, R= 1.0, "
                  "  " "0.5" " Theta= 90, Thick1= 100.5, R= 1.0, "
                  eq_refl eq_refl eq_refl) eq_refl).
Defined.

Lemma repair_missing_nil :
  repair_missing [] = Raise (ValueError "array of sample points is empty").
Proof. reflexivity. Qed.

(** X4.  A text with no "Thick1=" and no "No Soution" has no thickness
    match, and [__init__] raises on it: when the statements before the
    repair return, the exception is the ValueError of [np.interp] on an
    empty array of sample points. *)
Theorem parse_without_thickness (text : string) :
  ~ occurs "Thick1=" text -> ~ occurs "No Soution" text ->
  findall patt_thick text = [] /\
  (exists e, parse text = Raise e) /\
  (forall sd mn rs ts,
     search_float patt_stddev text = Ok sd -> search_float patt_mean text = Ok mn ->
     astype_float (array (findall patt_rad text)) = Ok rs ->
     astype_float (array (findall patt_theta text)) = Ok ts ->
     parse text = Raise (At_interp, ValueError "array of sample points is empty")).
Proof.
  intros H1 H2.
  assert (Hnone : findall patt_thick text = []).
  { unfold findall, patt_thick.
    rewrite (findall_alt_absent _ "No Soution") by assumption.
    now apply findall_absent. }
  split; [exact Hnone|].
  unfold parse. rewrite Hnone.
  destruct (search_float patt_stddev text) as [sd|e1]; cbn [at_site bind].
  2:{ split; [eauto | intros; discriminate]. }
  destruct (search_float patt_mean text) as [mn|e2]; cbn [at_site bind].
  2:{ split; [eauto | intros; discriminate]. }
  destruct (astype_float (array (findall patt_rad text))) as [rs|e3]; cbn [at_site bind].
  2:{ split; [eauto | intros; discriminate]. }
  destruct (astype_float (array (findall patt_theta text))) as [ts|e4]; cbn [at_site bind].
  2:{ split; [eauto | intros; discriminate]. }
  split; [eexists|intros]; reflexivity.
Qed.

Lemma parse_without_thickness_witness :
  parse "StdDev 1.5 Mean 100.25 R= 0.0, Theta= 0.0, "
  = Raise (At_interp, ValueError "array of sample points is empty").
Proof.
  refine (proj2 (proj2 (parse_without_thickness
                          "StdDev 1.5 Mean 100.25 R= 0.0, Theta= 0.0, " _ _))
            _ _ _ _ _ _ _ _);
    try (rewrite <- occursb_spec; vm_compute; discriminate);
    vm_compute; reflexivity.
Defined.

(** X10.  The script's thickness pattern (line 22 of extract_pdfdata.py,
    without the alternative for the marker) and the pattern of the class
    find the same matches in every text in which "No Soution" does not
    occur. *)
Theorem script_pattern_agrees_without_marker (text : string) :
  ~ occurs "No Soution" text ->
  findall Parser.patt_thick text = findall Script.patt_thick text.
Proof.
  intro H. unfold findall, Parser.patt_thick.
  now rewrite (findall_alt_absent _ "No Soution").
Qed.

Lemma script_pattern_agrees_without_marker_witness :
  findall Parser.patt_thick report_no_solution
  = findall Script.patt_thick report_no_solution.
Proof.
  apply script_pattern_agrees_without_marker.
  rewrite <- occursb_spec. vm_compute. discriminate.
Defined.

(** *** The unicode array of the thickness matches *)

Lemma mapM_map {E A B C} (f : B -> result E C) (g : A -> B) : forall l,
  mapM f (map g l) = mapM (fun x => f (g x)) l.
Proof. induction l as [|a l IH]; simpl; [reflexivity | now rewrite IH]. Qed.

Lemma mapM_ext {E A B} (f g : A -> result E B) : forall l,
  (forall x, In x l -> f x = g x) -> mapM f l = mapM g l.
Proof.
  induction l as [|a l IH]; intro H; simpl; [reflexivity|].
  rewrite (H a) by now left.
  rewrite IH by (intros x Hx; apply H; now right). reflexivity.
Qed.

Lemma mapM_raises {E A B} (f : A -> result E B) : forall l x,
  In x l -> is_ok (f x) = false -> is_ok (mapM f l) = false.
Proof.
  induction l as [|a l IH]; intros x Hin Hx; [destruct Hin|].
  simpl. destruct Hin as [-> | Hin].
  - destruct (f x); [discriminate | reflexivity].
  - destruct (f a); [|reflexivity]. simpl.
    specialize (IH x Hin Hx). destruct (mapM f l); [discriminate | reflexivity].
Qed.

Lemma mapM_py_float_error : forall l e,
  mapM py_float l = Raise e -> exists t, In t l /\ e = ValueError t.
Proof.
  induction l as [|a l IH]; intros e H; simpl in H; [discriminate|].
  unfold py_float at 1 in H. destruct (parse_float a) as [v|]; simpl in H.
  - destruct (mapM py_float l) as [vs|e'] eqn:E; simpl in H; [discriminate|].
    inversion H; subst e'. destruct (IH e eq_refl) as (t & Ht & ->).
    exists t. split; [now right | reflexivity].
  - inversion H. exists a. split; [now left | reflexivity].
Qed.

Lemma max_length_bound n : forall l : list string,
  (forall t, In t l -> (String.length t < n)%nat) -> (0 < n)%nat ->
  (fold_right (fun t m => Nat.max (String.length t) m) 0 l < n)%nat.
Proof.
  induction l as [|a l IH]; intros H Hn; simpl; [exact Hn|].
  assert (Ha : (String.length a < n)%nat) by (apply H; now left).
  assert (Hl : (fold_right (fun t m => Nat.max (String.length t) m) 0 l < n)%nat)
    by (apply IH; [intros t Ht; apply H; now right | exact Hn]).
  lia.
Qed.

Lemma max_length_reached : forall (l : list string) t,
  In t l -> (String.length t <= fold_right (fun t m => Nat.max (String.length t) m) 0%nat l)%nat.
Proof.
  induction l as [|a l IH]; intros t Hin; [destruct Hin|].
  simpl. destruct Hin as [-> | Hin]; [lia|]. specialize (IH t Hin). lia.
Qed.

Lemma nan_cut_short w :
  (w < 3)%nat -> is_ok (py_float (substring 0 w "nan")) = false.
Proof.
  intro H. destruct w as [|[|[|w]]]; [reflexivity | reflexivity | reflexivity | lia].
Qed.

Lemma nan_kept w : (3 <= w)%nat -> substring 0 w "nan" = "nan".
Proof.
  intro H. destruct w as [|[|[|w]]]; try lia. simpl. now destruct w.
Qed.

(** X5.  [matches_thick[matches_thick == ''] = np.nan] stores the text
    "nan" cut to the item size of the array, which is the length of the
    longest match.  When a reading is missing and no thickness match has
    three characters, the array holds "na" or "n" in its place and
    [astype(float)] raises ValueError: [__init__] fails on such a report,
    at that statement when the earlier ones return. *)
Theorem marker_in_narrow_array (text : string) :
  In "" (findall patt_thick text) ->
  (forall t, In t (findall patt_thick text) -> (String.length t < 3)%nat) ->
  (exists msg,
     astype_float (assign_nan_where_empty (array (findall patt_thick text)))
     = Raise (ValueError msg)) /\
  (exists e, parse text = Raise e) /\
  (forall sd mn rs ts,
     search_float patt_stddev text = Ok sd -> search_float patt_mean text = Ok mn ->
     astype_float (array (findall patt_rad text)) = Ok rs ->
     astype_float (array (findall patt_theta text)) = Ok ts ->
     exists msg, parse text = Raise (At_thick, ValueError msg)).
Proof.
  intros Hin Hshort.
  set (ms := findall patt_thick text) in *.
  assert (Hthick : exists msg,
             astype_float (assign_nan_where_empty (array ms)) = Raise (ValueError msg)).
  { assert (Hw : (width (array ms) < 3)%nat).
    { cbn [width array]. pose proof (max_length_bound 3 ms Hshort). lia. }
    assert (Hfail : is_ok (astype_float (assign_nan_where_empty (array ms))) = false).
    { unfold astype_float.
      apply mapM_raises with (x := substring 0 (width (array ms)) "nan").
      - cbn [items assign_nan_where_empty].
        apply in_map_iff. exists "". split; [reflexivity|].
        cbn [items array]. apply in_map_iff. exists "". split; [reflexivity | exact Hin].
      - now apply nan_cut_short. }
    destruct (astype_float (assign_nan_where_empty (array ms))) as [v|e] eqn:E;
      [discriminate|].
    destruct (mapM_py_float_error _ _ E) as (t & _ & ->). eauto. }
  split; [exact Hthick|].
  destruct Hthick as [msg Hmsg].
  unfold parse. fold ms. rewrite Hmsg.
  destruct (search_float patt_stddev text) as [sd|e1]; cbn [at_site bind].
  2:{ split; [eauto | intros; discriminate]. }
  destruct (search_float patt_mean text) as [mn|e2]; cbn [at_site bind].
  2:{ split; [eauto | intros; discriminate]. }
  destruct (astype_float (array (findall patt_rad text))) as [rs|e3]; cbn [at_site bind].
  2:{ split; [eauto | intros; discriminate]. }
  destruct (astype_float (array (findall patt_theta text))) as [ts|e4]; cbn [at_site bind].
  2:{ split; [eauto | intros; discriminate]. }
  split; [eauto | intros; eauto].
Qed.

Lemma marker_in_narrow_array_witness :
  exists msg,
    parse "StdDev 1.5 Mean 100.25 R= 0.0, Theta= 0.0, Thick1= 98, R= 1.0, Theta= 90.0, No Soution "
    = Raise (At_thick, ValueError msg).
Proof.
  refine (proj2 (proj2 (marker_in_narrow_array
    "StdDev 1.5 Mean 100.25 R= 0.0, Theta= 0.0, Thick1= 98, R= 1.0, Theta= 90.0, No Soution "
    _ _)) _ _ _ _ _ _ _ _).
  - vm_compute. auto.
  - vm_compute. intros t [<- | [<- | []]]; lia.
  - vm_compute. reflexivity.
  - vm_compute. reflexivity.
  - vm_compute. reflexivity.
  - vm_compute. reflexivity.
Defined.

(** X6.  When some thickness match has three characters or more, the
    conversion of the array is [float] of every match, with NaN for the
    empty ones (a match is read without its trailing NUL characters, as a
    unicode array stores it). *)
Theorem marker_becomes_nan (ms : list string) :
  (exists t, In t ms /\ (3 <= String.length t)%nat) ->
  astype_float (assign_nan_where_empty (array ms))
  = mapM (fun t => if String.eqb (rstrip_nul t) "" then Ok nan
                   else py_float (rstrip_nul t)) ms.
Proof.
  intros (t & Hin & Hlen).
  assert (Hw : (3 <= width (array ms))%nat).
  { cbn [width array]. pose proof (max_length_reached ms t Hin). lia. }
  unfold astype_float. cbn [items assign_nan_where_empty].
  rewrite (nan_kept _ Hw). cbn [items array].
  rewrite map_map, mapM_map. apply mapM_ext. intros x _.
  destruct (String.eqb (rstrip_nul x) ""); reflexivity.
Qed.

Lemma marker_becomes_nan_witness :
  astype_float (assign_nan_where_empty (array ["100.5"; ""; "98"]))
  = Ok [S754_finite false 7072058789855232 (-46); nan; of_Z 98].
Proof.
  rewrite marker_becomes_nan.
  - vm_compute. reflexivity.
  - exists "100.5". split; [now left | simpl; lia].
Defined.

(** *** The repair of the thickness series *)

Lemma fill_from_complete a : forall off f,
  Forall (fun v => isnan v = false) a -> fill_from off f a = a.
Proof.
  induction a as [|v a IH]; intros off f H; [reflexivity|].
  inversion H; subst. simpl. rewrite H2. f_equal. now apply IH.
Qed.

Lemma repaired_not_nan a :
  (exists j, valid a j) ->
  (forall j, valid a j -> is_finite (nth j a nan) = true) ->
  (Z.of_nat (List.length a) <= 2 ^ 53)%Z ->
  Forall (fun v => isnan v = false) (fill_from 0 (interp1 (points_from 0 a)) a).
Proof.
  intros Hex Hfin Hlen.
  apply Forall_nth. intros i d Hi. rewrite fill_from_length in Hi.
  rewrite (nth_indep _ d nan) by (now rewrite fill_from_length).
  rewrite fill_from_nth by assumption. simpl Nat.add.
  destruct (isnan (nth i a nan)) eqn:Hnan; [|assumption].
  assert (Hpts : points_from 0 a <> []).
  { destruct Hex as [j Hj]. apply valid_in_points in Hj.
    intro E. rewrite E in Hj. destruct Hj. }
  destruct (interp1_value (points_from 0 a) i Hpts)
    as [p Hp Hv | l fl r fr Hl Hr Hlr Hv]; rewrite Hv.
  - apply points_valid in Hp. destruct Hp as [[_ Hp] Hs]. now rewrite Hs.
  - apply points_In_valid in Hl, Hr.
    destruct Hl as [Hl <-], Hr as [Hr <-].
    apply FloatFacts.lerp_not_nan.
    + now apply Hfin.
    + now apply Hfin.
    + assert (l <> i).
      { intros ->. destruct Hl as [_ Hl]. congruence. }
      lia.
    + destruct Hr as [Hr _]. lia.
Qed.

Lemma repair_missing_complete a :
  a <> [] -> Forall (fun v => isnan v = false) a -> repair_missing a = Ok a.
Proof.
  intros Hne Hall. rewrite repair_missing_ok.
  - now rewrite fill_from_complete.
  - destruct a as [|v a]; [congruence|]. exists 0%nat.
    inversion Hall; subst. split; [simpl; lia | assumption].
Qed.

(** X7.  The repair returns exactly for the series that hold a valid
    entry: on a series of NaN only, and on the empty series, [np.interp]
    raises ValueError, array of sample points is empty. *)
Theorem repair_missing_needs_a_reading (a : list float) :
  (is_ok (repair_missing a) = true <-> exists j, valid a j) /\
  ((forall j, ~ valid a j) ->
   repair_missing a = Raise (ValueError "array of sample points is empty")).
Proof.
  split; [split|].
  - intro H. rewrite repair_missing_eq in H.
    destruct (points_from 0 a) as [|p pts] eqn:E; [discriminate|].
    exists (fst p). apply (points_valid a p). rewrite E. now left.
  - intro H. now rewrite (repair_missing_ok a H).
  - apply repair_missing_none.
Qed.

(** X8.  A series without NaN, of one entry or more, is returned as it
    is. *)
Theorem repair_missing_keeps_complete_series (a : list float) :
  a <> [] -> Forall (fun v => isnan v = false) a -> repair_missing a = Ok a.
Proof. apply repair_missing_complete. Qed.

Lemma repair_missing_keeps_complete_series_witness :
  repair_missing [of_Z 10; of_Z 20] = Ok [of_Z 10; of_Z 20].
Proof.
  apply repair_missing_keeps_complete_series; [discriminate|].
  repeat constructor.
Defined.

(** X9.  Repairing twice is repairing once: when the valid entries are
    finite and the series has at most 2^53 entries, the repaired series is
    returned as it is by a second repair. *)
Theorem repair_missing_idempotent (a b : list float) :
  repair_missing a = Ok b ->
  (forall j, valid a j -> is_finite (nth j a nan) = true) ->
  (Z.of_nat (List.length a) <= 2 ^ 53)%Z ->
  repair_missing b = Ok b.
Proof.
  intros H Hfin Hlen.
  assert (Hex : exists j, valid a j).
  { rewrite repair_missing_eq in H.
    destruct (points_from 0 a) as [|p pts] eqn:E; [discriminate|].
    exists (fst p). apply (points_valid a p). rewrite E. now left. }
  rewrite (repair_missing_ok a Hex) in H. inversion H; subst b; clear H.
  apply repair_missing_complete.
  - destruct Hex as [j [Hj _]]. intro E.
    apply (f_equal (@List.length _)) in E. rewrite fill_from_length in E.
    simpl in E. lia.
  - now apply repaired_not_nan.
Qed.

Lemma repair_missing_idempotent_witness :
  repair_missing series_10_nan_nan_40 = Ok [of_Z 10; of_Z 20; of_Z 30; of_Z 40] /\
  repair_missing [of_Z 10; of_Z 20; of_Z 30; of_Z 40]
  = Ok [of_Z 10; of_Z 20; of_Z 30; of_Z 40].
Proof.
  assert (H : repair_missing series_10_nan_nan_40 = Ok [of_Z 10; of_Z 20; of_Z 30; of_Z 40])
    by (vm_compute; reflexivity).
  split; [exact H|].
  apply (repair_missing_idempotent series_10_nan_nan_40 _ H).
  - intros j [Hj Hn]. unfold series_10_nan_nan_40 in Hj. cbn [List.length] in Hj.
    destruct j as [|[|[|[|j]]]]; [vm_compute; reflexivity | | | vm_compute; reflexivity | lia];
      vm_compute in Hn; discriminate.
  - unfold series_10_nan_nan_40. cbn [List.length]. lia.
Defined.

(** X11.  On a report that is the statistics "StdDev s Mean m "
    followed by the sites "R= r, Theta= t, Thick1= k, " or
    "R= r, Theta= t, No Soution ", whose values hold no white space, no
    comma and no first letter of a label, the patterns find exactly the
    printed values, in order, with the empty match for each marker; so
    [__init__] is the conversion and the repair of the printed values. *)
Theorem parse_reads_rendered_report (sd mn : string) (ps : list reading) :
  sd <> "" -> token sd = true -> mn <> "" -> token mn = true ->
  forallb reading_tokens ps = true ->
  search_float patt_stddev (render_report sd mn ps) = py_float sd /\
  search_float patt_mean (render_report sd mn ps) = py_float mn /\
  findall patt_rad (render_report sd mn ps) = map radius_text ps /\
  findall patt_theta (render_report sd mn ps) = map angle_text ps /\
  findall patt_thick (render_report sd mn ps) = map thickness_match ps /\
  parse (render_report sd mn ps) =
    (stddev <- at_site At_stddev (py_float sd) ;;
     mean <- at_site At_mean (py_float mn) ;;
     rad_arr <- at_site At_rad (astype_float (array (map radius_text ps))) ;;
     theta <- at_site At_theta (astype_float (array (map angle_text ps))) ;;
     thick <- at_site At_thick
                (astype_float
                   (assign_nan_where_empty (array (map thickness_match ps)))) ;;
     thick_arr <- at_site At_interp (repair_missing thick) ;;
     Ok {| stddev := stddev; mean := mean; rad_arr := rad_arr;
           theta_arr := map radians theta; thick_arr := thick_arr |}).
Proof.
  intros Hsd Tsd Hmn Tmn Hps.
  assert (Esd : search_float patt_stddev (render_report sd mn ps) = py_float sd).
  { apply (search_float_token "StdDev" _ " " sd " "
             ("Mean" ++ " " ++ mn ++ " " ++ render_readings ps));
      [reflexivity | assumption | now apply token_not_space | reflexivity |].
    rewrite render_report_eq. apply after_first_head. }
  assert (Emn : search_float patt_mean (render_report sd mn ps) = py_float mn).
  { apply (search_float_token "Mean" _ " " mn " " (render_readings ps));
      [reflexivity | assumption | now apply token_not_space | reflexivity |].
    rewrite render_report_eq.
    rewrite (after_first_skip "Mean" "StdDev") by reflexivity.
    rewrite (after_first_skip "Mean" " ") by reflexivity.
    rewrite (after_first_skip "Mean" sd) by (apply token_clear; [reflexivity | assumption]).
    rewrite (after_first_skip "Mean" " ") by reflexivity.
    apply after_first_head. }
  assert (Erad : findall patt_rad (render_report sd mn ps) = map radius_text ps).
  { unfold findall. rewrite render_report_eq. unfold patt_rad. skip "R=".
    now apply findall_rad_readings. }
  assert (Etheta : findall patt_theta (render_report sd mn ps) = map angle_text ps).
  { unfold findall. rewrite render_report_eq. unfold patt_theta. skip "Theta=".
    now apply findall_theta_readings. }
  assert (Ethick : findall patt_thick (render_report sd mn ps) = map thickness_match ps).
  { unfold findall. rewrite render_report_eq. skip_thick.
    now apply findall_thick_readings. }
  split; [exact Esd|]. split; [exact Emn|]. split; [exact Erad|].
  split; [exact Etheta|]. split; [exact Ethick|].
  unfold parse. now rewrite Esd, Emn, Erad, Etheta, Ethick.
Qed.

Lemma parse_reads_rendered_report_witness :
  findall patt_rad report_no_soution = ["0.0"; "1.0"; "1.0"]%list /\
  findall patt_theta report_no_soution = ["0.0"; "90.0"; "180.0"]%list /\
  findall patt_thick report_no_soution = ["100.5"; ""; "110.5"]%list.
Proof.
  destruct (parse_reads_rendered_report "1.5" "100.25"
              [ {| radius_text := "0.0"; angle_text := "0.0"; thickness_text := Some "100.5" |};
                {| radius_text := "1.0"; angle_text := "90.0"; thickness_text := None |};
                {| radius_text := "1.0"; angle_text := "180.0";
                   thickness_text := Some "110.5" |} ]%list
              ltac:(discriminate) eq_refl ltac:(discriminate) eq_refl eq_refl)
    as (_ & _ & Hr & Ht & Hk & _).
  split; [exact Hr|]. split; [exact Ht | exact Hk].
Defined.

(** X12.  What the patterns capture: a match of [patt_rad], [patt_theta]
    or [patt_thick] holds no comma and no line feed, and the group of
    [patt_stddev] and [patt_mean] takes part in every match and holds no
    white space, so that [float(re.search(...).group(1))] never raises
    TypeError. *)
Theorem matches_hold_no_delimiter (text : string) :
  Forall (fun t => all_chars field_char t = true) (findall patt_rad text) /\
  Forall (fun t => all_chars field_char t = true) (findall patt_theta text) /\
  Forall (fun t => all_chars field_char t = true) (findall patt_thick text) /\
  (forall rest g, search patt_stddev text = Some (rest, g) ->
     exists tok, g = Some tok /\ all_chars not_space tok = true) /\
  (forall rest g, search patt_mean text = Some (rest, g) ->
     exists tok, g = Some tok /\ all_chars not_space tok = true) /\
  search_float patt_stddev text <> Raise TypeError /\
  search_float patt_mean text <> Raise TypeError.
Proof.
  assert (Hty : forall lbl, search_float (header lbl) text <> Raise TypeError).
  { intro lbl. unfold search_float.
    destruct (search (header lbl) text) as [[rest g]|] eqn:E; [|discriminate].
    destruct (header_search_group _ _ _ _ E) as (tok & -> & _).
    unfold py_float. destruct (parse_float tok); discriminate. }
  split; [apply findall_Forall; exact (field_match_group "R=")|].
  split; [apply findall_Forall; exact (field_match_group "Theta=")|].
  split; [apply findall_Forall; exact thick_match_group|].
  split; [exact (header_search_group "StdDev" text)|].
  split; [exact (header_search_group "Mean" text)|].
  split; [exact (Hty "StdDev") | exact (Hty "Mean")].
Qed.

End ParserProperties.

(** ** The spatial interpolator: further properties of [interp_grid] *)

Module InterpProperties.

Import Interp InterpSpec ResultFacts InterpFacts.
Local Open Scope R_scope.

Section AnyInterpolator.

Variable RBF : list (R * R) -> list R -> result pyexc (R * R -> R).

(** X13.  [interp_grid] raises the ValueError of the product
    [rad_arr * np.cos(theta_arr)] exactly when the radii and the angles
    differ in number and neither array has one element: a single radius or
    a single angle is broadcast over the other array. *)
Theorem unequal_series_fail_to_broadcast (self : Samples) (polar : bool) (P : Z) :
  interp_grid RBF self polar P
  = Raise (At_cartesian, ValueError "operands could not be broadcast together")
  <-> (length (rad_arr self) <> length (theta_arr self) /\
       length (rad_arr self) <> 1%nat /\ length (theta_arr self) <> 1%nat).
Proof.
  pose proof (broadcast_raises_iff Rmult (rad_arr self) (map cos (theta_arr self))) as Hx.
  pose proof (broadcast_raises_iff Rmult (rad_arr self) (map sin (theta_arr self))) as Hy.
  rewrite length_map in Hx, Hy.
  split.
  - intro H. unfold interp_grid in H.
    destruct (broadcast_ok_or_raises Rmult (rad_arr self) (map cos (theta_arr self)))
      as [[x Ex] | Ex]; [|now apply Hx].
    destruct (broadcast_ok_or_raises Rmult (rad_arr self) (map sin (theta_arr self)))
      as [[y Ey] | Ey]; [|now apply Hy].
    exfalso. rewrite Ex, Ey in H. cbn [at_site bind] in H.
    destruct (RBF (combine x y) (thick_arr self)); cbn [at_site bind] in H; [|discriminate].
    destruct (py_min x); cbn [at_site bind] in H; [|discriminate].
    destruct (py_max x); cbn [at_site bind] in H; [|discriminate].
    destruct (linspace _ _ P); cbn [at_site bind] in H; [|discriminate].
    destruct (py_min y); cbn [at_site bind] in H; [|discriminate].
    destruct (py_max y); cbn [at_site bind] in H; [|discriminate].
    destruct (linspace _ _ P); cbn [at_site bind] in H; [|discriminate].
    unfold meshgrid in H. destruct polar; discriminate.
  - intro H. apply Hx in H. unfold interp_grid. now rewrite H.
Qed.

(** X14.  On a map without radii or without angles [interp_grid] raises for
    every resolution and in both modes, and not later than at [min(x)]:
    the exception is that of the product, of the fit or of [min]. *)
Theorem empty_series_raise (self : Samples) (polar : bool) (P : Z) :
  rad_arr self = [] \/ theta_arr self = [] ->
  exists l e,
    interp_grid RBF self polar P = Raise (l, e) /\
    (l = At_cartesian \/ l = At_rbf \/ l = At_bounds).
Proof.
  intro Hempty.
  assert (Hcos : rad_arr self = [] \/ map cos (theta_arr self) = []).
  { destruct Hempty as [H | H]; [now left | right; now rewrite H]. }
  assert (Hsin : rad_arr self = [] \/ map sin (theta_arr self) = []).
  { destruct Hempty as [H | H]; [now left | right; now rewrite H]. }
  unfold interp_grid.
  destruct (broadcast Rmult (rad_arr self) (map cos (theta_arr self))) as [x|e] eqn:Ex;
    cbn [at_site bind]; [|exists At_cartesian, e; auto].
  destruct (broadcast Rmult (rad_arr self) (map sin (theta_arr self))) as [y|e] eqn:Ey;
    cbn [at_site bind]; [|exists At_cartesian, e; auto].
  apply (broadcast_nil _ _ _ _ Hcos) in Ex. apply (broadcast_nil _ _ _ _ Hsin) in Ey.
  subst x y. cbn [combine].
  destruct (RBF [] (thick_arr self)) as [rbf|e]; cbn [at_site bind py_min].
  - eexists At_bounds, _. split; [reflexivity | auto].
  - exists At_rbf, e. auto.
Qed.

End AnyInterpolator.

Lemma empty_series_raise_witness :
  exists l e,
    interp_grid rbf_three_samples no_samples true 10 = Raise (l, e) /\
    (l = At_cartesian \/ l = At_rbf \/ l = At_bounds).
Proof.
  apply (empty_series_raise rbf_three_samples no_samples true 10). now left.
Defined.

End InterpProperties.
